(** * mcpinspect: the transport layer, embedded and verified

    A shallow embedding of the three client transports of mcpinspect
    ([CleaningStdioTransport], [SSEClientTransport], [TraditionalSSETransport])
    together with the parts of the Go standard library they are written
    against ([strings], [bufio], [encoding/json], [net/http]), and of what
    the command does around them: the token it takes from the keychain, the
    transports it builds with it, and the table of the configured servers.

    Conventions.
    - A Go [string] and a Go [[]byte] are both a Rocq [string]: a sequence
      of bytes.  The JSON scanner works on the byte list of such a string.
    - A nil pointer is [None]; a nil function value is [None].
    - Every function that performs I/O returns its result together with the
      list of effects it performed, in order ([Effect]).
    - The network is a parameter: what [client.Do] answers to a request.
    - A goroutine is known by its effects. What goes on around it while it
      runs (the context ends, the stream stays open, another goroutine sets
      a handler) is given with the call that starts it. *)

From Stdlib Require Import ZArith NArith Ascii String List Bool Lia.
From Stdlib Require Import DecimalString DecimalFacts DecimalPos DecimalZ.
From stdpp Require Import base tactics option list gmap strings sorting.

(** The double quote, written by its code. *)
Definition dq : ascii := "034"%char.

(** ** Package [strings] *)
Module strings.

(** [strings.HasPrefix]. *)
Definition HasPrefix (s p : string) : bool := String.prefix p s.

(** [strings.TrimPrefix]: [s] without the leading [p], or [s] itself. *)
Definition TrimPrefix (s p : string) : string :=
  if HasPrefix s p
  then String.substring (String.length p) (String.length s - String.length p) s
  else s.

(** [strings.Join]. *)
Definition Join (elems : list string) (sep : string) : string :=
  String.concat sep elems.

(** [strings.Contains]. *)
Definition Contains (s sub : string) : bool :=
  match String.index 0 sub s with Some _ => true | None => false end.

(** [strings.LastIndex]: byte offset of the last occurrence of [sub]
    in [s]; [None] is Go's [-1]. *)
Fixpoint LastIndex (s sub : string) : option nat :=
  match s with
  | EmptyString => if String.prefix sub EmptyString then Some 0 else None
  | String _ s' =>
      match LastIndex s' sub with
      | Some i => Some (S i)
      | None => if String.prefix sub s then Some 0 else None
      end
  end.

(** A string by the values of its bytes. *)
Definition bytes (l : list nat) : string :=
  string_of_list_ascii (map ascii_of_nat l).

(** The white space of [unicode.IsSpace], each rune by the bytes of its
    UTF-8 encoding: tab, newline, vertical tab, form feed, carriage return
    and space; U+0085 and U+00A0; U+1680; U+2000 to U+200A; U+2028, U+2029,
    U+202F, U+205F and U+3000. *)
Definition white_space : list (list ascii) :=
  map (map ascii_of_nat)
    [ [9]; [10]; [11]; [12]; [13]; [32];
      [194; 133]; [194; 160];
      [225; 154; 128];
      [226; 128; 128]; [226; 128; 129]; [226; 128; 130]; [226; 128; 131];
      [226; 128; 132]; [226; 128; 133]; [226; 128; 134]; [226; 128; 135];
      [226; 128; 136]; [226; 128; 137]; [226; 128; 138];
      [226; 128; 168]; [226; 128; 169]; [226; 128; 175];
      [226; 129; 159];
      [227; 128; 128] ].

(** [l] without the leading [p], if it begins with [p]. *)
Fixpoint without_prefix (p l : list ascii) : option (list ascii) :=
  match p, l with
  | [], _ => Some l
  | a :: p', b :: l' => if Ascii.eqb a b then without_prefix p' l' else None
  | _ :: _, [] => None
  end.

(** What follows the white space rune that [l] begins with, if it begins
    with one. No encoding above begins another, so at most one fits. *)
Definition after_space (runes : list (list ascii)) (l : list ascii)
  : option (list ascii) :=
  head (omap (fun rune => without_prefix rune l) runes).

(** The leading white space runes removed; [n] bounds their number. *)
Fixpoint trim (runes : list (list ascii)) (n : nat) (l : list ascii) : list ascii :=
  match n with
  | 0 => l
  | S n' =>
      match after_space runes l with
      | Some l' => trim runes n' l'
      | None => l
      end
  end.

(** [strings.TrimLeftFunc(s, unicode.IsSpace)]: the runes are decoded from
    the first byte on, and the first that is no white space ends the
    trimming. A byte that begins no well-formed encoding is the rune U+FFFD
    for Go, which is no white space. *)
Definition TrimLeft (s : string) : string :=
  let l := list_ascii_of_string s in
  string_of_list_ascii (trim white_space (List.length l) l).

(** [strings.TrimRightFunc(s, unicode.IsSpace)]: the runes are decoded from
    the last byte back. [utf8.DecodeLastRuneInString] goes back to the
    nearest byte that begins a rune and decodes from there; the last rune is
    a white space exactly when the string ends with the encoding of one. *)
Definition TrimRight (s : string) : string :=
  let l := rev (list_ascii_of_string s) in
  string_of_list_ascii (rev (trim (map (@rev ascii) white_space) (List.length l) l)).

(** [strings.TrimSpace]: leading and trailing white space removed, as
    Unicode defines it. (The code of Go goes over the ASCII bytes first and
    falls back on the two functions above at the first byte from 128 on;
    the result is that of the two functions.) *)
Definition TrimSpace (s : string) : string := TrimRight (TrimLeft s).

End strings.

(** ** Package [encoding/json]

    The decoder of [encoding/json] works in two steps, and so does this
    model.  The scanner checks the syntax of the whole document and cuts it
    into literals ([json.tree]: numbers are still their text, objects are
    still the members in the order of the document).  The literals are then
    converted for the Go type they are stored into ([json.value] for an
    [interface{}], see below).

    Not modelled: the nesting limit of the scanner (10000), the validation
    of UTF-8 inside strings (bytes from 128 on are copied as they are, in
    both directions), and the escapes of U+2028 and U+2029 on output. *)
Module json.

#[local] Set Warnings "-register-all".


Inductive tree : Type :=
| TNull
| TBool (b : bool)
| TNumber (lit : string)
| TString (s : string)
| TArray (elems : list tree)
| TObject (members : list (string * tree)).

Definition is_space (c : ascii) : bool :=
  Ascii.eqb c " " || Ascii.eqb c "009" || Ascii.eqb c "010" || Ascii.eqb c "013".

Definition is_digit (c : ascii) : bool :=
  let n := nat_of_ascii c in (48 <=? n)%nat && (n <=? 57)%nat.

(** The bytes a number literal is made of. *)
Definition is_number_char (c : ascii) : bool :=
  is_digit c || Ascii.eqb c "-" || Ascii.eqb c "+" || Ascii.eqb c "."
  || Ascii.eqb c "e" || Ascii.eqb c "E".

Fixpoint skip_space (s : list ascii) : list ascii :=
  match s with
  | c :: s' => if is_space c then skip_space s' else s
  | [] => []
  end.

Fixpoint skip_digits (s : list ascii) : list ascii :=
  match s with
  | c :: s' => if is_digit c then skip_digits s' else s
  | [] => []
  end.

(** The grammar of a JSON number: an optional minus sign; then either a
    single zero or a digit from 1 to 9 followed by any digits; then an
    optional fraction (a dot and at least one digit); then an optional
    exponent (e or E, an optional sign, at least one digit). *)
Definition exponent_syntax (s : list ascii) : bool :=
  match s with
  | [] => true
  | e :: s1 =>
      if Ascii.eqb e "e" || Ascii.eqb e "E" then
        let s2 := match s1 with
                  | c :: r => if Ascii.eqb c "+" || Ascii.eqb c "-" then r else s1
                  | [] => s1
                  end in
        match s2 with
        | d :: r => is_digit d && match skip_digits r with [] => true | _ => false end
        | [] => false
        end
      else false
  end.

Definition fraction_syntax (s : list ascii) : bool :=
  match s with
  | c :: s1 =>
      if Ascii.eqb c "." then
        match s1 with
        | d :: r => is_digit d && exponent_syntax (skip_digits r)
        | [] => false
        end
      else exponent_syntax s
  | [] => true
  end.

Definition number_syntax (s : list ascii) : bool :=
  let s1 := match s with
            | c :: r => if Ascii.eqb c "-" then r else s
            | [] => s
            end in
  match s1 with
  | d :: r =>
      if Ascii.eqb d "0" then fraction_syntax r
      else is_digit d && fraction_syntax (skip_digits r)
  | [] => false
  end.

Fixpoint span_number (s : list ascii) : list ascii * list ascii :=
  match s with
  | c :: s' =>
      if is_number_char c
      then let '(lit, rest) := span_number s' in (c :: lit, rest)
      else ([], s)
  | [] => ([], [])
  end.

(** A number literal at the head of [s]: the longest run of number bytes,
    which has to follow the grammar. *)
Definition scan_number (s : list ascii) : option (list ascii * list ascii) :=
  let '(lit, rest) := span_number s in
  if number_syntax lit then Some (lit, rest) else None.

(** [s] without the leading [p], if it starts with [p]. *)
Fixpoint strip_prefix (p s : list ascii) : option (list ascii) :=
  match p, s with
  | [], _ => Some s
  | a :: p', b :: s' => if Ascii.eqb a b then strip_prefix p' s' else None
  | _ :: _, [] => None
  end.

(** *** Strings *)

Definition hex_value (c : ascii) : option N :=
  let n := N_of_ascii c in
  if (48 <=? n)%N && (n <=? 57)%N then Some (n - 48)%N
  else if (97 <=? n)%N && (n <=? 102)%N then Some (n - 87)%N
  else if (65 <=? n)%N && (n <=? 70)%N then Some (n - 55)%N
  else None.

Definition hex4 (a b c d : ascii) : option N :=
  x ← hex_value a; y ← hex_value b; z ← hex_value c; w ← hex_value d;
  Some (x * 4096 + y * 256 + z * 16 + w)%N.

(** A code point in UTF-8. *)
Definition utf8 (cp : N) : list ascii :=
  if (cp <? 128)%N then [ascii_of_N cp]
  else if (cp <? 2048)%N then
    [ascii_of_N (192 + cp / 64); ascii_of_N (128 + cp mod 64)]
  else if (cp <? 65536)%N then
    [ascii_of_N (224 + cp / 4096); ascii_of_N (128 + (cp / 64) mod 64);
     ascii_of_N (128 + cp mod 64)]
  else
    [ascii_of_N (240 + cp / 262144); ascii_of_N (128 + (cp / 4096) mod 64);
     ascii_of_N (128 + (cp / 64) mod 64); ascii_of_N (128 + cp mod 64)].

Definition is_high_surrogate (cp : N) : bool := (55296 <=? cp)%N && (cp <? 56320)%N.
Definition is_low_surrogate (cp : N) : bool := (56320 <=? cp)%N && (cp <? 57344)%N.

(** The byte a two-byte escape stands for. *)
Definition simple_escape (e : ascii) : option ascii :=
  if Ascii.eqb e dq then Some dq
  else if Ascii.eqb e "\" then Some "\"%char
  else if Ascii.eqb e "/" then Some "/"%char
  else if Ascii.eqb e "b" then Some "008"%char
  else if Ascii.eqb e "f" then Some "012"%char
  else if Ascii.eqb e "n" then Some "010"%char
  else if Ascii.eqb e "r" then Some "013"%char
  else if Ascii.eqb e "t" then Some "009"%char
  else None.

(** The low half of a surrogate pair at the head of [s]. *)
Definition low_surrogate_at (s : list ascii) : option (N * list ascii) :=
  match s with
  | b :: u :: a1 :: a2 :: a3 :: a4 :: r =>
      if Ascii.eqb b "\" && Ascii.eqb u "u" then
        match hex4 a1 a2 a3 a4 with
        | Some lo => if is_low_surrogate lo then Some (lo, r) else None
        | None => None
        end
      else None
  | _ => None
  end.

(** The contents of a string literal whose opening quote has been read:
    the decoded bytes and what follows the closing quote. *)
Fixpoint unquote (s : list ascii) : option (string * list ascii) :=
  match s with
  | [] => None
  | c :: s1 =>
      if Ascii.eqb c dq then Some (EmptyString, s1)
      else if Ascii.eqb c "\" then
        match s1 with
        | [] => None
        | e :: s2 =>
            if Ascii.eqb e "u" then
              match s2 with
              | a1 :: a2 :: a3 :: a4 :: s3 =>
                  match hex4 a1 a2 a3 a4 with
                  | None => None
                  | Some cp =>
                      if is_high_surrogate cp then
                        match s3 with
                        | b :: u :: b1 :: b2 :: b3 :: b4 :: s4 =>
                            match low_surrogate_at s3 with
                            | Some (lo, _) =>
                                '(str, rest) ← unquote s4;
                                Some (string_of_list_ascii
                                        (utf8 (65536 + (cp - 55296) * 1024 + (lo - 56320)))
                                        +:+ str, rest)
                            | None =>
                                '(str, rest) ← unquote s3;
                                Some (string_of_list_ascii (utf8 65533) +:+ str, rest)
                            end
                        | _ =>
                            '(str, rest) ← unquote s3;
                            Some (string_of_list_ascii (utf8 65533) +:+ str, rest)
                        end
                      else if is_low_surrogate cp then
                        '(str, rest) ← unquote s3;
                        Some (string_of_list_ascii (utf8 65533) +:+ str, rest)
                      else
                        '(str, rest) ← unquote s3;
                        Some (string_of_list_ascii (utf8 cp) +:+ str, rest)
                  end
              | _ => None
              end
            else
              match simple_escape e with
              | Some x => '(str, rest) ← unquote s2; Some (String x str, rest)
              | None => None
              end
        end
      else if (N_of_ascii c <? 32)%N then None
      else '(str, rest) ← unquote s1; Some (String c str, rest)
  end.

Definition hex_digit (n : N) : ascii :=
  if (n <? 10)%N then ascii_of_N (48 + n) else ascii_of_N (87 + n).

(** How [json.Marshal] writes one byte of a string: the short escapes, the
    [\u00XX] form for the other control bytes and for [<], [>] and [&]. *)
Definition escape_byte (c : ascii) : list ascii :=
  if Ascii.eqb c dq then ["\"; dq]%char
  else if Ascii.eqb c "\" then ["\"; "\"]%char
  else if Ascii.eqb c "008" then ["\"; "b"]%char
  else if Ascii.eqb c "012" then ["\"; "f"]%char
  else if Ascii.eqb c "010" then ["\"; "n"]%char
  else if Ascii.eqb c "013" then ["\"; "r"]%char
  else if Ascii.eqb c "009" then ["\"; "t"]%char
  else if (N_of_ascii c <? 32)%N || Ascii.eqb c "<" || Ascii.eqb c ">" || Ascii.eqb c "&"
  then ["\"; "u"; "0"; "0"; hex_digit (N_of_ascii c / 16); hex_digit (N_of_ascii c mod 16)]%char
  else [c].

Fixpoint escape (s : string) : list ascii :=
  match s with
  | EmptyString => []
  | String c s' => escape_byte c ++ escape s'
  end.

Definition quote (s : string) : list ascii := dq :: escape s ++ [dq].

(** *** Documents *)

Fixpoint parse_value (fuel : nat) (s : list ascii) {struct fuel}
  : option (tree * list ascii) :=
  match fuel with
  | O => None
  | S fuel' =>
      match skip_space s with
      | [] => None
      | c :: r =>
          if is_digit c || Ascii.eqb c "-" then
            '(lit, rest) ← scan_number (c :: r);
            Some (TNumber (string_of_list_ascii lit), rest)
          else if Ascii.eqb c dq then
            '(str, rest) ← unquote r; Some (TString str, rest)
          else if Ascii.eqb c "n" then
            rest ← strip_prefix ["u"; "l"; "l"]%char r; Some (TNull, rest)
          else if Ascii.eqb c "t" then
            rest ← strip_prefix ["r"; "u"; "e"]%char r; Some (TBool true, rest)
          else if Ascii.eqb c "f" then
            rest ← strip_prefix ["a"; "l"; "s"; "e"]%char r; Some (TBool false, rest)
          else if Ascii.eqb c "[" then
            match skip_space r with
            | c' :: r' =>
                if Ascii.eqb c' "]" then Some (TArray [], r')
                else '(elems, rest) ← parse_elems fuel' r; Some (TArray elems, rest)
            | [] => None
            end
          else if Ascii.eqb c "{" then
            match skip_space r with
            | c' :: r' =>
                if Ascii.eqb c' "}" then Some (TObject [], r')
                else '(members, rest) ← parse_members fuel' r; Some (TObject members, rest)
            | [] => None
            end
          else None
      end
  end
with parse_elems (fuel : nat) (s : list ascii) {struct fuel}
  : option (list tree * list ascii) :=
  match fuel with
  | O => None
  | S fuel' =>
      '(v, r) ← parse_value fuel' s;
      match skip_space r with
      | c :: r' =>
          if Ascii.eqb c "," then
            '(vs, rest) ← parse_elems fuel' r'; Some (v :: vs, rest)
          else if Ascii.eqb c "]" then Some ([v], r')
          else None
      | [] => None
      end
  end
with parse_members (fuel : nat) (s : list ascii) {struct fuel}
  : option (list (string * tree) * list ascii) :=
  match fuel with
  | O => None
  | S fuel' =>
      match skip_space s with
      | q :: r =>
          if Ascii.eqb q dq then
            '(k, r1) ← unquote r;
            match skip_space r1 with
            | colon :: r2 =>
                if Ascii.eqb colon ":" then
                  '(v, r3) ← parse_value fuel' r2;
                  match skip_space r3 with
                  | c :: r4 =>
                      if Ascii.eqb c "," then
                        '(ms, rest) ← parse_members fuel' r4; Some ((k, v) :: ms, rest)
                      else if Ascii.eqb c "}" then Some ([(k, v)], r4)
                      else None
                  | [] => None
                  end
                else None
            | [] => None
            end
          else None
      | [] => None
      end
  end.

(** The scanner on a whole document: one value, white space around it, and
    nothing else.  The fuel is the length of the document, which is more
    than the scanner ever uses. *)
Definition parse (data : string) : option tree :=
  let s := list_ascii_of_string data in
  match parse_value (S (List.length s)) s with
  | Some (t, rest) => match skip_space rest with [] => Some t | _ => None end
  | None => None
  end.

(** [json.Valid]. *)
Definition Valid (data : string) : bool :=
  match parse data with Some _ => true | None => false end.

(** Pieces separated by commas. *)
Fixpoint commas (pieces : list (list ascii)) : list ascii :=
  match pieces with
  | [] => []
  | [p] => p
  | p :: ps => p ++ ","%char :: commas ps
  end.

(** The compact text of a document. *)
Fixpoint print (t : tree) : list ascii :=
  match t with
  | TNull => ["n"; "u"; "l"; "l"]%char
  | TBool true => ["t"; "r"; "u"; "e"]%char
  | TBool false => ["f"; "a"; "l"; "s"; "e"]%char
  | TNumber lit => list_ascii_of_string lit
  | TString s => quote s
  | TArray elems => "["%char :: commas (map print elems) ++ ["]"%char]
  | TObject members =>
      "{"%char
        :: commas (map (fun kv => let '(k, v) := kv in quote k ++ ":"%char :: print v) members)
        ++ ["}"%char]
  end.

(** *** What the printer produces

    A document is well formed when its number literals follow the grammar;
    the scanner only produces such documents, and only on those does the
    printer write a text the scanner reads back. *)
Fixpoint well_formed (t : tree) : bool :=
  match t with
  | TNumber lit => number_syntax (list_ascii_of_string lit)
  | TArray elems => forallb well_formed elems
  | TObject members => forallb (fun kv => let '(_, v) := kv in well_formed v) members
  | _ => true
  end.

(** The fuel the scanner needs for a document. *)
Fixpoint weight (t : tree) : nat :=
  match t with
  | TArray elems => S (list_sum (map (fun v => S (weight v)) elems))
  | TObject members =>
      S (list_sum (map (fun kv => let '(_, v) := kv in S (weight v)) members))
  | _ => 1
  end.

Definition print_member (kv : string * tree) : list ascii :=
  let '(k, v) := kv in quote k ++ ":"%char :: print v.

(** The bytes a value can start with. *)
Definition value_start (c : ascii) : bool :=
  is_digit c || Ascii.eqb c "-" || Ascii.eqb c dq || Ascii.eqb c "n"
  || Ascii.eqb c "t" || Ascii.eqb c "f" || Ascii.eqb c "[" || Ascii.eqb c "{".

(** What follows a number must not continue it. *)
Definition no_number_head (rest : list ascii) : bool :=
  match rest with
  | c :: _ => negb (is_number_char c)
  | [] => true
  end.

(** Keys in strictly ascending order. *)
Fixpoint ascending {A : Type} (m : list (string * A)) : bool :=
  match m with
  | [] => true
  | (k, _) :: m' => forallb (fun kv => String.ltb k kv.1) m' && ascending m'
  end.

(** *** Values

    What [json.Unmarshal] stores into an [interface{}]: nil, a bool, a
    float64, a string, a [[]interface{}] or a [map[string]interface{}].

    A float64 is produced from a literal by [strconv.ParseFloat] and written
    back by [strconv.FormatFloat]; both are outside this repository and taken
    as a parameter, with the two facts the encoder relies on: what it writes
    is a JSON number, and reading it back gives the same float64. Only finite
    numbers come out of a document, so [float64] stands for those. *)
Class Float64 := {
  float64 : Type;
  ParseFloat : string -> option float64;
  FormatFloat : float64 -> string;
  FormatFloat_syntax :
    forall f, number_syntax (list_ascii_of_string (FormatFloat f)) = true;
  ParseFloat_FormatFloat :
    forall f, ParseFloat (FormatFloat f) = Some f
}.

Section Values.
Context `{Float64}.

(** A Go map with string keys is the list of its entries in ascending
    order of the keys, each key once: the order in which [json.Marshal]
    writes a map. *)
Inductive value : Type :=
| VNull
| VBool (b : bool)
| VNumber (f : float64)
| VString (s : string)
| VArray (elems : list value)
| VObject (entries : list (string * value)).

(** [m[k] = v] on such a map. *)
Fixpoint put {A : Type} (k : string) (v : A) (m : list (string * A))
  : list (string * A) :=
  match m with
  | [] => [(k, v)]
  | (k', v') :: m' =>
      match String.compare k k' with
      | Lt => (k, v) :: m
      | Eq => (k, v) :: m'
      | Gt => (k', v') :: put k v m'
      end
  end.

(** The literals of a document converted for an [interface{}]. The members
    of an object are stored one after the other, so the last of two members
    with the same key stays. A number that is out of range is an error. *)
Fixpoint decode (t : tree) : option value :=
  match t with
  | TNull => Some VNull
  | TBool b => Some (VBool b)
  | TNumber lit => VNumber <$> ParseFloat lit
  | TString s => Some (VString s)
  | TArray elems =>
      VArray <$>
        (fix decode_elems (l : list tree) : option (list value) :=
           match l with
           | [] => Some []
           | t' :: l' => v ← decode t'; vs ← decode_elems l'; Some (v :: vs)
           end) elems
  | TObject members =>
      VObject <$>
        (fix decode_members (l : list (string * tree)) (m : list (string * value))
           : option (list (string * value)) :=
           match l with
           | [] => Some m
           | (k, t') :: l' => v ← decode t'; decode_members l' (put k v m)
           end) members []
  end.

(** The document [json.Marshal] writes for a value. *)
Fixpoint encode (v : value) : tree :=
  match v with
  | VNull => TNull
  | VBool b => TBool b
  | VNumber f => TNumber (FormatFloat f)
  | VString s => TString s
  | VArray elems => TArray (map encode elems)
  | VObject entries =>
      TObject (map (fun kv => let '(k, v') := kv in (k, encode v')) entries)
  end.

(** [json.Unmarshal(data, &m)] for a nil [m] of type
    [map[string]interface{}]: [None] is a non-nil error. The document [null]
    is no error and leaves the map nil, which has no entries. *)
Definition Unmarshal_map (data : string) : option (list (string * value)) :=
  match parse data with
  | Some TNull => Some []
  | Some (TObject members) =>
      match decode (TObject members) with
      | Some (VObject m) => Some m
      | _ => None
      end
  | _ => None
  end.

(** [json.Marshal(m)] for a map built from decoded values: [None] would be a
    non-nil error. [json.Marshal] fails on values no document decodes to
    (a NaN, a channel), which [value] does not have. *)
Definition Marshal_map (m : list (string * value)) : option string :=
  Some (string_of_list_ascii (print (encode (VObject m)))).

(** The two loops of [decode], by themselves. *)
Fixpoint decode_elems (l : list tree) : option (list value) :=
  match l with
  | [] => Some []
  | t :: l' => v ← decode t; vs ← decode_elems l'; Some (v :: vs)
  end.

Fixpoint decode_members (l : list (string * tree)) (m : list (string * value))
  : option (list (string * value)) :=
  match l with
  | [] => Some m
  | (k, t) :: l' => v ← decode t; decode_members l' (put k v m)
  end.

(** A value is canonical when every map in it has its keys in strictly
    ascending order: the representation of a Go map chosen above. *)
Fixpoint canonical (v : value) : bool :=
  match v with
  | VArray elems => forallb canonical elems
  | VObject entries =>
      ascending entries && forallb (fun kv => let '(_, v') := kv in canonical v') entries
  | _ => true
  end.

End Values.

End json.

(** ** A model of [Float64]: the integers

    Literals without fraction and exponent, written back in decimal. It
    shows that the two assumptions of [json.Float64] can be met together, and
    it is what the examples are evaluated with. (Every other literal is out
    of range for it.) *)
Definition Z_ParseFloat (lit : string) : option Z :=
  Z.of_int <$> NilZero.int_of_string lit.

Definition Z_FormatFloat (z : Z) : string :=
  NilZero.string_of_int (Z.to_int z).

Definition Z_Float64 : json.Float64.
Proof.
  refine {| json.float64 := Z;
            json.ParseFloat := Z_ParseFloat;
            json.FormatFloat := Z_FormatFloat;
            json.FormatFloat_syntax := _;
            json.ParseFloat_FormatFloat := _ |}.
  - abstract (
      assert (forall d,
        json.skip_digits (list_ascii_of_string (NilEmpty.string_of_uint d)) = [])
        as Hdigits by (induction d; cbn; done);
      assert (forall p d, Pos.to_uint p <> Decimal.D0 d) as Hhead
        by (intros p d Hd;
            pose proof (DecimalPos.Unsigned.to_of (Pos.to_uint p)) as Hn;
            rewrite DecimalPos.Unsigned.of_to in Hn; cbn [N.to_uint] in Hn;
            rewrite Hd in Hn; unfold Decimal.unorm in Hn;
            cbn [Decimal.nzhead] in Hn;
            destruct (Decimal.nzhead d) eqn:Hz;
            try (symmetry in Hn; rewrite <- Hz in Hn;
                 by apply nzhead_nonzero in Hn);
            injection Hn as ->;
            by apply DecimalPos.Unsigned.to_uint_nonzero in Hd);
      assert (forall p,
        let l := list_ascii_of_string (NilZero.string_of_uint (Pos.to_uint p)) in
        json.number_syntax l = true /\ json.number_syntax ("-"%char :: l) = true)
        as Hsyntax
        by (intros p; specialize (Hhead p);
            pose proof (DecimalPos.Unsigned.to_uint_nonnil p) as Hnil;
            destruct (Pos.to_uint p) as [|d|d|d|d|d|d|d|d|d|d]; try done;
            try (by destruct (Hhead d));
            cbn [NilZero.string_of_uint NilEmpty.string_of_uint
                 list_ascii_of_string];
            unfold json.number_syntax; cbn [Ascii.eqb Bool.eqb]; cbv iota;
            rewrite Hdigits; split; reflexivity);
      intros [|p|p]; [reflexivity|apply Hsyntax|apply Hsyntax]).
  - abstract (
      intros z; unfold Z_ParseFloat, Z_FormatFloat; rewrite NilZero.isi;
      [cbn; by rewrite DecimalZ.of_to
      |destruct z; cbn; try done; intros [= Hp];
       by apply DecimalPos.Unsigned.to_uint_nonnil in Hp
      |destruct z; cbn; try done; intros [= Hp];
       by apply DecimalPos.Unsigned.to_uint_nonnil in Hp]).
Defined.

(** ** A model of [Float64]: binary64, on the integers

    [strconv.ParseFloat] gives the float64 nearest to the literal, and of
    two that are equally near the one with the even mantissa;
    [strconv.AppendFloat(b, f, 'f', -1, 64)], which [encoding/json] uses for
    a float64 from 1e-6 up to 1e21, writes the shortest decimal that parses
    back to [f], and the nearest to [f] of two that are equally short. Here
    for the literals without fraction and exponent, as far as the float64
    stays below 1e21: such a float64 is an integer again, and so is what is
    written for it. (Every other literal is out of range for this model,
    and so is [-0], which is a float64 of its own.) *)
Definition round_binary64 (z : Z) : Z :=
  let a := Z.abs z in
  if (a <? 2 ^ 53)%Z then z
  else
    (* one unit in the last of the 53 bits of the mantissa *)
    let ulp := (2 ^ (Z.log2 a - 52))%Z in
    let q := (a / ulp)%Z in
    let r := (a mod ulp)%Z in
    let q := if (2 * r <? ulp)%Z then q
             else if (ulp <? 2 * r)%Z then (q + 1)%Z
             else if Z.even q then q else (q + 1)%Z in
    (Z.sgn z * (q * ulp))%Z.

(** The decimal with [k] zeros at its end that is written for the float64
    [z], if one of the two around [z] parses back to [z]. *)
Definition shortest_at (z : Z) (k : nat) : option Z :=
  let p := (10 ^ Z.of_nat k)%Z in
  let a := Z.abs z in
  let down := (a / p * p)%Z in
  let up := (down + p)%Z in
  let fits c := Z.eqb (round_binary64 (Z.sgn z * c)) z in
  match fits down, fits up with
  | true, true =>
      if (a - down <? up - a)%Z then Some (Z.sgn z * down)%Z
      else if (up - a <? a - down)%Z then Some (Z.sgn z * up)%Z
      else if Z.even (a / p) then Some (Z.sgn z * down)%Z else Some (Z.sgn z * up)%Z
  | true, false => Some (Z.sgn z * down)%Z
  | false, true => Some (Z.sgn z * up)%Z
  | false, false => None
  end.

(** The shortest decimal: the one with the most zeros at its end. *)
Definition shortest (z : Z) : Z :=
  default z (head (omap (shortest_at z) (rev (seq 0 21)))).

Definition is_binary64 (z : Z) : bool :=
  Z.eqb (round_binary64 z) z && (Z.abs z <? 10 ^ 21)%Z.

Definition binary64 : Type := { z : Z | is_binary64 z = true }.

Definition to_binary64 (z : Z) : option binary64 :=
  match Bool.bool_dec (is_binary64 z) true with
  | left float => Some (exist _ z float)
  | right _ => None
  end.

Definition binary64_ParseFloat (lit : string) : option binary64 :=
  match Z_ParseFloat lit with
  | Some z =>
      if String.eqb (Z_FormatFloat z) lit then to_binary64 (round_binary64 z) else None
  | None => None
  end.

Definition binary64_FormatFloat (f : binary64) : string :=
  Z_FormatFloat (shortest (proj1_sig f)).

Definition binary64_Float64 : json.Float64.
Proof.
  refine {| json.float64 := binary64;
            json.ParseFloat := binary64_ParseFloat;
            json.FormatFloat := binary64_FormatFloat;
            json.FormatFloat_syntax := _;
            json.ParseFloat_FormatFloat := _ |}.
  - abstract (
      assert (forall c,
        json.number_syntax (list_ascii_of_string (Z_FormatFloat c)) = true) as Hsyntax
        by (intros c; pose proof (@json.FormatFloat_syntax Z_Float64 c) as Hc;
            cbv [json.FormatFloat Z_Float64] in Hc; exact Hc);
      intros f; apply Hsyntax).
  - abstract (
      assert (forall c, Z_ParseFloat (Z_FormatFloat c) = Some c) as Hparse
        by (intros c; pose proof (@json.ParseFloat_FormatFloat Z_Float64 c) as Hc;
            cbv [json.ParseFloat json.FormatFloat Z_Float64] in Hc; exact Hc);
      assert (forall z k c, shortest_at z k = Some c -> round_binary64 c = z) as Hat
        by (intros z k c; unfold shortest_at; cbv zeta beta;
            destruct (Z.eqb_spec
                        (round_binary64
                           (Z.sgn z * (Z.abs z / 10 ^ Z.of_nat k * 10 ^ Z.of_nat k))) z)
              as [Hdown|_];
            destruct (Z.eqb_spec
                        (round_binary64
                           (Z.sgn z * (Z.abs z / 10 ^ Z.of_nat k * 10 ^ Z.of_nat k
                                       + 10 ^ Z.of_nat k))) z)
              as [Hup|_];
            repeat case_match; intros [= <-]; assumption);
      assert (forall z, round_binary64 z = z -> round_binary64 (shortest z) = z) as Hshort
        by (intros z Hz; unfold shortest;
            destruct (head _) as [c|] eqn:Hhead; [|exact Hz];
            apply head_Some_elem_of in Hhead;
            apply list_elem_of_omap in Hhead as (k & _ & Hk);
            exact (Hat z k c Hk));
      assert (forall z, is_binary64 z = true -> round_binary64 z = z) as Hround
        by (intros z Hz; unfold is_binary64 in Hz;
            apply andb_true_iff in Hz as [Hz _]; by apply Z.eqb_eq);
      assert (forall z (float : is_binary64 z = true),
        to_binary64 z = Some (exist _ z float)) as Hto
        by (intros z float; unfold to_binary64;
            destruct (Bool.bool_dec (is_binary64 z) true) as [float'|Hno];
              [|destruct (Hno float)];
            f_equal; apply (sig_eq_pi _); reflexivity);
      intros [z float]; unfold binary64_ParseFloat, binary64_FormatFloat;
      cbn [proj1_sig];
      rewrite Hparse, String.eqb_refl, (Hshort z (Hround z float));
      apply Hto).
Defined.

(** ** Package [transport] of mcp-golang

    The message types come from the mcp-golang library, which is not part of
    this repository. The records below have the fields the transports use
    ([Jsonrpc], [Params], [JsonRpcRequest]) and the ones the data model of
    the specification lists. How a body decodes into each of them, and how a
    message is marshalled, is taken as a parameter ([Codec]). *)
Module transport.

Record BaseJSONRPCRequest := {
  Request_Id : Z;
  Request_Jsonrpc : string;
  Request_Method : string;
  Request_Params : string   (* json.RawMessage *)
}.

Record BaseJSONRPCNotification := {
  Notification_Jsonrpc : string;
  Notification_Method : string;
  Notification_Params : string   (* json.RawMessage *)
}.

Record BaseJSONRPCResponse := {
  Response_Id : Z;
  Response_Jsonrpc : string;
  Response_Result : string   (* json.RawMessage *)
}.

Record BaseJSONRPCErrorInner := {
  Error_Code : Z;
  Error_Message : string;
  Error_Data : option string   (* the member data as a document, if any *)
}.

Record BaseJSONRPCError := {
  Error_Error : BaseJSONRPCErrorInner;
  Error_Id : Z;
  Error_Jsonrpc : string
}.

Inductive BaseMessageType :=
| BaseMessageTypeJSONRPCRequestType
| BaseMessageTypeJSONRPCNotificationType
| BaseMessageTypeJSONRPCResponseType
| BaseMessageTypeJSONRPCErrorType.

(** The tagged envelope: one pointer per variant, nil for the others. *)
Record BaseJsonRpcMessage := {
  MessageType : BaseMessageType;
  JsonRpcRequest : option BaseJSONRPCRequest;
  JsonRpcNotification : option BaseJSONRPCNotification;
  JsonRpcResponse : option BaseJSONRPCResponse;
  JsonRpcError : option BaseJSONRPCError
}.

Definition NewBaseMessageRequest (r : BaseJSONRPCRequest) : BaseJsonRpcMessage :=
  {| MessageType := BaseMessageTypeJSONRPCRequestType;
     JsonRpcRequest := Some r; JsonRpcNotification := None;
     JsonRpcResponse := None; JsonRpcError := None |}.

Definition NewBaseMessageNotification (n : BaseJSONRPCNotification)
  : BaseJsonRpcMessage :=
  {| MessageType := BaseMessageTypeJSONRPCNotificationType;
     JsonRpcRequest := None; JsonRpcNotification := Some n;
     JsonRpcResponse := None; JsonRpcError := None |}.

Definition NewBaseMessageResponse (r : BaseJSONRPCResponse) : BaseJsonRpcMessage :=
  {| MessageType := BaseMessageTypeJSONRPCResponseType;
     JsonRpcRequest := None; JsonRpcNotification := None;
     JsonRpcResponse := Some r; JsonRpcError := None |}.

Definition NewBaseMessageError (e : BaseJSONRPCError) : BaseJsonRpcMessage :=
  {| MessageType := BaseMessageTypeJSONRPCErrorType;
     JsonRpcRequest := None; JsonRpcNotification := None;
     JsonRpcResponse := None; JsonRpcError := Some e |}.

(** [msg.JsonRpcRequest.Params = params], on a message that is a request. *)
Definition set_Params (msg : BaseJsonRpcMessage) (req : BaseJSONRPCRequest)
    (params : string) : BaseJsonRpcMessage :=
  {| MessageType := MessageType msg;
     JsonRpcRequest :=
       Some {| Request_Id := Request_Id req;
               Request_Jsonrpc := Request_Jsonrpc req;
               Request_Method := Request_Method req;
               Request_Params := params |};
     JsonRpcNotification := JsonRpcNotification msg;
     JsonRpcResponse := JsonRpcResponse msg;
     JsonRpcError := JsonRpcError msg |}.

(** What the library does with [encoding/json]: [json.Unmarshal(body, &x)]
    for [x] of each of the four types ([None] is a non-nil error) and
    [json.Marshal(message)] for a message pointer, nil included. *)
Class Codec := {
  UnmarshalResponse : string -> option BaseJSONRPCResponse;
  UnmarshalError : string -> option BaseJSONRPCError;
  UnmarshalNotification : string -> option BaseJSONRPCNotification;
  UnmarshalRequest : string -> option BaseJSONRPCRequest;
  MarshalMessage : option BaseJsonRpcMessage -> option string
}.

End transport.

(** ** Package [bufio]: a [Scanner] with the default split function *)
Module bufio.

Definition MaxScanTokenSize : nat := 64 * 1024.

(** What a reader delivers: its bytes and then either the end of the
    stream or a read error. A stream that stays open until the context of
    the request is cancelled ends with that error. (A stream that stays
    open for good is the matter of the one transport that lives on such a
    stream, see [TraditionalSSETransport.Scan].) *)
Record Reader := {
  content : string;
  failure : option string
}.

Inductive ScanError :=
| ErrTooLong
| ReadError (cause : string).

(** The lines of a text: cut after each newline, a last line without
    newline included, the newline itself left out. *)
Fixpoint raw_lines (s : string) : list string :=
  match s with
  | EmptyString => []
  | String c s' =>
      if Ascii.eqb c "010" then EmptyString :: raw_lines s'
      else match raw_lines s' with
           | [] => [String c EmptyString]
           | l :: ls => String c l :: ls
           end
  end.

(** [dropCR]: one trailing carriage return is not part of the line. *)
Fixpoint dropCR (s : string) : string :=
  match s with
  | EmptyString => EmptyString
  | String c EmptyString => if Ascii.eqb c "013" then EmptyString else s
  | String c s' => String c (dropCR s')
  end.

(** The tokens [Scan] delivers before it returns false, and [Err()] after
    that. A line that does not fit the buffer stops the scanner. *)
Fixpoint tokens (ls : list string) (at_end : option ScanError)
  : list string * option ScanError :=
  match ls with
  | [] => ([], at_end)
  | l :: ls' =>
      if (String.length l <? MaxScanTokenSize)%nat
      then let '(ts, e) := tokens ls' at_end in (dropCR l :: ts, e)
      else ([], Some ErrTooLong)
  end.

Definition ScanLines (r : Reader) : list string * option ScanError :=
  tokens (raw_lines (content r)) (ReadError <$> failure r).

(** The same text when more may follow: the lines that have their newline,
    and what follows the last newline. *)
Fixpoint whole_lines (s : string) : list string * string :=
  match s with
  | EmptyString => ([], EmptyString)
  | String c s' =>
      let '(ls, rest) := whole_lines s' in
      if Ascii.eqb c "010" then (EmptyString :: ls, rest)
      else match ls with
           | [] => ([], String c rest)
           | l :: ls' => (String c l :: ls', rest)
           end
  end.

(** The scanner on a stream that stays open after the bytes of [r], with
    nothing more to come: the tokens [Scan] has delivered, and the error
    it has stopped with, if it has. It stops at a line that does not fit
    the buffer, whether the line is whole or not; otherwise it waits for
    more in [Read] ([None]), and the bytes after the last newline are no
    token yet. *)
Definition ScanOpen (r : Reader) : list string * option ScanError :=
  let '(ls, rest) := whole_lines (content r) in
  let '(ts, e) := tokens ls None in
  match e with
  | Some err => (ts, Some err)
  | None =>
      if (String.length rest <? MaxScanTokenSize)%nat then (ts, None)
      else (ts, Some ErrTooLong)
  end.

(** [io.ReadAll]. *)
Definition ReadAll (r : Reader) : string * option string :=
  (content r, failure r).

End bufio.

(** ** Package [net/http] *)
Module http.

(** A header: canonical field name to value. [Set] keeps one value per
    name and [Get] reads the first, so one value per name is all the
    transports see. *)
Definition lower (c : ascii) : bool :=
  let n := nat_of_ascii c in (97 <=? n)%nat && (n <=? 122)%nat.
Definition upper (c : ascii) : bool :=
  let n := nat_of_ascii c in (65 <=? n)%nat && (n <=? 90)%nat.

Definition validHeaderFieldByte (c : ascii) : bool :=
  lower c || upper c
  || (let n := nat_of_ascii c in (48 <=? n)%nat && (n <=? 57)%nat)
  || existsb (Ascii.eqb c)
       ["!"; "#"; "$"; "%"; "&"; "'"; "*"; "+"; "-"; "."; "^"; "_"; "`"; "|"; "~"]%char.

Fixpoint all_valid (s : string) : bool :=
  match s with
  | EmptyString => true
  | String c s' => validHeaderFieldByte c && all_valid s'
  end.

Fixpoint canonical (up : bool) (s : string) : string :=
  match s with
  | EmptyString => EmptyString
  | String c s' =>
      let c' :=
        if up && lower c then ascii_of_nat (nat_of_ascii c - 32)
        else if negb up && upper c then ascii_of_nat (nat_of_ascii c + 32)
        else c in
      String c' (canonical (Ascii.eqb c' "-") s')
  end.

(** [textproto.CanonicalMIMEHeaderKey]: upper case for the first letter and
    for a letter after a dash, lower case for the others; a name with a byte
    that no field name can have is left as it is. *)
Definition CanonicalHeaderKey (s : string) : string :=
  if all_valid s then canonical true s else s.

Definition Header_Set (h : gmap string string) (key value : string)
  : gmap string string :=
  <[CanonicalHeaderKey key := value]> h.

(** [Header.Get]: the empty string for a name that is not there. *)
Definition Header_Get (h : gmap string string) (key : string) : string :=
  default EmptyString (h !! CanonicalHeaderKey key).

Record Request := {
  Method : string;
  URL : string;
  Header : gmap string string;
  Body : string
}.

Record Response := {
  StatusCode : nat;
  Response_Header : gmap string string;
  Response_Body : bufio.Reader
}.

Definition StatusOK : nat := 200.
Definition StatusAccepted : nat := 202.

(** The world outside: which URLs [http.NewRequestWithContext] accepts, and
    what [client.Do] answers to a request: a response, or an error ([inl]).
    A cancelled context shows as such an error. *)
Record Network := {
  parses : string -> bool;
  Do : Request -> string + Response
}.

End http.

(** ** Errors and effects *)

(** The errors the transports return, one constructor per message. *)
Inductive error :=
| failed_to_marshal_message
| failed_to_create_request
| failed_to_send_request (cause : string)
| server_returned_error (body : string) (status : nat)
| failed_to_read_response (cause : string)
| received_invalid_response (body : string)
| scanner_error (cause : bufio.ScanError)
| transport_not_started_or_endpoint_not_received
| failed_to_create_SSE_request
| failed_to_connect_to_SSE_endpoint (cause : string)
| SSE_connection_failed (body : string) (status : nat)
| unexpected_content_type (contentType : string)
| failed_to_get_endpoint (cause : bufio.ScanError)
| context_error (cause : string).

(** A Go function value registered as a handler is known by a name; calling
    it is an effect. *)
Definition callback := nat.

Inductive Effect :=
| client_Do (req : http.Request)
| call_messageHandler (handler : callback) (msg : transport.BaseJsonRpcMessage)
| call_closeHandler (handler : callback)
| Body_Close.

(** The messages handed to the message handler, in order. *)
Definition dispatched (effects : list Effect) : list transport.BaseJsonRpcMessage :=
  omap (fun e => match e with call_messageHandler _ msg => Some msg | _ => None end)
    effects.

(** The requests issued, in order. *)
Definition requests (effects : list Effect) : list http.Request :=
  omap (fun e => match e with client_Do req => Some req | _ => None end) effects.

(** [m[key] = value] on a Go map whose entries are kept as a list without
    repeated keys. The order of the list is the order in which the runtime
    happens to range over the map; nothing below depends on which it is. *)
Fixpoint assign (m : list (string * string)) (key value : string)
  : list (string * string) :=
  match m with
  | [] => [(key, value)]
  | (k, v) :: m' =>
      if String.eqb k key then (key, value) :: m' else (k, v) :: assign m' key value
  end.

(** [for key, value := range headers { h.Set(key, value) }]. *)
Definition set_headers (h : gmap string string) (headers : list (string * string))
  : gmap string string :=
  fold_left (fun h kv => http.Header_Set h kv.1 kv.2) headers h.

(** [err == nil && x.Jsonrpc != ""] after [err := json.Unmarshal(body, &x)]. *)
Definition accepted {A : Type} (decoded : option A) (jsonrpc : A -> string)
  : option A :=
  match decoded with
  | Some x => if String.eqb (jsonrpc x) EmptyString then None else Some x
  | None => None
  end.

Definition newline : string := String "010"%char EmptyString.

(** [v != nil] for an [interface{}] out of a document. *)
Definition not_nil `{json.Float64} (v : json.value) : bool :=
  match v with
  | json.VNull => false
  | _ => true
  end.

(** The loop that all three [cleanMessage] share:
    [for k, v := range params { if v != nil { cleaned[k] = v } }],
    starting from an empty [cleaned]. The keys are visited in ascending
    order here; Go leaves the order of [range] open, and the result is the
    same for every order ([normalizer.remove_nulls_any_order]). *)
Definition remove_nulls `{json.Float64} (params : list (string * json.value))
  : list (string * json.value) :=
  fold_left
    (fun cleaned kv => if not_nil kv.2 then json.put kv.1 kv.2 cleaned else cleaned)
    params [].

(** ** [CleaningStdioTransport] (stdio) *)
Module CleaningStdioTransport.
Section WithLibraries.
Context `{json.Float64}.

(** The wrapped transport: what its [Send] does with a message. *)
Record state := {
  inner_Send : option transport.BaseJsonRpcMessage -> option error * list Effect
}.

(** [cleanMessage] removes null values from request params. The message is
    changed in place and returned: the result is also what the caller's
    pointer refers to afterwards. *)
Definition cleanMessage (msg : option transport.BaseJsonRpcMessage)
  : option transport.BaseJsonRpcMessage :=
  match msg with
  | None => msg
  | Some m =>
      match transport.JsonRpcRequest m with
      | None => msg
      | Some req =>
          if (String.length (transport.Request_Params req) =? 0)%nat then msg
          else
            (* Parse params, remove nulls, re-marshal *)
            match json.Unmarshal_map (transport.Request_Params req) with
            | None => msg
            | Some params =>
                let cleaned := remove_nulls params in
                (* If empty after cleaning, set params to empty object *)
                if (List.length cleaned =? 0)%nat
                then Some (transport.set_Params m req "{}")
                else
                  match json.Marshal_map cleaned with
                  | None => msg
                  | Some newParams => Some (transport.set_Params m req newParams)
                  end
            end
      end
  end.

Definition Send (t : state) (message : option transport.BaseJsonRpcMessage)
  : option error * list Effect :=
  let message := cleanMessage message in
  inner_Send t message.

End WithLibraries.
End CleaningStdioTransport.

(** ** [SSEClientTransport] (streamable HTTP) *)
Module SSEClientTransport.
Section WithLibraries.
Context `{json.Float64} `{transport.Codec}.

Record state := {
  baseURL : string;
  messageHandler : option callback;
  errorHandler : option callback;
  closeHandler : option callback;
  headers : list (string * string);
  sessionID : string   (* MCP session ID from server *)
}.

Definition NewSSEClientTransport (baseURL : string) : state :=
  {| baseURL := baseURL; messageHandler := None; errorHandler := None;
     closeHandler := None; headers := []; sessionID := EmptyString |}.

Definition WithHeader (t : state) (key value : string) : state :=
  {| baseURL := baseURL t; messageHandler := messageHandler t;
     errorHandler := errorHandler t; closeHandler := closeHandler t;
     headers := assign (headers t) key value; sessionID := sessionID t |}.

Definition SetMessageHandler (t : state) (handler : option callback) : state :=
  {| baseURL := baseURL t; messageHandler := handler;
     errorHandler := errorHandler t; closeHandler := closeHandler t;
     headers := headers t; sessionID := sessionID t |}.

Definition SetErrorHandler (t : state) (handler : option callback) : state :=
  {| baseURL := baseURL t; messageHandler := messageHandler t;
     errorHandler := handler; closeHandler := closeHandler t;
     headers := headers t; sessionID := sessionID t |}.

Definition SetCloseHandler (t : state) (handler : option callback) : state :=
  {| baseURL := baseURL t; messageHandler := messageHandler t;
     errorHandler := errorHandler t; closeHandler := handler;
     headers := headers t; sessionID := sessionID t |}.

(** [t.sessionID = sid]. *)
Definition set_sessionID (t : state) (sid : string) : state :=
  {| baseURL := baseURL t; messageHandler := messageHandler t;
     errorHandler := errorHandler t; closeHandler := closeHandler t;
     headers := headers t; sessionID := sid |}.

Definition Start (t : state) : option error := None.

Definition handleJSONResponse (t : state) (body : string) : option error * list Effect :=
  match messageHandler t with
  | None => (None, [])
  | Some handler =>
      (* Try to unmarshal as response *)
      match accepted (transport.UnmarshalResponse body) transport.Response_Jsonrpc with
      | Some response =>
          (None, [call_messageHandler handler (transport.NewBaseMessageResponse response)])
      | None =>
      (* Try as error *)
      match accepted (transport.UnmarshalError body) transport.Error_Jsonrpc with
      | Some errorResponse =>
          (None, [call_messageHandler handler (transport.NewBaseMessageError errorResponse)])
      | None =>
      (* Try as notification *)
      match accepted (transport.UnmarshalNotification body) transport.Notification_Jsonrpc with
      | Some notification =>
          (None, [call_messageHandler handler
                    (transport.NewBaseMessageNotification notification)])
      | None =>
      (* Try as request *)
      match accepted (transport.UnmarshalRequest body) transport.Request_Jsonrpc with
      | Some request =>
          (None, [call_messageHandler handler (transport.NewBaseMessageRequest request)])
      | None => (Some (received_invalid_response body), [])
      end end end end
  end.

(** The loop of [parseSSEResponse] over the lines the scanner delivers:
    [inl] is an early return with an error, [inr] the data lines that are
    left when the scanner stops. *)
Fixpoint parseSSEResponse_loop (t : state) (lines : list string) (dataLines : list string)
  : (error + list string) * list Effect :=
  match lines with
  | [] => (inr dataLines, [])
  | line :: lines' =>
      if strings.HasPrefix line "data: " then
        parseSSEResponse_loop t lines'
          (dataLines ++ [strings.TrimPrefix line "data: "])
      else if String.eqb line EmptyString && (0 <? List.length dataLines)%nat then
        (* End of event, process accumulated data *)
        let data := strings.Join dataLines newline in
        match handleJSONResponse t data with
        | (Some err, eff) => (inl err, eff)
        | (None, eff) =>
            let '(r, eff') := parseSSEResponse_loop t lines' [] in (r, eff ++ eff')
        end
      else parseSSEResponse_loop t lines' dataLines
  end.

(** What [parseSSEResponse] does once its loop is over. *)
Definition parseSSEResponse_end (t : state) (scanner_Err : option bufio.ScanError)
    (r : (error + list string) * list Effect) : option error * list Effect :=
  match r with
  | (inl err, eff) => (Some err, eff)
  | (inr dataLines, eff) =>
      (* Handle any remaining data *)
      if (0 <? List.length dataLines)%nat then
        let '(err, eff') :=
          handleJSONResponse t (strings.Join dataLines newline) in
        (err, eff ++ eff')
      else (scanner_error <$> scanner_Err, eff)
  end.

Definition parseSSEResponse (t : state) (reader : bufio.Reader)
  : option error * list Effect :=
  let '(lines, scanner_Err) := bufio.ScanLines reader in
  parseSSEResponse_end t scanner_Err (parseSSEResponse_loop t lines []).

(** [cleanMessage] removes null values from request params. *)
Definition cleanMessage (msg : option transport.BaseJsonRpcMessage)
  : option transport.BaseJsonRpcMessage :=
  match msg with
  | None => msg
  | Some m =>
      match transport.JsonRpcRequest m with
      | None => msg
      | Some req =>
          if (String.length (transport.Request_Params req) =? 0)%nat then msg
          else
            (* Parse params, remove nulls, re-marshal *)
            match json.Unmarshal_map (transport.Request_Params req) with
            | None => msg
            | Some params =>
                let cleaned := remove_nulls params in
                match json.Marshal_map cleaned with
                | None => msg
                | Some newParams => Some (transport.set_Params m req newParams)
                end
            end
      end
  end.

(** The request [Send] builds for the body [jsonData]. *)
Definition request (t : state) (jsonData : string) : http.Request :=
  let h := http.Header_Set ∅ "Content-Type" "application/json" in
  let h := http.Header_Set h "Accept" "application/json, text/event-stream" in
  let h := set_headers h (headers t) in
  (* Add session ID if we have one *)
  let h := if String.eqb (sessionID t) EmptyString then h
           else http.Header_Set h "Mcp-Session-Id" (sessionID t) in
  {| http.Method := "POST"; http.URL := baseURL t; http.Header := h;
     http.Body := jsonData |}.

(** [Send]: the transport afterwards, the error returned and the effects. *)
Definition Send (t : state) (message : option transport.BaseJsonRpcMessage)
    (net : http.Network) : state * option error * list Effect :=
  (* Clean up null values from params *)
  let message := cleanMessage message in
  match transport.MarshalMessage message with
  | None => (t, Some failed_to_marshal_message, [])
  | Some jsonData =>
      if negb (http.parses net (baseURL t))
      then (t, Some failed_to_create_request, [])
      else
        let req := request t jsonData in
        match http.Do net req with
        | inl cause => (t, Some (failed_to_send_request cause), [client_Do req])
        | inr resp =>
            (* Capture session ID from response *)
            let sid := http.Header_Get (http.Response_Header resp) "Mcp-Session-Id" in
            let t := if String.eqb sid EmptyString then t else set_sessionID t sid in
            if negb (http.StatusCode resp =? http.StatusOK)%nat then
              let '(body, _) := bufio.ReadAll (http.Response_Body resp) in
              (t, Some (server_returned_error body (http.StatusCode resp)),
               [client_Do req; Body_Close])
            else
              (* Check if response is SSE *)
              let contentType := http.Header_Get (http.Response_Header resp) "Content-Type" in
              if strings.Contains contentType "text/event-stream" then
                let '(err, eff) := parseSSEResponse t (http.Response_Body resp) in
                (t, err, client_Do req :: eff ++ [Body_Close])
              else
                (* Regular JSON response *)
                match bufio.ReadAll (http.Response_Body resp) with
                | (_, Some cause) =>
                    (t, Some (failed_to_read_response cause), [client_Do req; Body_Close])
                | (body, None) =>
                    if (0 <? String.length body)%nat then
                      let '(err, eff) := handleJSONResponse t body in
                      (t, err, client_Do req :: eff ++ [Body_Close])
                    else (t, None, [client_Do req; Body_Close])
                end
        end
  end.

Definition Close (t : state) : option error * list Effect :=
  match closeHandler t with
  | Some handler => (None, [call_closeHandler handler])
  | None => (None, [])
  end.

End WithLibraries.
End SSEClientTransport.

(** ** [TraditionalSSETransport] (GET stream, POST endpoint) *)
Module TraditionalSSETransport.

(** What a call of [Start] meets: its context, and what goes on around the
    goroutine it starts.
    - [ctx_Err]: the error [ctx.Err()] reports once the context is done, if
      it ever is.
    - [ctx_Done_first]: whether the [select] of [Start] takes [ctx.Done()]
      when something else is ready as well.
    - [stream_open]: whether the stream stays open, with nothing more to
      come, after the bytes of the body: the server has nothing more to say
      and does not end the stream, and nobody closes the body. As long as
      the context lives the reader then waits in [scanner.Scan]. The context
      is that of the request as well: when it ends, the read of the body
      fails, with the [failure] of the body if it names one and with the
      error of the context otherwise.
    - [SetMessageHandler_calls n]: the handler that [SetMessageHandler],
      called from another goroutine, has put in place since the reader
      looked at [t.messageHandler] the last time, when it looks for the
      message number [n] of the stream (from 0); [None] if there was no such
      call. The reader looks once for each message, in [handleMessage]. Such
      a call is a call of its own, on the transport as its caller holds it;
      here it counts for what the reader finds.
    - [SetCloseHandler_call]: the same for [SetCloseHandler] and the one
      look of the reader at [t.closeHandler], when it is through. *)
Record Context := {
  ctx_Err : option string;
  ctx_Done_first : bool;
  stream_open : bool;
  SetMessageHandler_calls : nat -> option (option callback);
  SetCloseHandler_call : option (option callback)
}.

(** What the scanner of the reader has come to: [Scan] has returned false,
    with [Err()] as given, or it waits for more of the stream and never
    gets it. *)
Inductive scanned :=
| Ended (err : option bufio.ScanError)
| Waiting.

(** The scanner of the reader on the body of the stream: the lines it
    delivers, and what it comes to. *)
Definition Scan (ctx : Context) (body : bufio.Reader) : list string * scanned :=
  match stream_open ctx, ctx_Err ctx with
  | true, None =>
      let '(lines, err) := bufio.ScanOpen body in
      (lines, match err with Some err => Ended (Some err) | None => Waiting end)
  | true, Some cause =>
      let '(lines, err) :=
        bufio.ScanLines
          {| bufio.content := bufio.content body;
             bufio.failure := Some (default cause (bufio.failure body)) |} in
      (lines, Ended err)
  | false, _ =>
      let '(lines, err) := bufio.ScanLines body in
      (lines, Ended err)
  end.

(** A call either returns or waits for ever. *)
Inductive returns :=
| Returns (err : option error)
| Blocks.

Section WithLibraries.
Context `{json.Float64} `{transport.Codec}.

Record state := {
  sseURL : string;
  postEndpoint : string;
  messageHandler : option callback;
  errorHandler : option callback;
  closeHandler : option callback;
  headers : list (string * string);
  sseResp : option http.Response;
  started : bool
}.

Definition NewTraditionalSSETransport (sseURL : string) : state :=
  {| sseURL := sseURL; postEndpoint := EmptyString; messageHandler := None;
     errorHandler := None; closeHandler := None; headers := [];
     sseResp := None; started := false |}.

Definition WithHeader (t : state) (key value : string) : state :=
  {| sseURL := sseURL t; postEndpoint := postEndpoint t;
     messageHandler := messageHandler t; errorHandler := errorHandler t;
     closeHandler := closeHandler t; headers := assign (headers t) key value;
     sseResp := sseResp t; started := started t |}.

Definition SetMessageHandler (t : state) (handler : option callback) : state :=
  {| sseURL := sseURL t; postEndpoint := postEndpoint t;
     messageHandler := handler; errorHandler := errorHandler t;
     closeHandler := closeHandler t; headers := headers t;
     sseResp := sseResp t; started := started t |}.

Definition SetErrorHandler (t : state) (handler : option callback) : state :=
  {| sseURL := sseURL t; postEndpoint := postEndpoint t;
     messageHandler := messageHandler t; errorHandler := handler;
     closeHandler := closeHandler t; headers := headers t;
     sseResp := sseResp t; started := started t |}.

Definition SetCloseHandler (t : state) (handler : option callback) : state :=
  {| sseURL := sseURL t; postEndpoint := postEndpoint t;
     messageHandler := messageHandler t; errorHandler := errorHandler t;
     closeHandler := handler; headers := headers t;
     sseResp := sseResp t; started := started t |}.

(** [t.sseResp = resp; t.started = true]. *)
Definition set_started (t : state) (resp : http.Response) : state :=
  {| sseURL := sseURL t; postEndpoint := postEndpoint t;
     messageHandler := messageHandler t; errorHandler := errorHandler t;
     closeHandler := closeHandler t; headers := headers t;
     sseResp := Some resp; started := true |}.

(** [t.postEndpoint = endpoint]. *)
Definition set_postEndpoint (t : state) (endpoint : string) : state :=
  {| sseURL := sseURL t; postEndpoint := endpoint;
     messageHandler := messageHandler t; errorHandler := errorHandler t;
     closeHandler := closeHandler t; headers := headers t;
     sseResp := sseResp t; started := started t |}.

(** [resolveEndpoint] converts relative endpoint to absolute URL. *)
Definition resolveEndpoint (t : state) (endpoint : string) : string :=
  if strings.HasPrefix endpoint "http://" || strings.HasPrefix endpoint "https://"
  then endpoint
  else
    (* Extract base URL from sseURL *)
    let base := sseURL t in
    let base :=
      match strings.LastIndex base "/" with
      | Some idx =>
          if (8 <? idx)%nat   (* after "http://" or "https://" *)
          then String.substring 0 idx base
          else base
      | None => base
      end in
    if strings.HasPrefix endpoint "/" then base +:+ endpoint
    else base +:+ "/" +:+ endpoint.

(** [handleMessage] processes a JSON-RPC message from SSE. *)
Definition handleMessage (t : state) (data : string) : list Effect :=
  match messageHandler t with
  | None => []
  | Some handler =>
      (* Try as response *)
      match accepted (transport.UnmarshalResponse data) transport.Response_Jsonrpc with
      | Some response =>
          [call_messageHandler handler (transport.NewBaseMessageResponse response)]
      | None =>
      (* Try as error *)
      match accepted (transport.UnmarshalError data) transport.Error_Jsonrpc with
      | Some errorResponse =>
          [call_messageHandler handler (transport.NewBaseMessageError errorResponse)]
      | None =>
      (* Try as notification *)
      match accepted (transport.UnmarshalNotification data) transport.Notification_Jsonrpc with
      | Some notification =>
          [call_messageHandler handler (transport.NewBaseMessageNotification notification)]
      | None =>
      (* Try as request *)
      match accepted (transport.UnmarshalRequest data) transport.Request_Jsonrpc with
      | Some request =>
          [call_messageHandler handler (transport.NewBaseMessageRequest request)]
      | None => []
      end end end end
  end.

(** [t.messageHandler] as the reader finds it when it looks for the message
    number [n]: what the other goroutines have set meanwhile, or what was
    there. *)
Definition found (ctx : Context) (t : state) (n : nat) : state :=
  match SetMessageHandler_calls ctx n with
  | Some handler => SetMessageHandler t handler
  | None => t
  end.

(** The loop of [readSSEEvents] over the lines the scanner delivers: what
    was sent on [endpointCh], if anything, and the effects. [n] counts the
    calls of [handleMessage] so far, and [t] is the transport as the reader
    has found it last. *)
Fixpoint readSSEEvents_loop (ctx : Context) (t : state) (n : nat) (lines : list string)
    (eventType : string) (dataLines : list string) (endpointSent : option string)
  : option string * list Effect :=
  match lines with
  | [] => (endpointSent, [])
  | line :: lines' =>
      if strings.HasPrefix line "event:" then
        readSSEEvents_loop ctx t n lines'
          (strings.TrimSpace (strings.TrimPrefix line "event:")) dataLines endpointSent
      else if strings.HasPrefix line "data:" then
        readSSEEvents_loop ctx t n lines' eventType
          (dataLines ++ [strings.TrimSpace (strings.TrimPrefix line "data:")])
          endpointSent
      else if String.eqb line EmptyString && (0 <? List.length dataLines)%nat then
        (* End of event *)
        let data := strings.Join dataLines newline in
        if String.eqb eventType "endpoint" && negb (bool_decide (is_Some endpointSent))
        then readSSEEvents_loop ctx t n lines' EmptyString [] (Some data)
        else if String.eqb eventType "message" || String.eqb eventType EmptyString
        then
          let t := found ctx t n in
          let eff := handleMessage t data in
          let '(sent, eff') :=
            readSSEEvents_loop ctx t (S n) lines' EmptyString [] endpointSent in
          (sent, eff ++ eff')
        else readSSEEvents_loop ctx t n lines' EmptyString [] endpointSent
      else readSSEEvents_loop ctx t n lines' eventType dataLines endpointSent
  end.

(** [readSSEEvents], the goroutine that reads the stream: what it sends on
    [endpointCh] and on [errCh], and its effects. The handlers are read from
    the transport when they are needed: the message handler at each
    message, the close handler after the loop. A reader that waits for more
    of the stream does not come to what follows the loop. *)
Definition readSSEEvents (t : state) (ctx : Context) (reader : bufio.Reader)
  : option string * option bufio.ScanError * list Effect :=
  let '(lines, scanner) := Scan ctx reader in
  let '(endpointSent, eff) := readSSEEvents_loop ctx t 0 lines EmptyString [] None in
  match scanner with
  | Waiting => (endpointSent, None, eff)
  | Ended scanner_Err =>
      let errSent :=
        match scanner_Err, endpointSent with
        | Some err, None => Some err
        | _, _ => None
        end in
      let closing :=
        match default (closeHandler t) (SetCloseHandler_call ctx) with
        | Some handler => [call_closeHandler handler]
        | None => []
        end in
      (endpointSent, errSent, eff ++ closing)
  end.

(** The calls of [handleMessage] for the data of as many messages, the
    first of them the message number [n] of the stream, each with the
    handler the reader finds when it looks. *)
Fixpoint handleMessages (ctx : Context) (t : state) (n : nat) (payloads : list string)
  : list Effect :=
  match payloads with
  | [] => []
  | data :: payloads' =>
      let t := found ctx t n in
      handleMessage t data ++ handleMessages ctx t (S n) payloads'
  end.

(** The transport as the reader has found it after [k] more looks. *)
Fixpoint found_after (ctx : Context) (t : state) (n k : nat) : state :=
  match k with
  | 0 => t
  | S k' => found_after ctx (found ctx t n) (S n) k'
  end.

(** The GET request of [Start]. *)
Definition get_request (t : state) : http.Request :=
  let h := http.Header_Set ∅ "Accept" "text/event-stream" in
  let h := http.Header_Set h "Cache-Control" "no-cache" in
  let h := set_headers h (headers t) in
  {| http.Method := "GET"; http.URL := sseURL t; http.Header := h;
     http.Body := EmptyString |}.

(** [Start] establishes the SSE connection and waits for the endpoint event.
    The result is the transport afterwards, what the call returns, its own
    effects, and the effects of the goroutine it leaves behind. The [select]
    takes what the reader sends, whenever that is, or the end of the
    context; with neither, [Start] stays in it. *)
Definition Start (t : state) (ctx : Context) (net : http.Network)
  : state * returns * list Effect * list Effect :=
  if started t then (t, Returns None, [], [])   (* Already started, idempotent *)
  else if negb (http.parses net (sseURL t))
  then (t, Returns (Some failed_to_create_SSE_request), [], [])
  else
    let req := get_request t in
    match http.Do net req with
    | inl cause =>
        (t, Returns (Some (failed_to_connect_to_SSE_endpoint cause)), [client_Do req], [])
    | inr resp =>
        if negb (http.StatusCode resp =? http.StatusOK)%nat then
          let '(body, _) := bufio.ReadAll (http.Response_Body resp) in
          (t, Returns (Some (SSE_connection_failed body (http.StatusCode resp))),
           [client_Do req; Body_Close], [])
        else
          let contentType := http.Header_Get (http.Response_Header resp) "Content-Type" in
          if negb (strings.Contains contentType "text/event-stream") then
            (t, Returns (Some (unexpected_content_type contentType)),
             [client_Do req; Body_Close], [])
          else
            let t := set_started t resp in
            (* Wait for endpoint event *)
            let '(endpointCh, errCh, background) :=
              readSSEEvents t ctx (http.Response_Body resp) in
            match ctx_Err ctx, ctx_Done_first ctx with
            | Some cause, true =>
                (t, Returns (Some (context_error cause)), [client_Do req], background)
            | _, _ =>
                match endpointCh, errCh, ctx_Err ctx with
                | Some endpoint, _, _ =>
                    (set_postEndpoint t (resolveEndpoint t endpoint), Returns None,
                     [client_Do req], background)
                | None, Some err, _ =>
                    (t, Returns (Some (failed_to_get_endpoint err)),
                     [client_Do req], background)
                | None, None, Some cause =>
                    (t, Returns (Some (context_error cause)), [client_Do req], background)
                | None, None, None => (t, Blocks, [client_Do req], background)
                end
            end
    end.

(** Further calls of [Start], one after the other: the transport in the
    end and what each call did. *)
Fixpoint Start_again (t : state) (calls : list (Context * http.Network))
  : state * list (returns * list Effect * list Effect) :=
  match calls with
  | [] => (t, [])
  | (ctx, net) :: calls' =>
      let '(t1, r, eff, background) := Start t ctx net in
      let '(t2, rs) := Start_again t1 calls' in
      (t2, (r, eff, background) :: rs)
  end.

(** [cleanMessage] removes null values from request params. *)
Definition cleanMessage (msg : option transport.BaseJsonRpcMessage)
  : option transport.BaseJsonRpcMessage :=
  match msg with
  | None => msg
  | Some m =>
      match transport.JsonRpcRequest m with
      | None => msg
      | Some req =>
          if (String.length (transport.Request_Params req) =? 0)%nat then msg
          else
            (* Parse params, remove nulls, re-marshal *)
            match json.Unmarshal_map (transport.Request_Params req) with
            | None => msg
            | Some params =>
                let cleaned := remove_nulls params in
                (* If empty after cleaning, set params to empty object *)
                if (List.length cleaned =? 0)%nat
                then Some (transport.set_Params m req "{}")
                else
                  match json.Marshal_map cleaned with
                  | None => msg
                  | Some newParams => Some (transport.set_Params m req newParams)
                  end
            end
      end
  end.

(** The POST request of [Send]. *)
Definition post_request (t : state) (endpoint jsonData : string) : http.Request :=
  let h := http.Header_Set ∅ "Content-Type" "application/json" in
  let h := set_headers h (headers t) in
  {| http.Method := "POST"; http.URL := endpoint; http.Header := h;
     http.Body := jsonData |}.

(** [Send] sends a JSON-RPC message via POST to the endpoint. *)
Definition Send (t : state) (message : option transport.BaseJsonRpcMessage)
    (net : http.Network) : option error * list Effect :=
  let endpoint := postEndpoint t in
  if String.eqb endpoint EmptyString
  then (Some transport_not_started_or_endpoint_not_received, [])
  else
    (* Clean up null values from params *)
    let message := cleanMessage message in
    match transport.MarshalMessage message with
    | None => (Some failed_to_marshal_message, [])
    | Some jsonData =>
        if negb (http.parses net endpoint) then (Some failed_to_create_request, [])
        else
          let req := post_request t endpoint jsonData in
          match http.Do net req with
          | inl cause => (Some (failed_to_send_request cause), [client_Do req])
          | inr resp =>
              if negb (http.StatusCode resp =? http.StatusOK)%nat
                 && negb (http.StatusCode resp =? http.StatusAccepted)%nat
              then
                let '(body, _) := bufio.ReadAll (http.Response_Body resp) in
                (Some (server_returned_error body (http.StatusCode resp)),
                 [client_Do req; Body_Close])
              else (None, [client_Do req; Body_Close])
          end
    end.

(** [Close] closes the SSE connection. *)
Definition Close (t : state) : state * option error * list Effect :=
  let closing :=
    match closeHandler t with
    | Some handler => [call_closeHandler handler]
    | None => []
    end in
  match sseResp t with
  | Some _ =>
      ({| sseURL := sseURL t; postEndpoint := postEndpoint t;
          messageHandler := messageHandler t; errorHandler := errorHandler t;
          closeHandler := closeHandler t; headers := headers t;
          sseResp := None; started := started t |},
       None, Body_Close :: closing)
  | None => (t, None, closing)
  end.

End WithLibraries.
End TraditionalSSETransport.

(** ** The library side, from the specification *)
Module library.
Import transport.

(** The member [k] of an object, the last one if there are several. *)
Definition member (k : string) (ms : list (string * json.tree)) : option json.tree :=
  fold_left (fun found kv => if String.eqb kv.1 k then Some kv.2 else found) ms None.

Definition as_string (t : json.tree) : option string :=
  match t with
  | json.TString s => Some s
  | _ => None
  end.

(** An integer literal that fits 64 bits. *)
Definition as_int64 (t : json.tree) : option Z :=
  match t with
  | json.TNumber lit =>
      match NilZero.int_of_string lit with
      | Some d =>
          let z := Z.of_int d in
          if ((- 2 ^ 63 <=? z) && (z <? 2 ^ 63))%Z then Some z else None
      | None => None
      end
  | _ => None
  end.

(** The text of a member, as a [json.RawMessage] keeps it. *)
Definition raw (t : json.tree) : string := string_of_list_ascii (json.print t).

(** A string member that may be missing: a missing one leaves the field of
    the Go struct empty. *)
Definition optional_string (k : string) (ms : list (string * json.tree))
  : option string :=
  match member k ms with
  | None => Some EmptyString
  | Some t => as_string t
  end.

Definition optional_int64 (k : string) (ms : list (string * json.tree)) : option Z :=
  match member k ms with
  | None => Some 0%Z
  | Some t => as_int64 t
  end.

Definition optional_raw (k : string) (ms : list (string * json.tree)) : string :=
  match member k ms with
  | None => EmptyString
  | Some t => raw t
  end.

Definition object (body : string) : option (list (string * json.tree)) :=
  match json.parse body with
  | Some (json.TObject ms) => Some ms
  | _ => None
  end.

(** Modelled from the spec: the decoders of the four message types of
    mcp-golang, which are not in this repository. The data model of the
    specification tells the variants apart by the members that are there:
    id and result for a response, id and error for an error, method and no id
    for a notification, id and method (with or without params) for a
    request. The version marker is read into [Jsonrpc] when it is there; that
    it is not empty is checked by the transports, not here. *)
Definition decodeResponse (body : string) : option BaseJSONRPCResponse :=
  ms ← object body;
  id ← member "id" ms ≫= as_int64;
  result ← member "result" ms;
  jsonrpc ← optional_string "jsonrpc" ms;
  Some {| Response_Id := id; Response_Jsonrpc := jsonrpc; Response_Result := raw result |}.

Definition decodeError (body : string) : option BaseJSONRPCError :=
  ms ← object body;
  id ← member "id" ms ≫= as_int64;
  e ← member "error" ms;
  match e with
  | json.TObject inner =>
      code ← optional_int64 "code" inner;
      message ← optional_string "message" inner;
      jsonrpc ← optional_string "jsonrpc" ms;
      Some {| Error_Error := {| Error_Code := code; Error_Message := message;
                                Error_Data := raw <$> member "data" inner |};
              Error_Id := id; Error_Jsonrpc := jsonrpc |}
  | _ => None
  end.

Definition decodeNotification (body : string) : option BaseJSONRPCNotification :=
  ms ← object body;
  method ← member "method" ms ≫= as_string;
  match member "id" ms with
  | Some _ => None
  | None =>
      jsonrpc ← optional_string "jsonrpc" ms;
      Some {| Notification_Jsonrpc := jsonrpc; Notification_Method := method;
              Notification_Params := optional_raw "params" ms |}
  end.

Definition decodeRequest (body : string) : option BaseJSONRPCRequest :=
  ms ← object body;
  id ← member "id" ms ≫= as_int64;
  method ← member "method" ms ≫= as_string;
  jsonrpc ← optional_string "jsonrpc" ms;
  Some {| Request_Id := id; Request_Jsonrpc := jsonrpc; Request_Method := method;
          Request_Params := optional_raw "params" ms |}.

Definition int64_literal (z : Z) : json.tree :=
  json.TNumber (NilZero.string_of_int (Z.to_int z)).

(** A [json.RawMessage] as a member: left out when empty, and it has to be
    a document. *)
Definition raw_member (k raw : string) : option (list (string * json.tree)) :=
  if (String.length raw =? 0)%nat then Some []
  else t ← json.parse raw; Some [(k, t)].

(** Modelled from the spec: how a message is serialized, which is code of
    mcp-golang as well: the members of its variant, and [null] for a nil
    pointer. *)
Definition encodeMessage (msg : option BaseJsonRpcMessage) : option string :=
  match msg with
  | None => Some "null"
  | Some m =>
      match MessageType m with
      | BaseMessageTypeJSONRPCRequestType =>
          match JsonRpcRequest m with
          | None => Some "null"
          | Some r =>
              params ← raw_member "params" (Request_Params r);
              Some (raw (json.TObject
                ([("id", int64_literal (Request_Id r));
                  ("jsonrpc", json.TString (Request_Jsonrpc r));
                  ("method", json.TString (Request_Method r))] ++ params)))
          end
      | BaseMessageTypeJSONRPCNotificationType =>
          match JsonRpcNotification m with
          | None => Some "null"
          | Some n =>
              params ← raw_member "params" (Notification_Params n);
              Some (raw (json.TObject
                ([("jsonrpc", json.TString (Notification_Jsonrpc n));
                  ("method", json.TString (Notification_Method n))] ++ params)))
          end
      | BaseMessageTypeJSONRPCResponseType =>
          match JsonRpcResponse m with
          | None => Some "null"
          | Some r =>
              result ← json.parse (Response_Result r);
              Some (raw (json.TObject
                [("id", int64_literal (Response_Id r));
                 ("jsonrpc", json.TString (Response_Jsonrpc r));
                 ("result", result)]))
          end
      | BaseMessageTypeJSONRPCErrorType =>
          match JsonRpcError m with
          | None => Some "null"
          | Some e =>
              data ← match Error_Data (Error_Error e) with
                     | Some d => raw_member "data" d
                     | None => Some []
                     end;
              Some (raw (json.TObject
                [("error", json.TObject
                    ([("code", int64_literal (Error_Code (Error_Error e)));
                      ("message", json.TString (Error_Message (Error_Error e)))]
                     ++ data));
                 ("id", int64_literal (Error_Id e));
                 ("jsonrpc", json.TString (Error_Jsonrpc e))]))
          end
      end
  end.

Definition codec : Codec := {|
  UnmarshalResponse := decodeResponse;
  UnmarshalError := decodeError;
  UnmarshalNotification := decodeNotification;
  UnmarshalRequest := decodeRequest;
  MarshalMessage := encodeMessage
|}.

End library.

(** ** The classifier and the event stream, as the specification words them *)
Module spec.
Section WithCodec.
Context `{transport.Codec}.

Inductive Variant := Response | Error | Notification | Request.

(** One attempt: the payload decodes as the variant and its version
    marker is not empty. *)
Definition attempt (payload : string) (v : Variant)
  : option transport.BaseJsonRpcMessage :=
  match v with
  | Response =>
      match transport.UnmarshalResponse payload with
      | Some r =>
          if decide (transport.Response_Jsonrpc r = EmptyString) then None
          else Some (transport.NewBaseMessageResponse r)
      | None => None
      end
  | Error =>
      match transport.UnmarshalError payload with
      | Some e =>
          if decide (transport.Error_Jsonrpc e = EmptyString) then None
          else Some (transport.NewBaseMessageError e)
      | None => None
      end
  | Notification =>
      match transport.UnmarshalNotification payload with
      | Some n =>
          if decide (transport.Notification_Jsonrpc n = EmptyString) then None
          else Some (transport.NewBaseMessageNotification n)
      | None => None
      end
  | Request =>
      match transport.UnmarshalRequest payload with
      | Some r =>
          if decide (transport.Request_Jsonrpc r = EmptyString) then None
          else Some (transport.NewBaseMessageRequest r)
      | None => None
      end
  end.

(** The first of the attempts in [order] that succeeds. *)
Fixpoint first_accepted (payload : string) (order : list Variant)
  : option transport.BaseJsonRpcMessage :=
  match order with
  | [] => None
  | v :: order' =>
      match attempt payload v with
      | Some msg => Some msg
      | None => first_accepted payload order'
      end
  end.

(** [classify]: Response, Error, Notification, Request, in this order;
    [None] is the classification error. *)
Definition classify (payload : string) : option transport.BaseJsonRpcMessage :=
  first_accepted payload [Response; Error; Notification; Request].

(** Whether the payload matches one of the message shapes. *)
Definition classifies (payload : string) : bool :=
  match classify payload with
  | Some _ => true
  | None => false
  end.

(** The events handed to [handler] one after the other, up to the first
    one that does not classify. *)
Fixpoint dispatch (handler : callback) (payloads : list string)
  : option error * list Effect :=
  match payloads with
  | [] => (None, [])
  | payload :: payloads' =>
      match classify payload with
      | None => (Some (received_invalid_response payload), [])
      | Some msg =>
          let '(err, eff) := dispatch handler payloads' in
          (err, call_messageHandler handler msg :: eff)
      end
  end.

End WithCodec.

(** The events of an event-stream body: lines that start with [data: ]
    grouped by blank lines, the data lines of each event joined by newlines;
    data lines left at the end of the body make a last event. *)
Fixpoint events (lines : list string) (dataLines : list string) : list string :=
  match lines with
  | [] =>
      match dataLines with
      | [] => []
      | _ => [strings.Join dataLines newline]
      end
  | line :: lines' =>
      if strings.HasPrefix line "data: "
      then events lines' (dataLines ++ [strings.TrimPrefix line "data: "])
      else
        match line, dataLines with
        | EmptyString, _ :: _ => strings.Join dataLines newline :: events lines' []
        | _, _ => events lines' dataLines
        end
  end.

(** Whether data lines are left when the body ends. *)
Fixpoint pending (lines : list string) (dataLines : list string) : bool :=
  match lines with
  | [] =>
      match dataLines with
      | [] => false
      | _ => true
      end
  | line :: lines' =>
      if strings.HasPrefix line "data: "
      then pending lines' (dataLines ++ [strings.TrimPrefix line "data: "])
      else
        match line, dataLines with
        | EmptyString, _ :: _ => pending lines' []
        | _, _ => pending lines' dataLines
        end
  end.

End spec.

(** ** Inputs for the examples *)
Module examples.
Import transport.

(** [s] between double quotes. *)
Definition quoted (s : string) : string := String dq (s +:+ String dq EmptyString).

(** The five payloads of the classifier table. *)
Definition response_payload : string :=
  "{" +:+ quoted "jsonrpc" +:+ ":" +:+ quoted "2.0" +:+ "," +:+ quoted "id" +:+ ":1,"
  +:+ quoted "result" +:+ ":{}}".

Definition error_payload : string :=
  "{" +:+ quoted "jsonrpc" +:+ ":" +:+ quoted "2.0" +:+ "," +:+ quoted "id" +:+ ":1,"
  +:+ quoted "error" +:+ ":{" +:+ quoted "code" +:+ ":-1," +:+ quoted "message" +:+ ":"
  +:+ quoted "x" +:+ "}}".

Definition notification_payload : string :=
  "{" +:+ quoted "jsonrpc" +:+ ":" +:+ quoted "2.0" +:+ "," +:+ quoted "method" +:+ ":"
  +:+ quoted "ping" +:+ "}".

Definition request_payload : string :=
  "{" +:+ quoted "jsonrpc" +:+ ":" +:+ quoted "2.0" +:+ "," +:+ quoted "id" +:+ ":1,"
  +:+ quoted "method" +:+ ":" +:+ quoted "ping" +:+ "}".

Definition unversioned_payload : string :=
  "{" +:+ quoted "id" +:+ ":1," +:+ quoted "result" +:+ ":{}}".

(** A request with the given params. *)
Definition request_with (params : string) : BaseJsonRpcMessage :=
  NewBaseMessageRequest
    {| Request_Id := 1; Request_Jsonrpc := "2.0"; Request_Method := "tools/list";
       Request_Params := params |}.

(** A server that answers every request with the same response. *)
Definition server (status : nat) (header : list (string * string)) (body : string)
  : http.Network :=
  {| http.parses := fun _ => true;
     http.Do := fun _ =>
       inr {| http.StatusCode := status;
              http.Response_Header := set_headers ∅ header;
              http.Response_Body := {| bufio.content := body; bufio.failure := None |} |} |}.

(** Params with nothing but nulls, and params without a null. *)
Definition only_nulls : string :=
  "{" +:+ quoted "cursor" +:+ ":null, " +:+ quoted "after" +:+ ": null}".

Definition no_nulls : string :=
  "{" +:+ quoted "limit" +:+ ": 10, " +:+ quoted "cursor" +:+ ":" +:+ quoted "c<1>" +:+ "}".

(** The message sent in the examples, and its text. *)
Definition ping : option BaseJsonRpcMessage := Some (request_with EmptyString).

Definition ping_text : string := default EmptyString (library.encodeMessage ping).

(** An event-stream body: an event that matches no message shape, then a
    response. *)
Definition two_events : string :=
  "data: oops" +:+ newline +:+ newline
  +:+ "data: " +:+ response_payload +:+ newline +:+ newline.

(** The same with a response before. *)
Definition three_events : string :=
  "data: " +:+ response_payload +:+ newline +:+ newline +:+ two_events.

(** A streamable transport fresh from its constructor, with a message
    handler. *)
Definition listening : SSEClientTransport.state :=
  SSEClientTransport.SetMessageHandler
    (SSEClientTransport.NewSSEClientTransport "https://h/mcp") (Some 1).

Definition two_events_Send :=
  @SSEClientTransport.Send Z_Float64 library.codec listening ping
    (server 200 [("Content-Type", "text/event-stream")] two_events).

(** A server that answers with a body that matches no message shape, and a
    transport without message handler. *)
Definition unexpected : http.Network :=
  server 200 [("Content-Type", "application/json")] "oops".

Definition unexpected_Send :=
  @SSEClientTransport.Send Z_Float64 library.codec
    (SSEClientTransport.NewSSEClientTransport "https://h/mcp") ping unexpected.

(** A server that hands out a session ID, and one that does not; a [Send]
    to the first and then a [Send] to the second. *)
Definition session_response : http.Response :=
  {| http.StatusCode := 200;
     http.Response_Header :=
       set_headers ∅ [("Content-Type", "application/json"); ("Mcp-Session-Id", "s-42")];
     http.Response_Body := {| bufio.content := EmptyString; bufio.failure := None |} |}.

Definition with_session : http.Network :=
  {| http.parses := fun _ => true; http.Do := fun _ => inr session_response |}.

Definition without_session : http.Network :=
  server 200 [("Content-Type", "application/json")] EmptyString.

Definition first_Send :=
  @SSEClientTransport.Send Z_Float64 library.codec listening ping with_session.

Definition second_Send :=
  @SSEClientTransport.Send Z_Float64 library.codec first_Send.1.1 ping without_session.

(** A stream that announces the endpoint [/rpc] and then carries a
    response; a context that is never cancelled; the first [Start] of a
    transport on that stream. *)
Definition stream : http.Network :=
  server 200 [("Content-Type", "text/event-stream")]
    ("event: endpoint" +:+ newline +:+ "data: /rpc" +:+ newline +:+ newline
     +:+ "event: message" +:+ newline +:+ "data: " +:+ response_payload
     +:+ newline +:+ newline).

Definition patient : TraditionalSSETransport.Context :=
  {| TraditionalSSETransport.ctx_Err := None;
     TraditionalSSETransport.ctx_Done_first := false;
     TraditionalSSETransport.stream_open := false;
     TraditionalSSETransport.SetMessageHandler_calls := fun _ => None;
     TraditionalSSETransport.SetCloseHandler_call := None |}.

Definition unstarted : TraditionalSSETransport.state :=
  TraditionalSSETransport.SetMessageHandler
    (TraditionalSSETransport.NewTraditionalSSETransport "https://h/sse") (Some 1).

Definition first_Start :=
  @TraditionalSSETransport.Start library.codec unstarted patient stream.

End examples.

(** ** Event streams, by their events *)
Module sse.

(** An event as a server writes it: the [event:] line if it has one, its
    [data:] lines, and the blank line that ends it. What follows the colon
    is written as it is given here, white space included. *)
Record Event := {
  event_field : option string;
  data_fields : list string
}.

Definition lines_of (e : Event) : list string :=
  match event_field e with
  | Some type => ["event:" +:+ type]
  | None => []
  end
  ++ map (fun d => "data:" +:+ d) (data_fields e) ++ [EmptyString].

Definition stream_lines (events : list Event) : list string :=
  concat (map lines_of events).

(** The type and the data that go with an event: white space around each
    field is not part of it, and the data lines are joined by newlines. *)
Definition eventType (e : Event) : string :=
  match event_field e with
  | Some type => strings.TrimSpace type
  | None => EmptyString
  end.

Definition data (e : Event) : string :=
  strings.Join (map strings.TrimSpace (data_fields e)) newline.

(** The payload the streamable transport makes of an event whose data
    lines all have a blank after the colon: what follows that blank, as it
    is, the lines joined by newlines. *)
Definition payload (e : Event) : string :=
  strings.Join
    (map (fun d => strings.TrimPrefix ("data:" +:+ d) "data: ") (data_fields e)) newline.

Definition is_endpoint (e : Event) : bool := String.eqb (eventType e) "endpoint".

Definition is_message (e : Event) : bool :=
  String.eqb (eventType e) "message" || String.eqb (eventType e) EmptyString.

End sse.

(** ** The keychain ([getMCPOAuthToken]) *)
Module auth.

Record MCPOAuthEntry := {
  ServerName : string;
  ServerURL : string;
  AccessToken : string;
  RefreshToken : string;
  ExpiresAt : Z
}.

(** [MCPCredentials]: the map [MCPOAuth], as its entries in the order in
    which [range] visits them. *)
Record MCPCredentials := {
  MCPOAuth : list (string * MCPOAuthEntry)
}.

(** The world outside: what [cmd.Output()] returns for the [security]
    command, its output or an error ([inl]), and what
    [json.Unmarshal(output, &creds)] makes of an output ([None] is an
    error). *)
Record Keychain := {
  Output : string + string;
  Unmarshal : string -> option MCPCredentials
}.

Inductive token_error :=
| command_error (cause : string)
| unmarshal_error
| no_token_found_for_server (serverName : string).

(** The condition of the loop, for one entry of the map. *)
Definition matching (key : string) (entry : MCPOAuthEntry) (serverName serverURL : string)
  : bool :=
  String.eqb (ServerName entry) serverName
  || String.eqb (ServerURL entry) serverURL
  || ((String.length serverName <? String.length key)%nat
      && String.eqb (String.substring 0 (String.length serverName) key) serverName).

(** [for key, entry := range creds.MCPOAuth { if ... { return entry.AccessToken, nil } }]. *)
Fixpoint first_match (entries : list (string * MCPOAuthEntry)) (serverName serverURL : string)
  : option string :=
  match entries with
  | [] => None
  | (key, entry) :: entries' =>
      if matching key entry serverName serverURL then Some (AccessToken entry)
      else first_match entries' serverName serverURL
  end.

(** [getMCPOAuthToken]: the token ([inr]) or the error; the string that
    comes with an error is empty. *)
Definition getMCPOAuthToken (k : Keychain) (serverName serverURL : string)
  : token_error + string :=
  (* Read from macOS keychain *)
  match Output k with
  | inl cause => inl (command_error cause)
  | inr output =>
      match Unmarshal k output with
      | None => inl unmarshal_error
      | Some creds =>
          (* Look for matching server *)
          match first_match (MCPOAuth creds) serverName serverURL with
          | Some token => inr token
          | None => inl (no_token_found_for_server serverName)
          end
      end
  end.

End auth.

(** ** The command ([main.go]) *)
Module main.

Record MCPServer := {
  Server_Type : string;
  Server_Command : string;
  Server_Args : list string;
  Server_URL : string
}.

(** The two maps of the configuration, each as its entries in the order
    in which [range] visits them. *)
Record ProjectConfig := {
  MCPServers : list (string * MCPServer)
}.

Record ClaudeConfig := {
  Projects : list (string * ProjectConfig)
}.

(** [ServerInfo] holds aggregated server information. *)
Record ServerInfo := {
  Info_Name : string;
  Info_Type : string;
  Info_URL : string;
  Info_Command : string;
  Info_Args : list string;
  Info_Projects : list string
}.

(** [m[key]] and [m[key] = value] on a Go map kept as the list of its
    entries, each key once. *)
Fixpoint index {A : Type} (m : list (string * A)) (key : string) : option A :=
  match m with
  | [] => None
  | (k, v) :: m' => if String.eqb k key then Some v else index m' key
  end.

Fixpoint store {A : Type} (m : list (string * A)) (key : string) (value : A)
  : list (string * A) :=
  match m with
  | [] => [(key, value)]
  | (k, v) :: m' =>
      if String.eqb k key then (key, value) :: m' else (k, v) :: store m' key value
  end.

(** [sort.Strings]: the strings in ascending order of their bytes. There is
    one such list for the strings given, so the algorithm does not matter. *)
Definition Strings (names : list string) : list string :=
  merge_sort (fun a b => Is_true (String.leb a b)) names.

(** The body of the inner loop of [listServers], for one server of the
    project at [projectPath]. *)
Definition add_server (projectPath : string) (servers : list (string * ServerInfo))
    (entry : string * MCPServer) : list (string * ServerInfo) :=
  let '(name, server) := entry in
  match index servers name with
  | Some existing =>
      store servers name
        {| Info_Name := Info_Name existing; Info_Type := Info_Type existing;
           Info_URL := Info_URL existing; Info_Command := Info_Command existing;
           Info_Args := Info_Args existing;
           Info_Projects := Info_Projects existing ++ [projectPath] |}
  | None =>
      store servers name
        {| Info_Name := name; Info_Type := Server_Type server;
           Info_URL := Server_URL server; Info_Command := Server_Command server;
           Info_Args := Server_Args server; Info_Projects := [projectPath] |}
  end.

(** Aggregate servers across all projects. *)
Definition aggregate (config : ClaudeConfig) : list (string * ServerInfo) :=
  fold_left
    (fun servers project =>
       fold_left (add_server project.1) (MCPServers project.2) servers)
    (Projects config) [].

(** An entry of the map of servers made from a server configured under
    [name]: what [add_server] copies. *)
Definition configured (name : string) (server : MCPServer) (info : ServerInfo) : Prop :=
  Info_Name info = name /\ Info_Type info = Server_Type server
  /\ Info_URL info = Server_URL server /\ Info_Command info = Server_Command server
  /\ Info_Args info = Server_Args server.

(** Sort server names for consistent output. *)
Definition sorted_names (servers : list (string * ServerInfo)) : list string :=
  Strings (map fst servers).

Definition tab : string := String "009"%char EmptyString.

(** What one turn of the printing loop writes to the tab writer. *)
Definition row (info : ServerInfo) : string :=
  let url := if String.eqb (Info_URL info) EmptyString then "[N/A]" else Info_URL info in
  let command :=
    if String.eqb (Info_Command info) EmptyString then "[N/A]" else Info_Command info in
  let args :=
    if (0 <? List.length (Info_Args info))%nat then strings.Join (Info_Args info) " "
    else "[N/A]" in
  Info_Name info +:+ tab +:+ Info_Type info +:+ tab +:+ url +:+ tab +:+ command
  +:+ tab +:+ args +:+ newline.

(** What [listServers] prints: a line on standard output, or a table, which
    is the text written to the tab writer before it is flushed. (The tab
    writer then pads the cells; that is not modelled.) *)
Inductive Output :=
| Println (line : string)
| Flush (written : string).

Definition header : string :=
  "NAME" +:+ tab +:+ "TYPE" +:+ tab +:+ "URL" +:+ tab +:+ "COMMAND" +:+ tab +:+ "ARGS"
  +:+ newline.

(** [listServers]; the error it returns is always nil. A name of
    [sorted_names] is a key of [servers], so [servers[name]] is there. *)
Definition listServers (config : ClaudeConfig) : list Output :=
  let servers := aggregate config in
  if (List.length servers =? 0)%nat then [Println "No MCP servers configured."]
  else
    (* Print table *)
    [Flush (header
            +:+ String.concat EmptyString
                  (map (fun name =>
                          match index servers name with
                          | Some info => row info
                          | None => EmptyString
                          end)
                     (sorted_names servers)))].

(** The first loop of [inspectServer]: the server found under
    [serverName], in the first project that has one, or nil; with nil,
    [inspectServer] returns the error [server not found] and does nothing
    else. *)
Fixpoint foundServer (projects : list (string * ProjectConfig)) (serverName : string)
  : option MCPServer :=
  match projects with
  | [] => None
  | (_, project) :: projects' =>
      match index (MCPServers project) serverName with
      | Some server => Some server
      | None => foundServer projects' serverName
      end
  end.

(** [connectHTTP]: the transport of the client it returns; it returns no
    cleanup and no error. *)
Definition connectHTTP (k : auth.Keychain) (server : MCPServer) (serverName : string)
  : SSEClientTransport.state :=
  let transport := SSEClientTransport.NewSSEClientTransport (Server_URL server) in
  (* Try to get OAuth token from keychain *)
  match auth.getMCPOAuthToken k serverName (Server_URL server) with
  | inr token =>
      if String.eqb token EmptyString then transport
      else SSEClientTransport.WithHeader transport "Authorization" ("Bearer " +:+ token)
  | inl _ => transport
  end.

(** The transport [connectSSE] builds before it starts it. *)
Definition sse_transport (k : auth.Keychain) (server : MCPServer) (serverName : string)
  : TraditionalSSETransport.state :=
  let transport := TraditionalSSETransport.NewTraditionalSSETransport (Server_URL server) in
  match auth.getMCPOAuthToken k serverName (Server_URL server) with
  | inr token =>
      if String.eqb token EmptyString then transport
      else TraditionalSSETransport.WithHeader transport "Authorization" ("Bearer " +:+ token)
  | inl _ => transport
  end.

(** What [connectSSE] returns: the client, by its transport, with the
    cleanup that closes it; or the error [failed to start SSE transport],
    with no client and no cleanup; or nothing, when [Start] does not return. *)
Inductive connected :=
| Client (transport : TraditionalSSETransport.state)
| failed_to_start_SSE_transport (cause : error)
| Waits.

Definition connectSSE `{transport.Codec} (k : auth.Keychain) (server : MCPServer)
    (serverName : string) (ctx : TraditionalSSETransport.Context) (net : http.Network)
  : connected * list Effect * list Effect :=
  let transport := sse_transport k server serverName in
  (* Start the SSE connection (GET /sse and wait for endpoint) *)
  let '(transport, r, eff, background) := TraditionalSSETransport.Start transport ctx net in
  match r with
  | TraditionalSSETransport.Returns (Some err) =>
      (failed_to_start_SSE_transport err, eff, background)
  | TraditionalSSETransport.Returns None => (Client transport, eff, background)
  | TraditionalSSETransport.Blocks => (Waits, eff, background)
  end.

End main.

(** ** More inputs for the examples *)
Module samples.
Import transport.

(** Params with a null among other entries, and a null inside a value. *)
Definition mixed : string :=
  "{" +:+ examples.quoted "cursor" +:+ ":null," +:+ examples.quoted "limit" +:+ ":10,"
  +:+ examples.quoted "filter" +:+ ":{" +:+ examples.quoted "tag" +:+ ":null}}".

Definition mixed_request : BaseJSONRPCRequest :=
  {| Request_Id := 1; Request_Jsonrpc := "2.0"; Request_Method := "tools/list";
     Request_Params := mixed |}.

(** A notification whose params are nothing but nulls. *)
Definition notification_with_nulls : BaseJsonRpcMessage :=
  NewBaseMessageNotification
    {| Notification_Jsonrpc := "2.0"; Notification_Method := "notifications/initialized";
       Notification_Params := examples.only_nulls |}.

(** A server that answers every request with the same status, headers and
    body, the body as a reader. *)
Definition serving (status : nat) (header : list (string * string)) (body : bufio.Reader)
  : http.Network :=
  {| http.parses := fun _ => true;
     http.Do := fun _ =>
       inr {| http.StatusCode := status;
              http.Response_Header := set_headers ∅ header;
              http.Response_Body := body |} |}.

(** A plain JSON answer; an answer that is an error by its status and has a
    session ID; a network on which no request gets through. *)
Definition plain : http.Network :=
  examples.server 200 [("Content-Type", "application/json")] examples.response_payload.

Definition unavailable : http.Network :=
  examples.server 503 [("Mcp-Session-Id", "s-7")] "try later".

Definition unreachable : http.Network :=
  {| http.parses := fun _ => true; http.Do := fun _ => inl "connection refused" |}.

(** An event stream that breaks inside its only event, and one whose
    payload comes right after the colon. *)
Definition broken : bufio.Reader :=
  {| bufio.content := "data: " +:+ examples.response_payload;
     bufio.failure := Some "connection reset" |}.

Definition clean : bufio.Reader :=
  {| bufio.content := "data: " +:+ examples.response_payload; bufio.failure := None |}.

Definition no_space : bufio.Reader :=
  {| bufio.content := "data:" +:+ examples.response_payload +:+ newline +:+ newline;
     bufio.failure := None |}.

(** A stream of five events: the endpoint, a response, an event of another
    type, a second endpoint event and a notification without type. *)
Definition announced : list sse.Event :=
  [ {| sse.event_field := Some " endpoint"; sse.data_fields := [" /rpc"] |};
    {| sse.event_field := Some " message";
       sse.data_fields := [" " +:+ examples.response_payload] |};
    {| sse.event_field := Some " ping"; sse.data_fields := ["x"] |};
    {| sse.event_field := Some "endpoint"; sse.data_fields := ["/other"] |};
    {| sse.event_field := None; sse.data_fields := [examples.notification_payload] |} ].

(** A response and then an event of another type, each with a blank after
    the colon. *)
Definition typed : list sse.Event :=
  [ {| sse.event_field := Some " message";
       sse.data_fields := [" " +:+ examples.response_payload] |};
    {| sse.event_field := Some " ping"; sse.data_fields := [" {}"] |} ].

Definition text_of (lines : list string) : string :=
  String.concat EmptyString (map (fun line => line +:+ newline) lines).

Definition announced_body : bufio.Reader :=
  {| bufio.content := text_of (sse.stream_lines announced); bufio.failure := None |}.

Definition typed_body : bufio.Reader :=
  {| bufio.content := text_of (sse.stream_lines typed); bufio.failure := None |}.

(** The same stream, cut after the data line of one more event. *)
Definition late : sse.Event :=
  {| sse.event_field := Some " message";
     sse.data_fields := [" " +:+ examples.request_payload] |}.

Definition cut_body : bufio.Reader :=
  {| bufio.content :=
       text_of (sse.stream_lines announced
                ++ ["event:" +:+ " message"; "data:" +:+ " " +:+ examples.request_payload]);
     bufio.failure := None |}.

(** Streams for [Start]: one that is refused, one that breaks before it
    names an endpoint, one that ends in good order without naming one; and a
    context with a deadline. *)
Definition refusing : http.Network := examples.server 404 [] "no such stream".

Definition cut_stream : http.Network :=
  serving 200 [("Content-Type", "text/event-stream")]
    {| bufio.content := "event: message" +:+ newline;
       bufio.failure := Some "unexpected EOF" |}.

Definition silent_stream : http.Network :=
  examples.server 200 [("Content-Type", "text/event-stream")] EmptyString.

Definition deadline : TraditionalSSETransport.Context :=
  {| TraditionalSSETransport.ctx_Err := Some "context deadline exceeded";
     TraditionalSSETransport.ctx_Done_first := false;
     TraditionalSSETransport.stream_open := false;
     TraditionalSSETransport.SetMessageHandler_calls := fun _ => None;
     TraditionalSSETransport.SetCloseHandler_call := None |}.

(** A context that never ends, on a stream that stays open; another
    goroutine sets the message handler 2 after the first message of the
    stream. *)
Definition busy : TraditionalSSETransport.Context :=
  {| TraditionalSSETransport.ctx_Err := None;
     TraditionalSSETransport.ctx_Done_first := false;
     TraditionalSSETransport.stream_open := true;
     TraditionalSSETransport.SetMessageHandler_calls :=
       fun n => if (n =? 1)%nat then Some (Some 2) else None;
     TraditionalSSETransport.SetCloseHandler_call := None |}.

(** The same context without the other goroutine. *)
Definition waiting : TraditionalSSETransport.Context :=
  {| TraditionalSSETransport.ctx_Err := None;
     TraditionalSSETransport.ctx_Done_first := false;
     TraditionalSSETransport.stream_open := true;
     TraditionalSSETransport.SetMessageHandler_calls := fun _ => None;
     TraditionalSSETransport.SetCloseHandler_call := None |}.

(** A stream with one response and no endpoint, and a transport with a
    close handler to start on it. *)
Definition quiet_stream : http.Network :=
  examples.server 200 [("Content-Type", "text/event-stream")]
    (text_of ["data: " +:+ examples.response_payload; EmptyString]).

Definition closing : TraditionalSSETransport.state :=
  TraditionalSSETransport.SetCloseHandler examples.unstarted (Some 7).


(** A stream whose last line, the blank line after the endpoint event, has
    its carriage return and not yet its newline. *)
Definition slow_stream : http.Network :=
  examples.server 200 [("Content-Type", "text/event-stream")]
    ("event: endpoint" +:+ newline +:+ "data: /rpc" +:+ newline
     +:+ String "013"%char EmptyString).

Definition cut_Start :=
  @TraditionalSSETransport.Start library.codec examples.unstarted examples.patient cut_stream.

(** A server that takes a POST with status 202 and writes a response into
    the body of the answer. *)
Definition accepting : http.Network :=
  examples.server 202 [("Content-Type", "application/json")] examples.response_payload.

(** A keychain with one entry, stored for one server under a key that starts
    with the name of another. *)
Definition github : auth.MCPOAuthEntry :=
  {| auth.ServerName := "github-enterprise"; auth.ServerURL := "https://ghe.example/mcp";
     auth.AccessToken := "tok-1"; auth.RefreshToken := EmptyString; auth.ExpiresAt := 0 |}.

Definition one_entry : auth.Keychain :=
  {| auth.Output := inr "{}";
     auth.Unmarshal := fun _ => Some {| auth.MCPOAuth := [("github|1", github)] |} |}.

Definition git_server : main.MCPServer :=
  {| main.Server_Type := "http"; main.Server_Command := EmptyString;
     main.Server_Args := []; main.Server_URL := "https://git.example/mcp" |}.

Definition files_server : main.MCPServer :=
  {| main.Server_Type := "stdio"; main.Server_Command := "mcp-files";
     main.Server_Args := ["--root"; "/tmp"]; main.Server_URL := EmptyString |}.

(** The client [connectSSE] returns for a server on the stream of the
    examples, with that keychain. *)
Definition sse_server : main.MCPServer :=
  {| main.Server_Type := "sse"; main.Server_Command := EmptyString;
     main.Server_Args := []; main.Server_URL := "https://h/sse" |}.

Definition sse_client :=
  @main.connectSSE library.codec one_entry sse_server "github" examples.patient
    examples.stream.

Definition transport_of (c : main.connected) : TraditionalSSETransport.state :=
  match c with
  | main.Client transport => transport
  | _ => examples.unstarted
  end.

(** Two projects with the same server, one visited first or the other. *)
Definition two_projects : list (string * main.ProjectConfig) :=
  [("/work/a", {| main.MCPServers := [("files", files_server)] |});
   ("/work/b", {| main.MCPServers := [("git", git_server); ("files", files_server)] |})].

(** A configuration, and the same servers visited in another order. *)
Definition config : main.ClaudeConfig :=
  {| main.Projects :=
       [("/work/a", {| main.MCPServers := [("git", git_server); ("files", files_server)] |})] |}.

Definition config' : main.ClaudeConfig :=
  {| main.Projects :=
       [("/work/a", {| main.MCPServers := [("files", files_server); ("git", git_server)] |})] |}.

End samples.

(** A call of the message handler of a streamable transport. *)
Definition handler_call (t : SSEClientTransport.state) (e : Effect) : Prop :=
  exists handler msg,
    SSEClientTransport.messageHandler t = Some handler /\ e = call_messageHandler handler msg.

(** * Facts *)

Module json_facts.
Import json.

Lemma unquote_escape_byte (c : ascii) (tail : list ascii) :
  unquote (escape_byte c ++ tail)
  = '(str, rest) ← unquote tail; Some (String c str, rest).
Proof.
  destruct c as [[] [] [] [] [] [] [] []]; reflexivity.
Qed.

Lemma unquote_escape (s : string) (rest : list ascii) :
  unquote (escape s ++ dq :: rest) = Some (s, rest).
Proof.
  induction s as [|c s IH]; [reflexivity|].
  cbn [escape]. rewrite <- app_assoc, unquote_escape_byte, IH. reflexivity.
Qed.

Lemma unquote_quote (s : string) (rest : list ascii) :
  unquote (escape s ++ [dq] ++ rest) = Some (s, rest).
Proof. apply unquote_escape. Qed.


Ltac char_of H :=
  repeat (apply orb_true_iff in H as [H|H]);
  apply Ascii.eqb_eq in H; subst.

Lemma digit_number_char c : is_digit c = true -> is_number_char c = true.
Proof. unfold is_number_char. intros ->. reflexivity. Qed.

Lemma skip_digits_chars s :
  forallb is_number_char (skip_digits s) = true -> forallb is_number_char s = true.
Proof.
  induction s as [|c s IH]; [done|]. simpl.
  destruct (is_digit c) eqn:E; [|done].
  intros Hs. rewrite (digit_number_char _ E). simpl. auto.
Qed.

Lemma skip_digits_nil_chars s :
  skip_digits s = [] -> forallb is_number_char s = true.
Proof. intros Hs. apply skip_digits_chars. rewrite Hs. reflexivity. Qed.

Lemma exponent_syntax_chars s :
  exponent_syntax s = true -> forallb is_number_char s = true.
Proof.
  destruct s as [|e s1]; [done|]. cbn [exponent_syntax].
  destruct (Ascii.eqb e "e" || Ascii.eqb e "E") eqn:He; [|done].
  assert (is_number_char e = true) as Hne by (char_of He; reflexivity).
  cbn [forallb]. rewrite Hne. cbn [andb]. clear He Hne.
  assert (forall s2, match s2 with
                     | d :: r => is_digit d && match skip_digits r with [] => true | _ => false end
                     | [] => false
                     end = true -> forallb is_number_char s2 = true) as Hdigits.
  { intros [|d r]; [done|]. intros [Hd Hr]%andb_true_iff. cbn [forallb].
    rewrite (digit_number_char _ Hd). cbn [andb].
    apply skip_digits_nil_chars. destruct (skip_digits r); [done|discriminate]. }
  destruct s1 as [|c r]; [done|].
  destruct (Ascii.eqb c "+" || Ascii.eqb c "-") eqn:Hc.
  - intros Hs. cbn [forallb]. rewrite (Hdigits _ Hs), andb_true_r. char_of Hc; reflexivity.
  - apply (Hdigits (c :: r)).
Qed.

Lemma fraction_syntax_chars s :
  fraction_syntax s = true -> forallb is_number_char s = true.
Proof.
  destruct s as [|c s1]; [done|]. cbn [fraction_syntax].
  destruct (Ascii.eqb c ".") eqn:Hc; [|apply exponent_syntax_chars].
  apply Ascii.eqb_eq in Hc. subst c. destruct s1 as [|d r]; [done|].
  intros [Hd Hr]%andb_true_iff. cbn [forallb].
  rewrite (digit_number_char _ Hd). cbn [andb].
  apply skip_digits_chars, exponent_syntax_chars, Hr.
Qed.

Lemma number_syntax_chars lit :
  number_syntax lit = true -> forallb is_number_char lit = true.
Proof.
  assert (forall s1, match s1 with
                     | d :: r =>
                         if Ascii.eqb d "0" then fraction_syntax r
                         else is_digit d && fraction_syntax (skip_digits r)
                     | [] => false
                     end = true -> forallb is_number_char s1 = true) as Hint.
  { intros [|d r]; [done|]. cbn [forallb].
    destruct (Ascii.eqb d "0") eqn:Hd.
    - apply Ascii.eqb_eq in Hd. subst d. intros Hr. apply fraction_syntax_chars in Hr.
      rewrite Hr. reflexivity.
    - intros [Hd' Hr]%andb_true_iff. rewrite (digit_number_char _ Hd'). cbn [andb].
      apply skip_digits_chars, fraction_syntax_chars, Hr. }
  unfold number_syntax. destruct lit as [|c r]; [done|].
  destruct (Ascii.eqb c "-") eqn:Hc; [|apply (Hint (c :: r))].
  apply Ascii.eqb_eq in Hc. subst c. intros Hr. cbn [forallb]. rewrite (Hint _ Hr). reflexivity.
Qed.

Lemma number_syntax_head lit :
  number_syntax lit = true ->
  exists c r, lit = c :: r /\ is_digit c || Ascii.eqb c "-" = true.
Proof.
  unfold number_syntax. destruct lit as [|c r]; [done|].
  intros Hs. exists c, r. split; [done|].
  destruct (Ascii.eqb c "-") eqn:Hc; [apply orb_true_r|].
  rewrite orb_false_r.
  destruct (Ascii.eqb c "0") eqn:H0.
  - apply Ascii.eqb_eq in H0. subst c. reflexivity.
  - apply andb_true_iff in Hs. tauto.
Qed.

Lemma span_number_app lit rest :
  forallb is_number_char lit = true -> no_number_head rest = true ->
  span_number (lit ++ rest) = (lit, rest).
Proof.
  intros Hlit Hrest. induction lit as [|c lit IH]; cbn [app span_number].
  - destruct rest as [|c rest]; [done|]. cbn [no_number_head] in Hrest.
    apply negb_true_iff in Hrest. cbn [span_number]. rewrite Hrest. reflexivity.
  - cbn [forallb] in Hlit. apply andb_true_iff in Hlit as [Hc Hlit].
    rewrite Hc, (IH Hlit). reflexivity.
Qed.

Lemma scan_number_app lit rest :
  number_syntax lit = true -> no_number_head rest = true ->
  scan_number (lit ++ rest) = Some (lit, rest).
Proof.
  intros Hlit Hrest. unfold scan_number.
  rewrite (span_number_app _ _ (number_syntax_chars _ Hlit) Hrest), Hlit. reflexivity.
Qed.






Lemma value_start_spec c :
  value_start c = true ->
  is_space c = false /\ Ascii.eqb c "]" = false /\ Ascii.eqb c "}" = false.
Proof. destruct c as [[] [] [] [] [] [] [] []]; vm_compute; intros; done. Qed.

Lemma number_start c : is_digit c || Ascii.eqb c "-" = true -> value_start c = true.
Proof.
  unfold value_start. intros ->. reflexivity.
Qed.

Lemma print_head t :
  well_formed t = true -> exists c r, print t = c :: r /\ value_start c = true.
Proof.
  destruct t as [|[]|lit|s|l|ms]; cbn [print well_formed]; try (intros _; eexists _, _; split; reflexivity).
  intros (c & r & -> & Hc)%number_syntax_head. eauto using number_start.
Qed.

Lemma commas_cons (p : list ascii) ps rest :
  commas (p :: ps) ++ rest
  = p ++ match ps with
         | [] => rest
         | _ => ","%char :: commas ps ++ rest
         end.
Proof. destruct ps; cbn [commas]; [done|]. rewrite <- app_assoc. reflexivity. Qed.

Lemma skip_space_start c r : value_start c = true -> skip_space (c :: r) = c :: r.
Proof. intros (Hc & _)%value_start_spec. cbn [skip_space]. rewrite Hc. reflexivity. Qed.

Lemma list_sum_cons (x : nat) (l : list nat) : list_sum (x :: l) = x + list_sum l.
Proof. reflexivity. Qed.

Lemma parse_print_fuel (fuel : nat) :
  (forall t rest,
      well_formed t = true -> weight t <= fuel -> no_number_head rest = true ->
      parse_value fuel (print t ++ rest) = Some (t, rest))
  /\ (forall v l rest,
      forallb well_formed (v :: l) = true ->
      list_sum (map (fun v => S (weight v)) (v :: l)) <= fuel ->
      parse_elems fuel (commas (map print (v :: l)) ++ "]"%char :: rest)
      = Some (v :: l, rest))
  /\ (forall kv ms rest,
      forallb (fun kv => let '(_, v) := kv in well_formed v) (kv :: ms) = true ->
      list_sum (map (fun kv => let '(_, v) := kv in S (weight v)) (kv :: ms)) <= fuel ->
      parse_members fuel (commas (map print_member (kv :: ms)) ++ "}"%char :: rest)
      = Some (kv :: ms, rest)).
Proof.
  induction fuel as [|fuel (IHv & IHe & IHm)].
  { split; [|split].
    - intros t ? _ Hw. destruct t; cbn in Hw; lia.
    - intros * _ Hw. cbn in Hw. lia.
    - intros [] * _ Hw. cbn in Hw. lia. }
  split; [|split].
  - intros t rest Hwf Hw Hrest.
    destruct t as [|[]|lit|s|l|ms]; try reflexivity.
    + (* number *)
      cbn [well_formed] in Hwf. cbn [print].
      destruct (number_syntax_head _ Hwf) as (c & r & Hlit & Hc).
      rewrite Hlit. cbn [parse_value app].
      rewrite (skip_space_start _ _ (number_start _ Hc)), Hc.
      change (c :: r ++ rest) with ((c :: r) ++ rest).
      rewrite <- Hlit, (scan_number_app _ _ Hwf Hrest). cbn.
      rewrite string_of_list_ascii_of_string. reflexivity.
    + (* string *)
      cbn [print quote parse_value app skip_space].
      change (is_space dq) with false. cbv iota.
      change (is_digit dq || Ascii.eqb dq "-") with false. cbv iota.
      rewrite Ascii.eqb_refl, <- app_assoc, unquote_quote. reflexivity.
    + (* array *)
      destruct l as [|v l]; [reflexivity|].
      cbn [print]. cbn [parse_value app skip_space].
      change (is_space "[") with false. cbv iota.
      change (is_digit "[" || Ascii.eqb "[" "-") with false. cbv iota.
      change (Ascii.eqb "[" dq) with false. cbv iota.
      change (Ascii.eqb "[" "n") with false. cbv iota.
      change (Ascii.eqb "[" "t") with false. cbv iota.
      change (Ascii.eqb "[" "f") with false. cbv iota.
      rewrite Ascii.eqb_refl. rewrite <- app_assoc. cbn [app].
      cbn [well_formed] in Hwf. cbn [weight] in Hw.
      rewrite (IHe v l rest Hwf ltac:(lia)).
      cbn [map]. rewrite commas_cons.
      cbn [forallb] in Hwf. apply andb_true_iff in Hwf as [Hv _].
      destruct (print_head _ Hv) as (c & r & -> & Hc).
      cbn [app]. rewrite (skip_space_start _ _ Hc).
      destruct (value_start_spec _ Hc) as (_ & -> & _). reflexivity.
    + (* object *)
      destruct ms as [|[k v] ms]; [reflexivity|].
      cbn [print]. cbn [parse_value app skip_space].
      change (is_space "{") with false. cbv iota.
      change (is_digit "{" || Ascii.eqb "{" "-") with false. cbv iota.
      change (Ascii.eqb "{" dq) with false. cbv iota.
      change (Ascii.eqb "{" "n") with false. cbv iota.
      change (Ascii.eqb "{" "t") with false. cbv iota.
      change (Ascii.eqb "{" "f") with false. cbv iota.
      change (Ascii.eqb "{" "[") with false. cbv iota.
      rewrite Ascii.eqb_refl. rewrite <- app_assoc. cbn [app].
      cbn [well_formed] in Hwf. cbn [weight] in Hw.
      change (map _ ((k, v) :: ms)) with (map print_member ((k, v) :: ms)).
      rewrite (IHm (k, v) ms rest Hwf ltac:(lia)).
      cbn [map]. rewrite commas_cons. cbn [print_member quote app skip_space].
      change (is_space dq) with false. cbv iota.
      change (Ascii.eqb dq "}") with false. reflexivity.
  - intros v l rest Hwf Hw.
    cbn [forallb] in Hwf. apply andb_true_iff in Hwf as [Hv Hl].
    cbn [map] in Hw. rewrite list_sum_cons in Hw.
    cbn [parse_elems].
    destruct l as [|v' l].
    + cbn [map commas]. rewrite IHv; [|assumption|lia|reflexivity]. reflexivity.
    + change (map print (v :: v' :: l)) with (print v :: map print (v' :: l)).
      rewrite commas_cons.
      remember (commas (map print (v' :: l)) ++ "]"%char :: rest) as tail eqn:Htail.
      cbn [map]. rewrite IHv; [|assumption|lia|reflexivity]. cbn.
      subst tail. rewrite (IHe v' l rest Hl ltac:(lia)). reflexivity.
  - intros [k v] ms rest Hwf Hw.
    cbn [forallb] in Hwf. apply andb_true_iff in Hwf as [Hv Hl].
    cbn [map] in Hw. rewrite list_sum_cons in Hw.
    cbn [parse_members].
    destruct ms as [|kv' ms].
    + cbn [map commas print_member quote app skip_space].
      change (is_space dq) with false. cbv iota.
      rewrite Ascii.eqb_refl, <- !app_assoc, unquote_quote. cbn.
      rewrite IHv; [|assumption|lia|reflexivity]. reflexivity.
    + change (map print_member ((k, v) :: kv' :: ms))
        with (print_member (k, v) :: map print_member (kv' :: ms)).
      rewrite commas_cons.
      remember (commas (map print_member (kv' :: ms)) ++ "}"%char :: rest) as tail eqn:Htail.
      cbn [map print_member quote app skip_space].
      change (is_space dq) with false. cbv iota.
      rewrite Ascii.eqb_refl, <- !app_assoc, unquote_quote. cbn.
      rewrite IHv; [|assumption|lia|reflexivity]. cbn.
      subst tail. rewrite (IHm kv' ms rest Hl ltac:(lia)). reflexivity.
Qed.


Section tree_induction.
Variable P : tree -> Prop.
Hypothesis Hnull : P TNull.
Hypothesis Hbool : forall b, P (TBool b).
Hypothesis Hnumber : forall lit, P (TNumber lit).
Hypothesis Hstring : forall s, P (TString s).
Hypothesis Harray : forall elems, Forall P elems -> P (TArray elems).
Hypothesis Hobject : forall members, Forall (fun kv => P kv.2) members -> P (TObject members).

Fixpoint tree_ind' (t : tree) : P t :=
  match t with
  | TNull => Hnull
  | TBool b => Hbool b
  | TNumber lit => Hnumber lit
  | TString s => Hstring s
  | TArray elems =>
      Harray elems
        ((fix all (l : list tree) : Forall P l :=
            match l with
            | [] => List.Forall_nil P
            | t' :: l' => List.Forall_cons P t' l' (tree_ind' t') (all l')
            end) elems)
  | TObject members =>
      Hobject members
        ((fix all (l : list (string * tree)) : Forall (fun kv => P kv.2) l :=
            match l with
            | [] => List.Forall_nil _
            | (k, t') :: l' => List.Forall_cons (fun kv => P kv.2) (k, t') l' (tree_ind' t') (all l')
            end) members)
  end.
End tree_induction.

Lemma length_commas_bound {A : Type} (f : A -> list ascii) (w : A -> nat) (l : list A) :
  Forall (fun x => w x <= List.length (f x)) l ->
  list_sum (map (fun x => S (w x)) l) <= S (List.length (commas (map f l))).
Proof.
  induction 1 as [|x l Hx Hl IH]; [cbn; lia|].
  cbn [map]. rewrite list_sum_cons.
  destruct l as [|y l]; [cbn in *; lia|].
  change (commas (f x :: map f (y :: l))) with (f x ++ ","%char :: commas (map f (y :: l))).
  rewrite length_app. cbn [List.length]. lia.
Qed.

Lemma weight_le_length t :
  well_formed t = true -> weight t <= List.length (print t).
Proof.
  induction t as [|b|lit|s|elems IH|members IH] using tree_ind'; intros Hwf.
  - cbn. lia.
  - destruct b; cbn; lia.
  - cbn [print weight]. cbn [well_formed] in Hwf.
    destruct (number_syntax_head _ Hwf) as (c & r & -> & _). cbn. lia.
  - cbn [print weight]. unfold quote. cbn [List.length]. lia.
  - cbn [print weight]. cbn [List.length]. rewrite length_app. cbn [List.length].
    cbn [well_formed] in Hwf.
    pose proof (length_commas_bound print weight elems) as Hb.
    assert (Forall (fun x => weight x <= List.length (print x)) elems) as Hall.
    { rewrite forallb_forall in Hwf. rewrite Forall_forall in IH |- *.
      intros x Hx. apply IH; [done|]. apply Hwf. by apply list_elem_of_In. }
    specialize (Hb Hall). lia.
  - cbn [print weight]. cbn [List.length]. rewrite length_app. cbn [List.length].
    cbn [well_formed] in Hwf.
    pose proof (length_commas_bound print_member (fun kv => weight kv.2) members) as Hb.
    assert (Forall (fun kv => weight kv.2 <= List.length (print_member kv)) members) as Hall.
    { rewrite forallb_forall in Hwf. rewrite Forall_forall in IH |- *.
      intros [k v] Hx. cbn [print_member snd]. rewrite length_app. cbn [List.length].
      specialize (IH _ Hx). specialize (Hwf (k, v) ltac:(by apply list_elem_of_In)).
      cbn in IH, Hwf. specialize (IH Hwf). lia. }
    specialize (Hb Hall).
    assert (map (fun kv : string * tree => S (weight kv.2)) members
            = map (fun kv => let '(_, v) := kv in S (weight v)) members) as Hmap.
    { apply map_ext. by intros []. }
    rewrite <- Hmap.
    change (map (fun kv : string * tree => let '(k, v) := kv in quote k ++ ":"%char :: print v) members)
      with (map print_member members).
    lia.
Qed.

(** The scanner reads back what the printer writes. *)
Lemma parse_print t :
  well_formed t = true -> parse (string_of_list_ascii (print t)) = Some t.
Proof.
  intros Hwf. unfold parse. rewrite list_ascii_of_string_of_list_ascii.
  destruct (parse_print_fuel (S (List.length (print t)))) as (Hv & _ & _).
  specialize (Hv t [] Hwf).
  rewrite app_nil_r in Hv. rewrite Hv; [reflexivity| |reflexivity].
  pose proof (weight_le_length t Hwf). lia.
Qed.



Lemma compare_lt_trans (a b c : string) :
  String.compare a b = Lt -> String.compare b c = Lt -> String.compare a c = Lt.
Proof.
  revert b c. induction a as [|x a IH]; intros [|y b] [|z c]; cbn [String.compare]; try done.
  destruct (Ascii.compare x y) eqn:Hxy; [| |done].
  - apply Ascii.compare_eq_iff in Hxy. subst y.
    destruct (Ascii.compare x z); [apply IH|done..].
  - intros _. destruct (Ascii.compare y z) eqn:Hyz; [| |done].
    + apply Ascii.compare_eq_iff in Hyz. subst z. by rewrite Hxy.
    + intros _. unfold Ascii.compare in *. rewrite N.compare_lt_iff in Hxy, Hyz.
      assert ((N_of_ascii x ?= N_of_ascii z)%N = Lt) as ->; [|done].
      apply N.compare_lt_iff. lia.
Qed.

Lemma ltb_lt (a b : string) : String.ltb a b = true <-> String.compare a b = Lt.
Proof. unfold String.ltb. destruct (String.compare a b); split; congruence. Qed.

Lemma ltb_trans (a b c : string) :
  String.ltb a b = true -> String.ltb b c = true -> String.ltb a c = true.
Proof. rewrite !ltb_lt. apply compare_lt_trans. Qed.

Lemma ltb_compare_gt (a b : string) :
  String.ltb a b = true -> String.compare b a = Gt.
Proof.
  unfold String.ltb. rewrite (String.compare_antisym b a).
  destruct (String.compare a b); cbn; congruence.
Qed.

Lemma compare_gt_ltb (a b : string) :
  String.compare a b = Gt -> String.ltb b a = true.
Proof.
  unfold String.ltb. rewrite (String.compare_antisym b a).
  destruct (String.compare a b); cbn; congruence.
Qed.

Lemma put_above {A : Type} (k : string) (v : A) (m : list (string * A)) :
  forallb (fun kv => String.ltb kv.1 k) m = true -> put k v m = m ++ [(k, v)].
Proof.
  induction m as [|[k' v'] m IH]; [done|].
  cbn [forallb fst]. intros [Hk Hm]%andb_true_iff.
  cbn [put]. rewrite (ltb_compare_gt _ _ Hk), (IH Hm). reflexivity.
Qed.

Lemma forallb_put {A : Type} (Q : string * A -> bool) k v m :
  Q (k, v) = true -> forallb Q m = true -> forallb Q (put k v m) = true.
Proof.
  intros Hkv. induction m as [|[k' v'] m IH]; cbn [put forallb]; [by rewrite Hkv|].
  intros [Hk Hm]%andb_true_iff.
  destruct (String.compare k k'); cbn [forallb]; rewrite ?Hkv, ?Hk, ?Hm, ?IH; done.
Qed.

Lemma put_ascending {A : Type} (k : string) (v : A) (m : list (string * A)) :
  ascending m = true -> ascending (put k v m) = true.
Proof.
  induction m as [|[k' v'] m IH]; [done|].
  cbn [ascending]. intros [Hk Hm]%andb_true_iff. cbn [put].
  destruct (String.compare k k') eqn:Hc.
  - apply String.compare_eq_iff in Hc. subst k'. cbn [ascending]. by rewrite Hk, Hm.
  - cbn [ascending forallb fst].
    assert (String.ltb k k' = true) as Hlt by (unfold String.ltb; by rewrite Hc).
    rewrite Hlt, Hk, Hm. cbn [andb]. rewrite !andb_true_r.
    rewrite forallb_forall in Hk |- *. intros kv Hin.
    eapply ltb_trans; [exact Hlt|by apply Hk].
  - cbn [ascending]. rewrite (IH Hm), andb_true_r.
    apply forallb_put; [|done]. cbn [fst]. by apply compare_gt_ltb.
Qed.

Lemma ascending_app_below {A : Type} (l1 l2 : list (string * A)) k v :
  ascending (l1 ++ (k, v) :: l2) = true ->
  forallb (fun kv => String.ltb kv.1 k) l1 = true.
Proof.
  induction l1 as [|[k1 v1] l1 IH]; [done|].
  cbn [app ascending forallb fst]. intros [Hk Hl]%andb_true_iff.
  rewrite (IH Hl), andb_true_r.
  rewrite forallb_app in Hk. apply andb_true_iff in Hk as [_ Hk].
  cbn [forallb fst] in Hk. by apply andb_true_iff in Hk as [-> _].
Qed.

Lemma ascending_app_drop {A : Type} (l1 l2 : list (string * A)) kv :
  ascending (l1 ++ kv :: l2) = true -> ascending (l1 ++ l2) = true.
Proof.
  induction l1 as [|[k1 v1] l1 IH]; cbn [app ascending].
  - destruct kv. by intros [_ ?]%andb_true_iff.
  - intros [Hk Hl]%andb_true_iff. rewrite (IH Hl), andb_true_r.
    rewrite forallb_app in Hk |- *. apply andb_true_iff in Hk as [-> Hk].
    cbn [forallb] in Hk. by apply andb_true_iff in Hk as [_ ->].
Qed.

Lemma compare_refl (a : string) : String.compare a a = Eq.
Proof.
  induction a as [|c a IH]; [done|]. cbn [String.compare].
  unfold Ascii.compare. by rewrite N.compare_refl.
Qed.

Lemma compare_lt_gt (a b : string) :
  String.compare a b = Lt -> String.compare b a = Gt.
Proof. intros Hc. rewrite (String.compare_antisym b a), Hc. reflexivity. Qed.

Lemma compare_gt_lt (a b : string) :
  String.compare a b = Gt -> String.compare b a = Lt.
Proof. intros Hc. rewrite (String.compare_antisym b a), Hc. reflexivity. Qed.

(** Facts about the order of three keys: equal keys identified, every
    comparison in both directions, and the transitive ones. *)
Ltac order :=
  repeat match goal with
  | H : String.compare ?a ?b = Eq |- _ => apply String.compare_eq_iff in H; subst
  | H : String.compare ?a ?b = Gt |- _ => apply compare_gt_lt in H
  | H : String.compare ?a ?a = Lt |- _ => rewrite compare_refl in H; discriminate H
  | H1 : String.compare ?a ?b = Lt, H2 : String.compare ?b ?a = Lt |- _ =>
      pose proof (compare_lt_trans _ _ _ H1 H2) as Hcontra;
      rewrite compare_refl in Hcontra; discriminate Hcontra
  end;
  repeat match goal with
  | H1 : String.compare ?a ?b = Lt, H2 : String.compare ?b ?c = Lt |- _ =>
      lazymatch goal with
      | _ : String.compare a c = Lt |- _ => fail
      | _ => pose proof (compare_lt_trans _ _ _ H1 H2)
      end
  end;
  repeat match goal with
  | H : String.compare ?a ?a = Lt |- _ => rewrite compare_refl in H; discriminate H
  | H : String.compare ?a ?b = Lt |- _ =>
      lazymatch goal with
      | _ : String.compare b a = Gt |- _ => fail
      | _ => pose proof (compare_lt_gt _ _ H)
      end
  end.

(** Two assignments to different keys commute. *)
Lemma put_put {A : Type} (k1 k2 : string) (v1 v2 : A) (m : list (string * A)) :
  k1 <> k2 -> put k1 v1 (put k2 v2 m) = put k2 v2 (put k1 v1 m).
Proof.
  intros Hne.
  induction m as [|[k v] m IH]; cbn [put].
  - destruct (String.compare k1 k2) eqn:H12; order; try done;
      repeat (cbn [put]; rewrite ?compare_refl;
              repeat match goal with H : String.compare _ _ = _ |- _ => rewrite H end);
      done.
  - destruct (String.compare k1 k2) eqn:H12;
      destruct (String.compare k1 k) eqn:H1; destruct (String.compare k2 k) eqn:H2;
      order; try done;
      repeat (cbn [put]; rewrite ?compare_refl;
              repeat match goal with H : String.compare _ _ = _ |- _ => rewrite H end);
      rewrite ?IH; done.
Qed.

Lemma ascending_NoDup {A : Type} (m : list (string * A)) :
  ascending m = true -> NoDup m.*1.
Proof.
  induction m as [|[k v] m IH]; cbn [ascending fmap list_fmap fst]; [constructor|].
  intros [Hk Hm]%andb_true_iff. constructor; [|by apply IH].
  intros ([k' v'] & Heq & Hin)%list_elem_of_fmap. cbn in Heq. subst k'.
  rewrite forallb_forall in Hk. apply list_elem_of_In in Hin. apply Hk in Hin.
  cbn in Hin. apply ltb_lt in Hin. by rewrite compare_refl in Hin.
Qed.

Section values.
Context `{Float64}.




Lemma decode_TArray elems : decode (TArray elems) = VArray <$> decode_elems elems.
Proof.
  reflexivity.
Qed.

Lemma decode_TObject members :
  decode (TObject members) = VObject <$> decode_members members [].
Proof.
  reflexivity.
Qed.

Section value_induction.
Variable P : value -> Prop.
Hypothesis Hnull : P VNull.
Hypothesis Hbool : forall b, P (VBool b).
Hypothesis Hnumber : forall f, P (VNumber f).
Hypothesis Hstring : forall s, P (VString s).
Hypothesis Harray : forall elems, Forall P elems -> P (VArray elems).
Hypothesis Hobject : forall entries, Forall (fun kv => P kv.2) entries -> P (VObject entries).

Fixpoint value_ind' (v : value) : P v :=
  match v with
  | VNull => Hnull
  | VBool b => Hbool b
  | VNumber f => Hnumber f
  | VString s => Hstring s
  | VArray elems =>
      Harray elems
        ((fix all (l : list value) : Forall P l :=
            match l with
            | [] => List.Forall_nil P
            | v' :: l' => List.Forall_cons P v' l' (value_ind' v') (all l')
            end) elems)
  | VObject entries =>
      Hobject entries
        ((fix all (l : list (string * value)) : Forall (fun kv => P kv.2) l :=
            match l with
            | [] => List.Forall_nil _
            | (k, v') :: l' =>
                List.Forall_cons (fun kv => P kv.2) (k, v') l' (value_ind' v') (all l')
            end) entries)
  end.
End value_induction.

Lemma encode_well_formed v : well_formed (encode v) = true.
Proof.
  induction v as [|b|f|s|elems IH|entries IH] using value_ind'; try reflexivity.
  - cbn. apply FormatFloat_syntax.
  - cbn [encode well_formed]. rewrite forallb_forall. intros t Hin.
    apply in_map_iff in Hin as (v & <- & Hin).
    rewrite Forall_forall in IH. apply IH. by apply list_elem_of_In.
  - cbn [encode well_formed]. rewrite forallb_forall. intros [k t] Hin.
    apply in_map_iff in Hin as ([k' v] & [= <- <-] & Hin).
    rewrite Forall_forall in IH. apply (IH (k', v)). by apply list_elem_of_In.
Qed.

Lemma decode_members_encode (l2 l1 : list (string * value)) :
  Forall (fun kv => canonical kv.2 = true -> decode (encode kv.2) = Some kv.2) l2 ->
  forallb (fun kv => let '(_, v') := kv in canonical v') l2 = true ->
  ascending (l1 ++ l2) = true ->
  decode_members (map (fun kv => let '(k, v') := kv in (k, encode v')) l2) l1
  = Some (l1 ++ l2).
Proof.
  intros IH. revert l1. induction IH as [|[k v] l2 Hv _ IH]; intros l1 Hc Ha.
  - cbn. by rewrite app_nil_r.
  - cbn [forallb] in Hc. apply andb_true_iff in Hc as [Hcv Hc].
    cbn [map decode_members]. cbn [snd] in Hv. rewrite (Hv Hcv). cbn.
    rewrite (put_above _ _ _ (ascending_app_below _ _ _ _ Ha)).
    rewrite IH; [by rewrite <- app_assoc|done|by rewrite <- app_assoc].
Qed.

(** What [json.Marshal] writes for a value decodes to the same value. *)
Lemma decode_encode v : canonical v = true -> decode (encode v) = Some v.
Proof.
  induction v as [|b|f|s|elems IH|entries IH] using value_ind'; try reflexivity.
  - intros _. cbn. by rewrite ParseFloat_FormatFloat.
  - cbn [canonical encode]. intros Hc. rewrite decode_TArray.
    assert (decode_elems (map encode elems) = Some elems) as ->; [|done].
    induction IH as [|v l Hv _ IHl]; [done|].
    cbn [forallb] in Hc. apply andb_true_iff in Hc as [Hcv Hc].
    cbn [map decode_elems]. rewrite (Hv Hcv), (IHl Hc). done.
  - cbn [canonical encode]. intros [Ha Hc]%andb_true_iff. rewrite decode_TObject.
    rewrite (decode_members_encode entries [] IH Hc Ha). done.
Qed.

Lemma decode_members_canonical l :
  Forall (fun kv => forall v, decode kv.2 = Some v -> canonical v = true) l ->
  forall m0 m,
    ascending m0 = true ->
    forallb (fun kv => let '(_, v') := kv in canonical v') m0 = true ->
    decode_members l m0 = Some m ->
    ascending m = true
    /\ forallb (fun kv => let '(_, v') := kv in canonical v') m = true.
Proof.
  induction 1 as [|[k t] l Ht _ IH]; intros m0 m Ha Hc; cbn [decode_members].
  - by intros [= <-].
  - destruct (decode t) as [v|] eqn:Hd; [|done]. cbn. apply IH.
    + by apply put_ascending.
    + apply forallb_put; [|done]. by apply (Ht v).
Qed.

(** What comes out of a document is canonical: keys ascending, each once. *)
Lemma decode_canonical t : forall v, decode t = Some v -> canonical v = true.
Proof.
  induction t as [|b|lit|s|elems IH|members IH] using tree_ind'; intros v.
  - by intros [= <-].
  - by intros [= <-].
  - cbn. destruct (ParseFloat lit); [|done]. by intros [= <-].
  - by intros [= <-].
  - rewrite decode_TArray. destruct (decode_elems elems) as [vs|] eqn:Hd; [|done].
    intros [= <-]. cbn [canonical]. revert vs Hd.
    induction IH as [|t l Ht _ IHl]; intros vs; cbn [decode_elems].
    + by intros [= <-].
    + destruct (decode t) as [v|] eqn:Hv; [|done]. cbn.
      destruct (decode_elems l) as [vs'|]; [|done]. cbn. intros [= <-].
      cbn [forallb]. by rewrite (Ht v), (IHl vs').
  - rewrite decode_TObject. destruct (decode_members members []) as [m|] eqn:Hd; [|done].
    intros [= <-]. cbn [canonical].
    destruct (decode_members_canonical members IH [] m) as [-> ->]; done.
Qed.

End values.




End json_facts.

Module normalizer.
Import json json_facts transport.
Section WithFloat.
Context `{Float64}.

Lemma Unmarshal_map_canonical data m :
  Unmarshal_map data = Some m -> canonical (VObject m) = true.
Proof.
  unfold Unmarshal_map. destruct (parse data) as [[| | | | |members]|]; try done.
  - by intros [= <-].
  - destruct (decode (TObject members)) as [[| | | | |m']|] eqn:Hd; try done.
    intros [= <-]. by apply (decode_canonical _ _ Hd).
Qed.

Lemma Unmarshal_Marshal m text :
  canonical (VObject m) = true -> Marshal_map m = Some text ->
  Unmarshal_map text = Some m.
Proof.
  intros Hc Hm.
  assert (text = string_of_list_ascii (print (encode (VObject m)))) as ->
    by (unfold Marshal_map in Hm; congruence).
  unfold Unmarshal_map.
  rewrite (parse_print _ (encode_well_formed (VObject m))).
  pose proof (decode_encode _ Hc) as Hd. cbn [encode] in Hd |- *.
  by rewrite Hd.
Qed.

Lemma Marshal_empty : Marshal_map [] = Some "{}".
Proof. reflexivity. Qed.

Lemma Unmarshal_empty_text : Unmarshal_map EmptyString = None.
Proof. reflexivity. Qed.

Lemma remove_nulls_from (l2 l1 : list (string * value)) :
  ascending (l1 ++ l2) = true ->
  fold_left
    (fun cleaned kv => if not_nil kv.2 then put kv.1 kv.2 cleaned else cleaned) l2 l1
  = l1 ++ List.filter (fun kv => not_nil kv.2) l2.
Proof.
  revert l1. induction l2 as [|[k v] l2 IH]; intros l1 Ha; cbn [fold_left List.filter fst snd].
  - by rewrite app_nil_r.
  - destruct (not_nil v).
    + rewrite (put_above _ _ _ (ascending_app_below _ _ _ _ Ha)).
      rewrite IH; [by rewrite <- app_assoc|by rewrite <- app_assoc].
    + apply IH. by apply ascending_app_drop in Ha.
Qed.

Lemma remove_nulls_filter (m : list (string * value)) :
  ascending m = true -> remove_nulls m = List.filter (fun kv => not_nil kv.2) m.
Proof. intros Ha. apply (remove_nulls_from m [] Ha). Qed.

Lemma remove_nulls_only_nulls (m : list (string * value)) :
  forallb (fun kv => negb (not_nil kv.2)) m = true -> remove_nulls m = [].
Proof.
  unfold remove_nulls. generalize (@nil (string * value)).
  induction m as [|[k v] m IH]; intros acc; cbn [fold_left forallb fst snd]; [done|].
  intros [Hv Hm]%andb_true_iff. apply negb_true_iff in Hv. rewrite Hv. by apply IH.
Qed.

Lemma remove_nulls_no_nulls (m : list (string * value)) :
  ascending m = true -> forallb (fun kv => not_nil kv.2) m = true -> remove_nulls m = m.
Proof.
  intros Ha Hn. rewrite (remove_nulls_filter _ Ha). by apply forallb_filter_id.
Qed.

Lemma remove_nulls_order (l l' : list (string * value)) :
  l ≡ₚ l' -> NoDup l.*1 ->
  forall acc,
    fold_left (fun cleaned kv => if not_nil kv.2 then put kv.1 kv.2 cleaned else cleaned)
      l acc
    = fold_left (fun cleaned kv => if not_nil kv.2 then put kv.1 kv.2 cleaned else cleaned)
        l' acc.
Proof.
  induction 1 as [|x l l' Hp IH|x y l|l l' l'' Hp IH Hp' IH']; intros Hnd acc.
  - done.
  - cbn [fold_left]. apply IH. cbn in Hnd. by apply NoDup_cons in Hnd as [_ ?].
  - cbn [fold_left]. f_equal.
    cbn in Hnd. apply NoDup_cons in Hnd as [Hy _].
    destruct (not_nil x.2), (not_nil y.2); try done.
    apply put_put. intros Heq. apply Hy. rewrite Heq. by left.
  - rewrite (IH Hnd). apply IH'. by rewrite <- Hp.
Qed.

(** The order in which [range] visits the map does not matter. *)
Lemma remove_nulls_any_order (params visited : list (string * value)) :
  ascending params = true -> params ≡ₚ visited ->
  fold_left (fun cleaned kv => if not_nil kv.2 then put kv.1 kv.2 cleaned else cleaned)
    visited []
  = remove_nulls params.
Proof.
  intros Ha Hp. symmetry. apply (remove_nulls_order _ _ Hp). by apply ascending_NoDup.
Qed.

Lemma length_zero_text (s : string) : (String.length s =? 0)%nat = true -> s = EmptyString.
Proof. destruct s; [done|]. cbn. done. Qed.

Lemma length_zero_list {A : Type} (l : list A) :
  (List.length l =? 0)%nat = true <-> l = [].
Proof. destruct l; cbn; split; done. Qed.

(** C3. A request whose params decode to a map in which every value is
    null (a non-empty map in particular) comes out of [cleanMessage], in each
    of the three transports, with params that are exactly the two bytes of
    the empty object: not the empty string, and the request still has its
    params. Nothing else of the message changes. *)
Theorem cleanMessage_only_nulls (msg : BaseJsonRpcMessage) (req : BaseJSONRPCRequest)
    (params : list (string * value)) :
  JsonRpcRequest msg = Some req ->
  Unmarshal_map (Request_Params req) = Some params ->
  forallb (fun kv => negb (not_nil kv.2)) params = true ->
  CleaningStdioTransport.cleanMessage (Some msg) = Some (set_Params msg req "{}")
  /\ TraditionalSSETransport.cleanMessage (Some msg) = Some (set_Params msg req "{}")
  /\ SSEClientTransport.cleanMessage (Some msg) = Some (set_Params msg req "{}")
  /\ Request_Params <$> JsonRpcRequest (set_Params msg req "{}") = Some "{}".
Proof.
  intros Hreq Hparams Hnull.
  unfold CleaningStdioTransport.cleanMessage, TraditionalSSETransport.cleanMessage,
    SSEClientTransport.cleanMessage.
  rewrite Hreq.
  destruct (String.length (Request_Params req) =? 0)%nat eqn:Hlen.
  { apply length_zero_text in Hlen. rewrite Hlen in Hparams. discriminate Hparams. }
  rewrite Hparams, (remove_nulls_only_nulls _ Hnull). done.
Qed.

(** The branch for an empty map, which only two of the three have, changes
    nothing: marshalling the empty map gives the same two bytes. *)
Lemma cleanMessage_agree (msg : option BaseJsonRpcMessage) :
  CleaningStdioTransport.cleanMessage msg = SSEClientTransport.cleanMessage msg
  /\ TraditionalSSETransport.cleanMessage msg = SSEClientTransport.cleanMessage msg.
Proof.
  assert (CleaningStdioTransport.cleanMessage msg = SSEClientTransport.cleanMessage msg)
    as Hsame; [|by split].
  unfold CleaningStdioTransport.cleanMessage, SSEClientTransport.cleanMessage.
  destruct msg as [m|]; [|done].
  destruct (JsonRpcRequest m) as [req|]; [|done].
  destruct (String.length (Request_Params req) =? 0)%nat; [done|].
  destruct (Unmarshal_map (Request_Params req)) as [params|]; [|done].
  destruct (List.length (remove_nulls params) =? 0)%nat eqn:Hlen; [|done].
  apply length_zero_list in Hlen. rewrite Hlen. done.
Qed.

(** C9. The three [cleanMessage] are the same function. The one of
    [SSEClientTransport] has no branch for a map that is empty after the
    nulls are removed, and still sets the params to the empty object then:
    that is what marshalling the empty map gives. *)
Theorem cleanMessage_same (msg : option BaseJsonRpcMessage) :
  CleaningStdioTransport.cleanMessage msg = SSEClientTransport.cleanMessage msg
  /\ TraditionalSSETransport.cleanMessage msg = SSEClientTransport.cleanMessage msg
  /\ (forall m req params,
        msg = Some m -> JsonRpcRequest m = Some req ->
        Unmarshal_map (Request_Params req) = Some params ->
        remove_nulls params = [] ->
        SSEClientTransport.cleanMessage msg = Some (set_Params m req "{}")).
Proof.
  destruct (cleanMessage_agree msg) as [Hstdio Hsse].
  split; [exact Hstdio|]. split; [exact Hsse|].
  intros m req params -> Hreq Hparams Hcleaned.
  unfold SSEClientTransport.cleanMessage. rewrite Hreq.
  destruct (String.length (Request_Params req) =? 0)%nat eqn:Hlen.
  { apply length_zero_text in Hlen. rewrite Hlen in Hparams. discriminate Hparams. }
  rewrite Hparams, Hcleaned. done.
Qed.

(** C8. A request whose params decode to a map without a null value comes
    out of [cleanMessage], in each of the three transports, with the params
    that [json.Marshal] writes for that map, and these decode to the same
    map again: the same keys, each with the value that was decoded for it.
    What was decoded is kept, not what was written. A number is decoded into
    a float64 and written back as the decimal of that float64, so a number
    that no float64 holds comes back as another number. The text of the
    params may differ as well (order of the keys, white space, the way a
    string is written). *)
Theorem cleanMessage_without_nulls (msg : BaseJsonRpcMessage) (req : BaseJSONRPCRequest)
    (params : list (string * value)) :
  JsonRpcRequest msg = Some req ->
  Unmarshal_map (Request_Params req) = Some params ->
  forallb (fun kv => not_nil kv.2) params = true ->
  exists text,
    Marshal_map params = Some text
    /\ Unmarshal_map text = Some params
    /\ CleaningStdioTransport.cleanMessage (Some msg) = Some (set_Params msg req text)
    /\ SSEClientTransport.cleanMessage (Some msg) = Some (set_Params msg req text)
    /\ TraditionalSSETransport.cleanMessage (Some msg) = Some (set_Params msg req text).
Proof.
  intros Hreq Hparams Hnn.
  pose proof (Unmarshal_map_canonical _ _ Hparams) as Hc.
  assert (ascending params = true) as Ha.
  { cbn [canonical] in Hc. by apply andb_true_iff in Hc as [? _]. }
  destruct (Marshal_map params) as [text|] eqn:Hm; [|done].
  exists text. split; [done|]. split; [by apply Unmarshal_Marshal|].
  destruct (cleanMessage_agree (Some msg)) as [-> ->].
  unfold SSEClientTransport.cleanMessage. rewrite Hreq.
  destruct (String.length (Request_Params req) =? 0)%nat eqn:Hlen.
  { apply length_zero_text in Hlen. rewrite Hlen in Hparams. discriminate Hparams. }
  rewrite Hparams, (remove_nulls_no_nulls _ Ha Hnn), Hm. done.
Qed.

End WithFloat.

(** *** Examples *)

Lemma cleanMessage_only_nulls_witness :
  @CleaningStdioTransport.cleanMessage Z_Float64 (Some (examples.request_with examples.only_nulls))
  = Some (examples.request_with "{}")
  /\ @SSEClientTransport.cleanMessage Z_Float64 (Some (examples.request_with examples.only_nulls))
     = Some (examples.request_with "{}").
Proof.
  destruct (@cleanMessage_only_nulls Z_Float64 (examples.request_with examples.only_nulls)
              {| Request_Id := 1; Request_Jsonrpc := "2.0";
                 Request_Method := "tools/list"; Request_Params := examples.only_nulls |}
              [("after", @VNull Z_Float64); ("cursor", @VNull Z_Float64)])
    as (Hstdio & _ & Hsse & _);
    [reflexivity|vm_compute; reflexivity|reflexivity|].
  split; [exact Hstdio|exact Hsse].
Defined.

Lemma cleanMessage_same_witness :
  @SSEClientTransport.cleanMessage Z_Float64 (Some (examples.request_with examples.only_nulls))
  = Some (examples.request_with "{}").
Proof.
  apply (proj2 (proj2 (@cleanMessage_same Z_Float64
                         (Some (examples.request_with examples.only_nulls))))
           (examples.request_with examples.only_nulls)
           {| Request_Id := 1; Request_Jsonrpc := "2.0";
              Request_Method := "tools/list"; Request_Params := examples.only_nulls |}
           [("after", @VNull Z_Float64); ("cursor", @VNull Z_Float64)]);
    [reflexivity|reflexivity|vm_compute; reflexivity|reflexivity].
Defined.

Lemma cleanMessage_without_nulls_witness :
  exists text,
    @Marshal_map Z_Float64
      [("cursor", @VString Z_Float64 "c<1>"); ("limit", @VNumber Z_Float64 10%Z)]
    = Some text
    /\ @Unmarshal_map Z_Float64 text
       = Some [("cursor", @VString Z_Float64 "c<1>"); ("limit", @VNumber Z_Float64 10%Z)]
    /\ @CleaningStdioTransport.cleanMessage Z_Float64
         (Some (examples.request_with examples.no_nulls))
       = Some (examples.request_with text)
    /\ @SSEClientTransport.cleanMessage Z_Float64
         (Some (examples.request_with examples.no_nulls))
       = Some (examples.request_with text)
    /\ @TraditionalSSETransport.cleanMessage Z_Float64
         (Some (examples.request_with examples.no_nulls))
       = Some (examples.request_with text).
Proof.
  apply (@cleanMessage_without_nulls Z_Float64 (examples.request_with examples.no_nulls)
           {| Request_Id := 1; Request_Jsonrpc := "2.0";
              Request_Method := "tools/list"; Request_Params := examples.no_nulls |}
           [("cursor", @VString Z_Float64 "c<1>"); ("limit", @VNumber Z_Float64 10%Z)]);
    [reflexivity|vm_compute; reflexivity|reflexivity].
Defined.

(** C8, as the claim has it, fails. The params are the object with the one
    member [n], the integer 2^53 + 1: there is no null in it. No float64 is
    2^53 + 1, and [json.Unmarshal] decodes the nearest, 2^53. The claim has
    [cleanMessage] keep the value of [n]. [cleanMessage], in each of the
    three transports, returns the request with 2^53 for [n]. *)
Lemma cleanMessage_rounds_number_counterexample :
  let old := "{" +:+ examples.quoted "n" +:+ ":9007199254740993}" in
  let new := "{" +:+ examples.quoted "n" +:+ ":9007199254740992}" in
  forallb (fun kv => not_nil kv.2) <$> @Unmarshal_map binary64_Float64 old = Some true
  /\ @CleaningStdioTransport.cleanMessage binary64_Float64
       (Some (examples.request_with old))
     = Some (examples.request_with new)
  /\ @SSEClientTransport.cleanMessage binary64_Float64
       (Some (examples.request_with old))
     = Some (examples.request_with new)
  /\ @TraditionalSSETransport.cleanMessage binary64_Float64
       (Some (examples.request_with old))
     = Some (examples.request_with new)
  /\ parse old = Some (TObject [("n", TNumber "9007199254740993")])
  /\ parse new = Some (TObject [("n", TNumber "9007199254740992")])
  /\ Z_ParseFloat "9007199254740993" = Some 9007199254740993%Z
  /\ Z_ParseFloat "9007199254740992" = Some 9007199254740992%Z
  /\ (9007199254740993 <> 9007199254740992)%Z.
Proof.
  cbv zeta. repeat split; try (vm_compute; reflexivity). discriminate.
Qed.

(** What the params of that request become, byte for byte: the keys in
    ascending order, no white space, and the escapes [json.Marshal] uses. *)
Example cleanMessage_no_nulls_text :
  Request_Params <$>
    (@SSEClientTransport.cleanMessage Z_Float64 (Some (examples.request_with examples.no_nulls))
       ≫= JsonRpcRequest)
  = Some ("{" +:+ examples.quoted "cursor" +:+ ":" +:+ examples.quoted "c\u003c1\u003e"
          +:+ "," +:+ examples.quoted "limit" +:+ ":10}").
Proof. vm_compute. reflexivity. Qed.

End normalizer.

Module classifier.
Import transport.
Section WithCodec.
Context `{Codec}.

Lemma accepted_attempt {A : Type} (decoded : option A) (jsonrpc : A -> string)
    (wrap : A -> BaseJsonRpcMessage) :
  wrap <$> accepted decoded jsonrpc
  = match decoded with
    | Some x => if decide (jsonrpc x = EmptyString) then None else Some (wrap x)
    | None => None
    end.
Proof.
  unfold accepted. destruct decoded as [x|]; [|done].
  destruct (String.eqb_spec (jsonrpc x) EmptyString); case_decide; done.
Qed.

Lemma handleJSONResponse_classify (t : SSEClientTransport.state) handler payload :
  SSEClientTransport.messageHandler t = Some handler ->
  SSEClientTransport.handleJSONResponse t payload
  = match spec.classify payload with
    | Some msg => (None, [call_messageHandler handler msg])
    | None => (Some (received_invalid_response payload), [])
    end.
Proof.
  intros Hh. unfold SSEClientTransport.handleJSONResponse, spec.classify. rewrite Hh.
  cbn [spec.first_accepted spec.attempt].
  rewrite <- !accepted_attempt.
  destruct (accepted (UnmarshalResponse payload) _); [done|].
  destruct (accepted (UnmarshalError payload) _); [done|].
  destruct (accepted (UnmarshalNotification payload) _); [done|].
  destruct (accepted (UnmarshalRequest payload) _); done.
Qed.

Lemma handleMessage_classify (t : TraditionalSSETransport.state) handler payload :
  TraditionalSSETransport.messageHandler t = Some handler ->
  TraditionalSSETransport.handleMessage t payload
  = match spec.classify payload with
    | Some msg => [call_messageHandler handler msg]
    | None => []
    end.
Proof.
  intros Hh. unfold TraditionalSSETransport.handleMessage, spec.classify. rewrite Hh.
  cbn [spec.first_accepted spec.attempt].
  rewrite <- !accepted_attempt.
  destruct (accepted (UnmarshalResponse payload) _); [done|].
  destruct (accepted (UnmarshalError payload) _); [done|].
  destruct (accepted (UnmarshalNotification payload) _); [done|].
  destruct (accepted (UnmarshalRequest payload) _); done.
Qed.




End WithCodec.

(** C1. With a message handler registered, [handleJSONResponse] and
    [handleMessage] try the four variants in the order Response, Error,
    Notification, Request and hand the first one that decodes with a
    non-empty version marker to the handler ([spec.classify]); when none
    does, the first returns the error that carries the payload and the second
    drops the payload. With the decoders the specification describes, the
    five payloads of its table classify as Response, Error, Notification,
    Request and as nothing. *)
Theorem classifier_order :
  (forall (C : Codec) (t : SSEClientTransport.state) (t' : TraditionalSSETransport.state)
          (handler : callback) (payload : string),
      SSEClientTransport.handleJSONResponse
        (SSEClientTransport.SetMessageHandler t (Some handler)) payload
      = match spec.classify payload with
        | Some msg => (None, [call_messageHandler handler msg])
        | None => (Some (received_invalid_response payload), [])
        end
      /\ TraditionalSSETransport.handleMessage
           (TraditionalSSETransport.SetMessageHandler t' (Some handler)) payload
         = match spec.classify payload with
           | Some msg => [call_messageHandler handler msg]
           | None => []
           end)
  /\ MessageType <$> @spec.classify library.codec examples.response_payload
     = Some BaseMessageTypeJSONRPCResponseType
  /\ MessageType <$> @spec.classify library.codec examples.error_payload
     = Some BaseMessageTypeJSONRPCErrorType
  /\ MessageType <$> @spec.classify library.codec examples.notification_payload
     = Some BaseMessageTypeJSONRPCNotificationType
  /\ MessageType <$> @spec.classify library.codec examples.request_payload
     = Some BaseMessageTypeJSONRPCRequestType
  /\ @spec.classify library.codec examples.unversioned_payload = None.
Proof.
  split.
  - intros C t t' handler payload. split.
    + by apply handleJSONResponse_classify.
    + by apply handleMessage_classify.
  - repeat split; vm_compute; reflexivity.
Qed.

(** The payloads of the table as the transports see them: what each of the
    two functions does with the notification and with the payload without
    version marker. *)
Example handleJSONResponse_table :
  let t := SSEClientTransport.SetMessageHandler
             (SSEClientTransport.NewSSEClientTransport "https://h/mcp") (Some 1) in
  dispatched (@SSEClientTransport.handleJSONResponse library.codec t
                examples.notification_payload).2
  = [NewBaseMessageNotification
       {| Notification_Jsonrpc := "2.0"; Notification_Method := "ping";
          Notification_Params := EmptyString |}]
  /\ @SSEClientTransport.handleJSONResponse library.codec t examples.unversioned_payload
     = (Some (received_invalid_response examples.unversioned_payload), []).
Proof. split; vm_compute; reflexivity. Qed.

Example handleMessage_table :
  let t := TraditionalSSETransport.SetMessageHandler
             (TraditionalSSETransport.NewTraditionalSSETransport "https://h/sse")
             (Some 1) in
  @TraditionalSSETransport.handleMessage library.codec t examples.unversioned_payload = []
  /\ MessageType <$> dispatched
        (@TraditionalSSETransport.handleMessage library.codec t examples.error_payload)
     = [BaseMessageTypeJSONRPCErrorType].
Proof. split; vm_compute; reflexivity. Qed.

End classifier.

Module streamable.
Import transport json_facts.
Section WithLibraries.
Context `{json.Float64} `{Codec}.

(** *** Without a handler *)

Lemma handleJSONResponse_no_handler (t : SSEClientTransport.state) body :
  SSEClientTransport.messageHandler t = None ->
  SSEClientTransport.handleJSONResponse t body = (None, []).
Proof. intros Hh. unfold SSEClientTransport.handleJSONResponse. by rewrite Hh. Qed.

Lemma loop_no_handler (t : SSEClientTransport.state) lines dataLines :
  SSEClientTransport.messageHandler t = None ->
  exists left, SSEClientTransport.parseSSEResponse_loop t lines dataLines = (inr left, []).
Proof.
  intros Hh. revert dataLines.
  induction lines as [|line lines IH]; intros dataLines; cbn [SSEClientTransport.parseSSEResponse_loop].
  - by eexists.
  - destruct (strings.HasPrefix line "data: "); [apply IH|].
    destruct (String.eqb line EmptyString && (0 <? List.length dataLines)%nat); [|apply IH].
    rewrite (handleJSONResponse_no_handler _ _ Hh).
    destruct (IH []) as [left ->]. by eexists.
Qed.

Lemma parseSSEResponse_no_handler (t : SSEClientTransport.state) reader :
  SSEClientTransport.messageHandler t = None ->
  exists err, SSEClientTransport.parseSSEResponse t reader = (scanner_error <$> err, []).
Proof.
  intros Hh. unfold SSEClientTransport.parseSSEResponse.
  destruct (bufio.ScanLines reader) as [lines scanner_Err].
  destruct (loop_no_handler t lines [] Hh) as [left ->].
  cbn [SSEClientTransport.parseSSEResponse_end].
  destruct (0 <? List.length left)%nat.
  - rewrite (handleJSONResponse_no_handler _ _ Hh). by exists None.
  - by exists scanner_Err.
Qed.

(** C10. On a transport without message handler, [handleJSONResponse]
    returns no error and calls nothing, whatever the body; and [Send] never
    returns the error of a payload that does not classify, and hands no
    message to a handler. *)
Theorem no_handler_no_classification (t : SSEClientTransport.state) :
  SSEClientTransport.messageHandler t = None ->
  (forall body, SSEClientTransport.handleJSONResponse t body = (None, []))
  /\ (forall message net t' err eff,
        SSEClientTransport.Send t message net = (t', err, eff) ->
        (forall body, err <> Some (received_invalid_response body))
        /\ dispatched eff = []).
Proof.
  intros Hh. split; [intros body; by apply handleJSONResponse_no_handler|].
  intros message net t' err eff. unfold SSEClientTransport.Send.
  destruct (MarshalMessage _) as [jsonData|]; [|by intros [= <- <- <-]].
  destruct (http.parses net _); cbn [negb]; [|by intros [= <- <- <-]].
  destruct (http.Do net _) as [cause|resp]; [by intros [= <- <- <-]|].
  set (t1 := if String.eqb _ _ then t else _).
  assert (SSEClientTransport.messageHandler t1 = None) as Hh1.
  { subst t1. by destruct (String.eqb _ _). }
  clearbody t1.
  destruct (http.StatusCode resp =? http.StatusOK)%nat; cbn [negb].
  2:{ destruct (bufio.ReadAll _). by intros [= <- <- <-]. }
  destruct (strings.Contains _ _).
  - destruct (parseSSEResponse_no_handler t1 (http.Response_Body resp) Hh1) as [e ->].
    intros [= <- <- <-]. split; [by destruct e|done].
  - destruct (bufio.ReadAll _) as [body [cause|]]; [by intros [= <- <- <-]|].
    destruct (0 <? String.length body)%nat; [|by intros [= <- <- <-]].
    rewrite (handleJSONResponse_no_handler _ _ Hh1). by intros [= <- <- <-].
Qed.

(** *** The session header *)

Lemma requests_app (e1 e2 : list Effect) :
  requests (e1 ++ e2) = requests e1 ++ requests e2.
Proof. unfold requests. by rewrite omap_app. Qed.

Lemma handleJSONResponse_requests (t : SSEClientTransport.state) body :
  requests (SSEClientTransport.handleJSONResponse t body).2 = [].
Proof.
  unfold SSEClientTransport.handleJSONResponse.
  destruct (SSEClientTransport.messageHandler t); [|done].
  repeat (destruct (accepted _ _); [done|]). done.
Qed.

Lemma loop_requests (t : SSEClientTransport.state) lines dataLines :
  requests (SSEClientTransport.parseSSEResponse_loop t lines dataLines).2 = [].
Proof.
  revert dataLines.
  induction lines as [|line lines IH]; intros dataLines;
    cbn [SSEClientTransport.parseSSEResponse_loop]; [done|].
  destruct (strings.HasPrefix line "data: "); [apply IH|].
  destruct (String.eqb line EmptyString && (0 <? List.length dataLines)%nat); [|apply IH].
  pose proof (handleJSONResponse_requests t (strings.Join dataLines newline)) as Hr.
  destruct (SSEClientTransport.handleJSONResponse t _) as [[err|] eff]; [done|].
  specialize (IH []).
  destruct (SSEClientTransport.parseSSEResponse_loop t lines []) as [r eff'].
  cbn [snd] in *. by rewrite requests_app, Hr, IH.
Qed.

Lemma parseSSEResponse_requests (t : SSEClientTransport.state) reader :
  requests (SSEClientTransport.parseSSEResponse t reader).2 = [].
Proof.
  unfold SSEClientTransport.parseSSEResponse.
  destruct (bufio.ScanLines reader) as [lines scanner_Err].
  pose proof (loop_requests t lines []) as Hl.
  destruct (SSEClientTransport.parseSSEResponse_loop t lines []) as [[err|left] eff];
    cbn [SSEClientTransport.parseSSEResponse_end]; [done|].
  destruct (0 <? List.length left)%nat; [|done].
  pose proof (handleJSONResponse_requests t (strings.Join left newline)) as Hr.
  destruct (SSEClientTransport.handleJSONResponse t _) as [err eff'].
  cbn [snd] in *. by rewrite requests_app, Hl, Hr.
Qed.

(** What [Send] issues and what it remembers. *)
Lemma Send_request (t : SSEClientTransport.state) message net t' err eff :
  SSEClientTransport.Send t message net = (t', err, eff) ->
  (requests eff = [] /\ t' = t)
  \/ exists jsonData,
      requests eff = [SSEClientTransport.request t jsonData]
      /\ match http.Do net (SSEClientTransport.request t jsonData) with
         | inl _ => t' = t
         | inr resp =>
             let sid := http.Header_Get (http.Response_Header resp) "Mcp-Session-Id" in
             t' = if String.eqb sid EmptyString then t
                  else SSEClientTransport.set_sessionID t sid
         end.
Proof.
  unfold SSEClientTransport.Send.
  destruct (MarshalMessage _) as [jsonData|]; [|intros [= <- <- <-]; by left].
  destruct (http.parses net _); cbn [negb]; [|intros [= <- <- <-]; by left].
  intros Hsend. right. exists jsonData.
  destruct (http.Do net _) as [cause|resp]; [by injection Hsend as <- <- <-|].
  cbv zeta. revert Hsend.
  set (t1 := if String.eqb _ _ then t else _). clearbody t1.
  destruct (http.StatusCode resp =? http.StatusOK)%nat; cbn [negb].
  2:{ destruct (bufio.ReadAll _). by intros [= <- <- <-]. }
  destruct (strings.Contains _ _).
  - pose proof (parseSSEResponse_requests t1 (http.Response_Body resp)) as Hr.
    destruct (SSEClientTransport.parseSSEResponse t1 _) as [e eff0].
    intros [= <- <- <-]. split; [|done].
    cbn [snd] in Hr. change (client_Do ?r :: ?e) with ([client_Do r] ++ e).
    rewrite !requests_app, Hr. done.
  - destruct (bufio.ReadAll _) as [body [cause|]]; [by intros [= <- <- <-]|].
    destruct (0 <? String.length body)%nat; [|by intros [= <- <- <-]].
    pose proof (handleJSONResponse_requests t1 body) as Hr.
    destruct (SSEClientTransport.handleJSONResponse t1 body) as [e eff0].
    intros [= <- <- <-]. split; [|done].
    cbn [snd] in Hr. change (client_Do ?r :: ?e) with ([client_Do r] ++ e).
    rewrite !requests_app, Hr. done.
Qed.

Lemma set_headers_other (h : gmap string string) (headers : list (string * string)) k :
  forallb (fun kv => negb (String.eqb (http.CanonicalHeaderKey kv.1) k)) headers = true ->
  set_headers h headers !! k = h !! k.
Proof.
  unfold set_headers. revert h.
  induction headers as [|[k' v'] headers IH]; intros h; cbn [fold_left forallb]; [done|].
  intros [Hk Hrest]%andb_true_iff. rewrite (IH _ Hrest).
  unfold http.Header_Set. cbn [fst snd] in *.
  apply negb_true_iff, String.eqb_neq in Hk. by rewrite lookup_insert_ne.
Qed.

Lemma request_session (t : SSEClientTransport.state) jsonData :
  String.eqb (SSEClientTransport.sessionID t) EmptyString = false ->
  http.Header_Get (http.Header (SSEClientTransport.request t jsonData)) "Mcp-Session-Id"
  = SSEClientTransport.sessionID t.
Proof.
  intros Hs. unfold SSEClientTransport.request. cbn [http.Header]. rewrite Hs.
  unfold http.Header_Get, http.Header_Set. by rewrite lookup_insert_eq.
Qed.

Lemma request_no_session (t : SSEClientTransport.state) jsonData :
  SSEClientTransport.sessionID t = EmptyString ->
  forallb (fun kv => negb (String.eqb (http.CanonicalHeaderKey kv.1) "Mcp-Session-Id"))
    (SSEClientTransport.headers t) = true ->
  http.Header (SSEClientTransport.request t jsonData) !! "Mcp-Session-Id" = None.
Proof.
  intros Hs Hh. unfold SSEClientTransport.request. cbn [http.Header].
  rewrite Hs. cbn [String.eqb]. rewrite (set_headers_other _ _ _ Hh).
  unfold http.Header_Set. rewrite !lookup_insert_ne by (vm_compute; congruence).
  done.
Qed.

(** C4. When the response to a [Send] carries a non-empty [Mcp-Session-Id]
    header, the transport holds that value afterwards, and the request of
    the next [Send] on a transport that holds it carries it in its
    [Mcp-Session-Id] header. A transport that holds no session ID, and whose
    caller-supplied headers do not name that header, sends requests without
    it; a transport fresh from [NewSSEClientTransport] is one. *)
Theorem session_id_replayed :
  (forall (t : SSEClientTransport.state) message net t1 err eff req resp,
      SSEClientTransport.Send t message net = (t1, err, eff) ->
      requests eff = [req] ->
      http.Do net req = inr resp ->
      String.eqb (http.Header_Get (http.Response_Header resp) "Mcp-Session-Id")
        EmptyString = false ->
      SSEClientTransport.sessionID t1
      = http.Header_Get (http.Response_Header resp) "Mcp-Session-Id"
      /\ forall t2 message' net' t3 err' eff' req',
          SSEClientTransport.sessionID t2 = SSEClientTransport.sessionID t1 ->
          SSEClientTransport.Send t2 message' net' = (t3, err', eff') ->
          requests eff' = [req'] ->
          http.Header_Get (http.Header req') "Mcp-Session-Id"
          = http.Header_Get (http.Response_Header resp) "Mcp-Session-Id")
  /\ (forall (t : SSEClientTransport.state) message net t1 err eff req,
      SSEClientTransport.sessionID t = EmptyString ->
      forallb (fun kv => negb (String.eqb (http.CanonicalHeaderKey kv.1) "Mcp-Session-Id"))
        (SSEClientTransport.headers t) = true ->
      SSEClientTransport.Send t message net = (t1, err, eff) ->
      requests eff = [req] ->
      http.Header req !! "Mcp-Session-Id" = None)
  /\ (forall baseURL,
      SSEClientTransport.sessionID (SSEClientTransport.NewSSEClientTransport baseURL)
      = EmptyString
      /\ SSEClientTransport.headers (SSEClientTransport.NewSSEClientTransport baseURL) = []).
Proof.
  split; [|split; [|done]].
  - intros t message net t1 err eff req resp Hsend Hreq Hresp Hsid.
    apply Send_request in Hsend as [[Hnone _]|(jsonData & Hreq1 & Hdo)];
      [by rewrite Hnone in Hreq|].
    rewrite Hreq in Hreq1. injection Hreq1 as ->.
    rewrite Hresp in Hdo. cbv zeta in Hdo. rewrite Hsid in Hdo. subst t1.
    split; [done|].
    intros t2 message' net' t3 err' eff' req' Hsame Hsend' Hreq'.
    cbn [SSEClientTransport.set_sessionID SSEClientTransport.sessionID] in Hsame.
    apply Send_request in Hsend' as [[Hnone _]|(jsonData' & Hreq1 & _)];
      [by rewrite Hnone in Hreq'|].
    rewrite Hreq' in Hreq1. injection Hreq1 as ->.
    rewrite request_session; [done|]. by rewrite Hsame.
  - intros t message net t1 err eff req Hs Hh Hsend Hreq.
    apply Send_request in Hsend as [[Hnone _]|(jsonData & Hreq1 & _)];
      [by rewrite Hnone in Hreq|].
    rewrite Hreq in Hreq1. injection Hreq1 as ->. by apply request_no_session.
Qed.

(** *** The events of a body *)

Lemma parseSSEResponse_end_prefix t scanner_Err r eff0 :
  SSEClientTransport.parseSSEResponse_end t scanner_Err (r.1, eff0 ++ r.2)
  = ((SSEClientTransport.parseSSEResponse_end t scanner_Err r).1, eff0 ++ (SSEClientTransport.parseSSEResponse_end t scanner_Err r).2).
Proof.
  destruct r as [[err|left] eff]; cbn [SSEClientTransport.parseSSEResponse_end fst snd]; [done|].
  destruct (0 <? List.length left)%nat; [|done].
  destruct (SSEClientTransport.handleJSONResponse t _) as [err eff'].
  cbn [fst snd]. by rewrite app_assoc.
Qed.

Lemma loop_events (t : SSEClientTransport.state) handler scanner_Err lines dataLines :
  SSEClientTransport.messageHandler t = Some handler ->
  SSEClientTransport.parseSSEResponse_end t scanner_Err (SSEClientTransport.parseSSEResponse_loop t lines dataLines)
  = let '(err, eff) := spec.dispatch handler (spec.events lines dataLines) in
    (match err with
     | Some e => Some e
     | None =>
         if spec.pending lines dataLines then None else scanner_error <$> scanner_Err
     end, eff).
Proof.
  intros Hh. revert dataLines.
  induction lines as [|line lines IH]; intros dataLines;
    cbn [SSEClientTransport.parseSSEResponse_loop spec.events spec.pending].
  - cbn [SSEClientTransport.parseSSEResponse_end]. destruct dataLines as [|d dataLines]; [done|].
    cbn [List.length Nat.ltb Nat.leb spec.dispatch].
    rewrite (classifier.handleJSONResponse_classify _ _ _ Hh).
    by destruct (spec.classify _).
  - destruct (strings.HasPrefix line "data: "); [apply IH|].
    destruct line as [|c line]; [|apply IH].
    destruct dataLines as [|d dataLines]; [apply IH|].
    cbn [String.eqb List.length Nat.ltb Nat.leb andb spec.dispatch].
    rewrite (classifier.handleJSONResponse_classify _ _ _ Hh).
    destruct (spec.classify _) as [msg|]; [|done].
    specialize (IH []).
    destruct (SSEClientTransport.parseSSEResponse_loop t lines []) as [r eff'].
    change (SSEClientTransport.parseSSEResponse_end t scanner_Err (r, [call_messageHandler handler msg] ++ eff'))
      with (SSEClientTransport.parseSSEResponse_end t scanner_Err ((r, eff').1, [call_messageHandler handler msg] ++ (r, eff').2)).
    rewrite parseSSEResponse_end_prefix, IH.
    by destruct (spec.dispatch handler (spec.events lines [])) as [[e|] eff''].
Qed.

Lemma parseSSEResponse_events (t : SSEClientTransport.state) handler reader :
  SSEClientTransport.messageHandler t = Some handler ->
  SSEClientTransport.parseSSEResponse t reader
  = let '(lines, scanner_Err) := bufio.ScanLines reader in
    let '(err, eff) := spec.dispatch handler (spec.events lines []) in
    (match err with
     | Some e => Some e
     | None => if spec.pending lines [] then None else scanner_error <$> scanner_Err
     end, eff).
Proof.
  intros Hh. unfold SSEClientTransport.parseSSEResponse.
  destruct (bufio.ScanLines reader) as [lines scanner_Err].
  apply (loop_events t handler scanner_Err lines [] Hh).
Qed.
Lemma dispatch_stops handler (good : list string) bad rest :
  forallb spec.classifies good = true ->
  spec.classifies bad = false ->
  spec.dispatch handler (good ++ bad :: rest)
  = (Some (received_invalid_response bad),
     call_messageHandler handler <$> omap spec.classify good).
Proof.
  unfold spec.classifies. intros Hgood Hbad.
  induction good as [|payload good IH]; cbn [app spec.dispatch].
  - by destruct (spec.classify bad).
  - cbn [forallb] in Hgood. apply andb_true_iff in Hgood as [Hmsg Hgood].
    cbn [omap list_omap].
    destruct (spec.classify payload) as [msg|]; [|done]. by rewrite (IH Hgood).
Qed.

(** C2, as the code has it. On a transport with a message handler, when the
    body of an event-stream response has an event whose payload matches no
    message shape, [Send] hands the events before it to the handler, in
    order, and returns the error that carries that payload; it goes no
    further in the body. *)
Theorem Send_stops_at_invalid_event (t : SSEClientTransport.state) handler message net
    jsonData resp lines scanner_Err (good : list string) bad rest :
  SSEClientTransport.messageHandler t = Some handler ->
  MarshalMessage (SSEClientTransport.cleanMessage message) = Some jsonData ->
  http.parses net (SSEClientTransport.baseURL t) = true ->
  http.Do net (SSEClientTransport.request t jsonData) = inr resp ->
  http.StatusCode resp = http.StatusOK ->
  strings.Contains (http.Header_Get (http.Response_Header resp) "Content-Type")
    "text/event-stream" = true ->
  bufio.ScanLines (http.Response_Body resp) = (lines, scanner_Err) ->
  spec.events lines [] = good ++ bad :: rest ->
  forallb spec.classifies good = true ->
  spec.classifies bad = false ->
  exists t',
    SSEClientTransport.Send t message net
    = (t', Some (received_invalid_response bad),
       client_Do (SSEClientTransport.request t jsonData)
         :: (call_messageHandler handler <$> omap spec.classify good) ++ [Body_Close]).
Proof.
  intros Hh Hm Hurl Hdo Hstatus Hct Hscan Hev Hgood Hbad.
  unfold SSEClientTransport.Send. rewrite Hm, Hurl. cbn [negb]. rewrite Hdo, Hstatus.
  rewrite Nat.eqb_refl. cbn [negb]. rewrite Hct.
  set (t1 := if String.eqb _ _ then t else _).
  assert (SSEClientTransport.messageHandler t1 = Some handler) as Hh1.
  { subst t1. by destruct (String.eqb _ _). }
  rewrite (parseSSEResponse_events t1 handler _ Hh1), Hscan, Hev.
  rewrite (dispatch_stops handler good bad rest Hgood Hbad).
  by exists t1.
Qed.

End WithLibraries.

(** *** Examples *)

(** C2, as the claim has it, fails. The body has two events: [oops], which
    matches no message shape, and then a well-formed response. The claim has
    [Send] return no error and hand the response to the handler. [Send]
    returns an error and hands nothing to the handler. *)
Lemma Send_invalid_event_counterexample :
  spec.events (bufio.ScanLines
                 {| bufio.content := examples.two_events; bufio.failure := None |}).1 []
  = ["oops"; examples.response_payload]
  /\ @spec.classifies library.codec "oops" = false
  /\ @spec.classifies library.codec examples.response_payload = true
  /\ examples.two_events_Send.1.2 = Some (received_invalid_response "oops")
  /\ dispatched examples.two_events_Send.2 = [].
Proof. repeat split; vm_compute; reflexivity. Qed.

Lemma Send_stops_at_invalid_event_witness :
  exists t',
    @SSEClientTransport.Send Z_Float64 library.codec examples.listening examples.ping
      (examples.server 200 [("Content-Type", "text/event-stream")] examples.three_events)
    = (t', Some (received_invalid_response "oops"),
       client_Do (SSEClientTransport.request examples.listening examples.ping_text)
         :: (call_messageHandler 1 <$>
               omap (@spec.classify library.codec) [examples.response_payload])
         ++ [Body_Close]).
Proof.
  eapply (@Send_stops_at_invalid_event Z_Float64 library.codec examples.listening 1
            examples.ping
            (examples.server 200 [("Content-Type", "text/event-stream")]
               examples.three_events)
            _ _ _ _ [examples.response_payload] "oops" [examples.response_payload]);
    [reflexivity|reflexivity|reflexivity|reflexivity|reflexivity
    |vm_compute; reflexivity|vm_compute; reflexivity|vm_compute; reflexivity
    |vm_compute; reflexivity|vm_compute; reflexivity].
Defined.

Lemma no_handler_no_classification_witness :
  @SSEClientTransport.handleJSONResponse library.codec
    (SSEClientTransport.NewSSEClientTransport "https://h/mcp") "oops"
  = (None, [])
  /\ (forall body, examples.unexpected_Send.1.2 <> Some (received_invalid_response body))
  /\ dispatched examples.unexpected_Send.2 = [].
Proof.
  destruct (@no_handler_no_classification Z_Float64 library.codec
              (SSEClientTransport.NewSSEClientTransport "https://h/mcp") eq_refl)
    as [Hhandle Hsend].
  split; [apply Hhandle|].
  apply (Hsend examples.ping examples.unexpected
           examples.unexpected_Send.1.1 examples.unexpected_Send.1.2
           examples.unexpected_Send.2).
  vm_compute. reflexivity.
Defined.

(** With a handler the same exchange ends in the error. *)
Example unexpected_with_handler :
  (@SSEClientTransport.Send Z_Float64 library.codec examples.listening examples.ping
     examples.unexpected).1.2
  = Some (received_invalid_response "oops").
Proof. vm_compute. reflexivity. Qed.

Lemma session_id_replayed_witness :
  SSEClientTransport.sessionID examples.first_Send.1.1
  = http.Header_Get (http.Response_Header examples.session_response) "Mcp-Session-Id"
  /\ http.Header_Get
       (http.Header (SSEClientTransport.request examples.first_Send.1.1 examples.ping_text))
       "Mcp-Session-Id"
     = http.Header_Get (http.Response_Header examples.session_response) "Mcp-Session-Id"
  /\ http.Header (SSEClientTransport.request examples.listening examples.ping_text)
       !! "Mcp-Session-Id"
     = None.
Proof.
  destruct (@session_id_replayed Z_Float64 library.codec) as (Hkeep & Hfresh & _).
  destruct (Hkeep examples.listening examples.ping examples.with_session
              examples.first_Send.1.1 examples.first_Send.1.2 examples.first_Send.2
              (SSEClientTransport.request examples.listening examples.ping_text)
              examples.session_response)
    as [Hsid Hnext];
    [vm_compute; reflexivity|vm_compute; reflexivity|reflexivity
    |vm_compute; reflexivity|].
  split; [exact Hsid|]. split.
  - apply (Hnext examples.first_Send.1.1 examples.ping examples.without_session
             examples.second_Send.1.1 examples.second_Send.1.2 examples.second_Send.2);
      [reflexivity|vm_compute; reflexivity|vm_compute; reflexivity].
  - apply (Hfresh examples.listening examples.ping examples.with_session
             examples.first_Send.1.1 examples.first_Send.1.2 examples.first_Send.2);
      [reflexivity|reflexivity|vm_compute; reflexivity|vm_compute; reflexivity].
Defined.

(** The two calls: the first request has no session header, the transport
    then holds the ID of the response, and the second request carries it. *)
Example two_Sends :
  (fun req => http.Header req !! "Mcp-Session-Id") <$> requests examples.first_Send.2
  = [None]
  /\ SSEClientTransport.sessionID examples.first_Send.1.1 = "s-42"
  /\ (fun req => http.Header req !! "Mcp-Session-Id") <$> requests examples.second_Send.2
     = [Some "s-42"].
Proof. repeat split; vm_compute; reflexivity. Qed.

End streamable.

Module discovery.
Import transport json_facts.

(** C5. With the stream at [https://h/sse], the endpoint [/msg] resolves to
    [https://h/msg] and so does the endpoint [msg]; an endpoint that starts
    with [http://] or [https://] is returned as it is, whatever the stream
    URL. *)
Theorem resolveEndpoint_cases :
  (forall t : TraditionalSSETransport.state,
      TraditionalSSETransport.sseURL t = "https://h/sse" ->
      TraditionalSSETransport.resolveEndpoint t "/msg" = "https://h/msg"
      /\ TraditionalSSETransport.resolveEndpoint t "msg" = "https://h/msg")
  /\ (forall (t : TraditionalSSETransport.state) (endpoint : string),
      strings.HasPrefix endpoint "http://" || strings.HasPrefix endpoint "https://" = true ->
      TraditionalSSETransport.resolveEndpoint t endpoint = endpoint).
Proof.
  split.
  - intros t Hurl. unfold TraditionalSSETransport.resolveEndpoint. rewrite Hurl.
    split; reflexivity.
  - intros t endpoint Habs. unfold TraditionalSSETransport.resolveEndpoint.
    by rewrite Habs.
Qed.

Lemma resolveEndpoint_cases_witness :
  TraditionalSSETransport.resolveEndpoint
    (TraditionalSSETransport.NewTraditionalSSETransport "https://h/sse") "/msg"
  = "https://h/msg"
  /\ TraditionalSSETransport.resolveEndpoint
       (TraditionalSSETransport.NewTraditionalSSETransport "https://h/sse") "msg"
     = "https://h/msg"
  /\ TraditionalSSETransport.resolveEndpoint
       (TraditionalSSETransport.NewTraditionalSSETransport "https://h/sse")
       "https://other/x"
     = "https://other/x".
Proof.
  split; [|split].
  - apply (proj1 resolveEndpoint_cases
             (TraditionalSSETransport.NewTraditionalSSETransport "https://h/sse")).
    reflexivity.
  - apply (proj1 resolveEndpoint_cases
             (TraditionalSSETransport.NewTraditionalSSETransport "https://h/sse")).
    reflexivity.
  - apply (proj2 resolveEndpoint_cases). reflexivity.
Defined.

Section WithLibraries.
Context `{json.Float64} `{Codec}.

(** C6. On a transport whose [postEndpoint] is empty, [Send] returns the
    error "transport not started or endpoint not received" and has no
    effect: no request is issued. [Send] is a total function: there is no
    input on which it does anything else than return. *)
Theorem Send_before_endpoint (t : TraditionalSSETransport.state)
    (message : option BaseJsonRpcMessage) (net : http.Network) :
  TraditionalSSETransport.postEndpoint t = EmptyString ->
  TraditionalSSETransport.Send t message net
  = (Some transport_not_started_or_endpoint_not_received, []).
Proof.
  intros Hp. unfold TraditionalSSETransport.Send. by rewrite Hp.
Qed.

Lemma Start_started (t : TraditionalSSETransport.state) ctx net t1 eff background :
  TraditionalSSETransport.Start t ctx net
  = (t1, TraditionalSSETransport.Returns None, eff, background) ->
  TraditionalSSETransport.started t1 = true
  /\ (TraditionalSSETransport.started t = false ->
      eff = [client_Do (TraditionalSSETransport.get_request t)]).
Proof.
  unfold TraditionalSSETransport.Start.
  destruct (TraditionalSSETransport.started t) eqn:Hs.
  { intros [= <- <- <-]. done. }
  destruct (http.parses net _); [|done]. cbn [negb].
  destruct (http.Do net _) as [cause|resp]; [done|].
  destruct (http.StatusCode resp =? http.StatusOK)%nat; cbn [negb].
  2:{ destruct (bufio.ReadAll _). done. }
  destruct (strings.Contains _ _); [|done]. cbn [negb].
  destruct (TraditionalSSETransport.readSSEEvents _ _ _) as [[endpointCh errCh] bg].
  destruct (TraditionalSSETransport.ctx_Err ctx) as [cause|],
    (TraditionalSSETransport.ctx_Done_first ctx), endpointCh, errCh;
    try done; by intros [= <- <- <-].
Qed.

Lemma Start_when_started (t : TraditionalSSETransport.state) ctx net :
  TraditionalSSETransport.started t = true ->
  TraditionalSSETransport.Start t ctx net
  = (t, TraditionalSSETransport.Returns None, [], []).
Proof. intros Hs. unfold TraditionalSSETransport.Start. by rewrite Hs. Qed.

(** C7. After a [Start] that returned success, every further [Start]
    returns success, has no effect (no GET is issued, no goroutine is left
    behind) and leaves the transport as it is; and so does [Start] on any
    transport whose [started] flag is set. The first [Start], on a transport
    that had not been started, issued one GET. *)
Theorem Start_idempotent (t : TraditionalSSETransport.state) ctx net t1 eff background
    (calls : list (TraditionalSSETransport.Context * http.Network)) :
  TraditionalSSETransport.Start t ctx net
  = (t1, TraditionalSSETransport.Returns None, eff, background) ->
  TraditionalSSETransport.Start_again t1 calls
  = (t1, map (fun _ => (TraditionalSSETransport.Returns None, [], [])) calls)
  /\ (TraditionalSSETransport.started t = false ->
      requests eff = [TraditionalSSETransport.get_request t])
  /\ (forall t2 ctx2 net2,
      TraditionalSSETransport.started t2 = true ->
      TraditionalSSETransport.Start t2 ctx2 net2
      = (t2, TraditionalSSETransport.Returns None, [], [])).
Proof.
  intros [Hs Heff]%Start_started. split; [|split].
  - induction calls as [|[ctx' net'] calls IH]; [done|].
    cbn [TraditionalSSETransport.Start_again map].
    rewrite (Start_when_started _ _ _ Hs), IH. done.
  - intros Hf. by rewrite (Heff Hf).
  - intros t2 ctx2 net2. apply Start_when_started.
Qed.

End WithLibraries.

(** *** Examples *)

(** The first [Start]: success, the endpoint resolved, one GET, and behind
    it the reader that hands the response to the handler. *)
Example first_Start_result :
  examples.first_Start.1.1.2 = TraditionalSSETransport.Returns None
  /\ TraditionalSSETransport.postEndpoint examples.first_Start.1.1.1 = "https://h/rpc"
  /\ List.length (requests examples.first_Start.1.2) = 1
  /\ MessageType <$> dispatched examples.first_Start.2
     = [BaseMessageTypeJSONRPCResponseType].
Proof. repeat split; vm_compute; reflexivity. Qed.

Lemma Start_idempotent_witness :
  @TraditionalSSETransport.Start_again library.codec examples.first_Start.1.1.1
    [(examples.patient, examples.stream); (examples.patient, examples.stream)]
  = (examples.first_Start.1.1.1,
     [(TraditionalSSETransport.Returns None, [], []);
      (TraditionalSSETransport.Returns None, [], [])]).
Proof.
  apply (@Start_idempotent library.codec examples.unstarted examples.patient
           examples.stream examples.first_Start.1.1.1 examples.first_Start.1.2
           examples.first_Start.2).
  vm_compute. reflexivity.
Defined.

Lemma Send_before_endpoint_witness :
  @TraditionalSSETransport.Send Z_Float64 library.codec examples.unstarted
    examples.ping examples.stream
  = (Some transport_not_started_or_endpoint_not_received, []).
Proof.
  apply (@Send_before_endpoint Z_Float64 library.codec). reflexivity.
Defined.

End discovery.

Module cleaning.
Import json json_facts transport.
Section WithFloat.
Context `{Float64}.

Lemma ascending_filter {A : Type} (P : string * A -> bool) (m : list (string * A)) :
  ascending m = true -> ascending (List.filter P m) = true.
Proof.
  induction m as [|[k v] m IH]; [done|].
  cbn [ascending List.filter]. intros [Hk Hm]%andb_true_iff.
  destruct (P (k, v)); [|by apply IH].
  cbn [ascending]. rewrite (IH Hm), andb_true_r.
  rewrite forallb_forall in Hk |- *. intros kv [Hin _]%filter_In. by apply Hk.
Qed.

Lemma forallb_filter (A : Type) (P Q : A -> bool) (l : list A) :
  forallb Q l = true -> forallb Q (List.filter P l) = true.
Proof.
  rewrite !forallb_forall. intros HQ x [Hin _]%filter_In. by apply HQ.
Qed.

Lemma forallb_filter_self (A : Type) (P : A -> bool) (l : list A) :
  forallb P (List.filter P l) = true.
Proof. rewrite forallb_forall. by intros x [_ HP]%filter_In. Qed.

(** What is left of a decoded map is a map as [json.Unmarshal] builds them. *)
Lemma canonical_without_nulls (params : list (string * value)) :
  canonical (VObject params) = true ->
  canonical (VObject (List.filter (fun kv => not_nil kv.2) params)) = true.
Proof.
  cbn [canonical]. intros [Ha Hc]%andb_true_iff.
  by rewrite (ascending_filter _ _ Ha), (forallb_filter _ _ _ _ Hc).
Qed.

(** The message [SSEClientTransport.cleanMessage] returns for a request
    whose params decode, with the text of the new params. *)
Lemma cleanMessage_decoded (msg : BaseJsonRpcMessage) (req : BaseJSONRPCRequest)
    (params : list (string * value)) :
  JsonRpcRequest msg = Some req ->
  Unmarshal_map (Request_Params req) = Some params ->
  exists text,
    Marshal_map (List.filter (fun kv => not_nil kv.2) params) = Some text
    /\ Unmarshal_map text = Some (List.filter (fun kv => not_nil kv.2) params)
    /\ SSEClientTransport.cleanMessage (Some msg) = Some (set_Params msg req text).
Proof.
  intros Hreq Hparams.
  pose proof (normalizer.Unmarshal_map_canonical _ _ Hparams) as Hc.
  assert (ascending params = true) as Ha.
  { cbn [canonical] in Hc. by apply andb_true_iff in Hc as [? _]. }
  destruct (Marshal_map (List.filter (fun kv => not_nil kv.2) params)) as [text|] eqn:Hm;
    [|done].
  exists text. split; [done|]. split.
  - apply normalizer.Unmarshal_Marshal; [by apply canonical_without_nulls|done].
  - unfold SSEClientTransport.cleanMessage. rewrite Hreq.
    destruct (String.length (Request_Params req) =? 0)%nat eqn:Hlen.
    { apply normalizer.length_zero_text in Hlen. rewrite Hlen in Hparams.
      discriminate Hparams. }
    by rewrite Hparams, (normalizer.remove_nulls_filter _ Ha), Hm.
Qed.

(** X1. [cleanMessage] drops the null entries of the params and nothing else.
    For a request whose params decode to a map, the new params decode to
    that map without the entries whose value is null: the other keys are
    all there, with the value they had. Nulls inside a value stay. The same
    in the three transports. *)
Theorem cleanMessage_drops_null_entries (msg : BaseJsonRpcMessage)
    (req : BaseJSONRPCRequest) (params : list (string * value)) :
  JsonRpcRequest msg = Some req ->
  Unmarshal_map (Request_Params req) = Some params ->
  exists text,
    Unmarshal_map text = Some (List.filter (fun kv => not_nil kv.2) params)
    /\ CleaningStdioTransport.cleanMessage (Some msg) = Some (set_Params msg req text)
    /\ SSEClientTransport.cleanMessage (Some msg) = Some (set_Params msg req text)
    /\ TraditionalSSETransport.cleanMessage (Some msg) = Some (set_Params msg req text).
Proof.
  intros Hreq Hparams.
  destruct (cleanMessage_decoded msg req params Hreq Hparams) as (text & _ & Hu & Hc).
  exists text. split; [done|].
  destruct (normalizer.cleanMessage_agree (Some msg)) as [-> ->]. done.
Qed.

Lemma cleanMessage_twice (msg : option BaseJsonRpcMessage) :
  SSEClientTransport.cleanMessage (SSEClientTransport.cleanMessage msg)
  = SSEClientTransport.cleanMessage msg.
Proof.
  destruct msg as [m|]; [|done].
  destruct (JsonRpcRequest m) as [req|] eqn:Hreq.
  2:{ unfold SSEClientTransport.cleanMessage at 2. rewrite Hreq.
      unfold SSEClientTransport.cleanMessage. by rewrite Hreq. }
  destruct (Unmarshal_map (Request_Params req)) as [params|] eqn:Hparams.
  2:{ assert (SSEClientTransport.cleanMessage (Some m) = Some m) as ->; [|].
      { unfold SSEClientTransport.cleanMessage. rewrite Hreq, Hparams.
        by destruct (String.length _ =? 0)%nat. }
      unfold SSEClientTransport.cleanMessage. rewrite Hreq, Hparams.
      by destruct (String.length _ =? 0)%nat. }
  destruct (cleanMessage_decoded m req params Hreq Hparams) as (text & Hm & Hu & ->).
  pose proof (normalizer.Unmarshal_map_canonical _ _ Hu) as Hc.
  assert (ascending (List.filter (fun kv => not_nil kv.2) params) = true) as Ha.
  { cbn [canonical] in Hc. by apply andb_true_iff in Hc as [? _]. }
  unfold SSEClientTransport.cleanMessage. cbn [set_Params JsonRpcRequest Request_Params].
  destruct (String.length text =? 0)%nat eqn:Hlen.
  { apply normalizer.length_zero_text in Hlen. rewrite Hlen in Hu. discriminate Hu. }
  rewrite Hu.
  rewrite (normalizer.remove_nulls_no_nulls _ Ha (forallb_filter_self _ _ _)), Hm.
  reflexivity.
Qed.

(** X2. [cleanMessage] is idempotent: a message that went through it comes out
    unchanged of a second pass, byte for byte. So a [Send] of the cleaned
    message does what the [Send] of the message does, in each of the three
    transports. *)
Theorem cleanMessage_idempotent `{Codec} (msg : option BaseJsonRpcMessage) :
  CleaningStdioTransport.cleanMessage (CleaningStdioTransport.cleanMessage msg)
  = CleaningStdioTransport.cleanMessage msg
  /\ SSEClientTransport.cleanMessage (SSEClientTransport.cleanMessage msg)
     = SSEClientTransport.cleanMessage msg
  /\ TraditionalSSETransport.cleanMessage (TraditionalSSETransport.cleanMessage msg)
     = TraditionalSSETransport.cleanMessage msg
  /\ (forall t, CleaningStdioTransport.Send t (CleaningStdioTransport.cleanMessage msg)
                = CleaningStdioTransport.Send t msg)
  /\ (forall t net, SSEClientTransport.Send t (SSEClientTransport.cleanMessage msg) net
                    = SSEClientTransport.Send t msg net)
  /\ (forall t net,
        TraditionalSSETransport.Send t (TraditionalSSETransport.cleanMessage msg) net
        = TraditionalSSETransport.Send t msg net).
Proof.
  assert (forall m, CleaningStdioTransport.cleanMessage (CleaningStdioTransport.cleanMessage m)
                    = CleaningStdioTransport.cleanMessage m) as Hstdio.
  { intros m. rewrite !(proj1 (normalizer.cleanMessage_agree _)). apply cleanMessage_twice. }
  assert (forall m, TraditionalSSETransport.cleanMessage
                      (TraditionalSSETransport.cleanMessage m)
                    = TraditionalSSETransport.cleanMessage m) as Hsse.
  { intros m. rewrite !(proj2 (normalizer.cleanMessage_agree _)). apply cleanMessage_twice. }
  split; [apply Hstdio|]. split; [apply cleanMessage_twice|]. split; [apply Hsse|].
  split; [|split].
  - intros t. unfold CleaningStdioTransport.Send. by rewrite Hstdio.
  - intros t net. unfold SSEClientTransport.Send. by rewrite cleanMessage_twice.
  - intros t net. unfold TraditionalSSETransport.Send. by rewrite Hsse.
Qed.

(** X3. [cleanMessage] changes nothing but the params of a request. A nil
    message stays nil; a message that is no request comes back as it is
    (the params of a notification keep their nulls); and of a request, the
    tag, the other three variants, the id, the version marker and the method
    are what they were. *)
Theorem cleanMessage_keeps_the_rest (msg : BaseJsonRpcMessage) :
  SSEClientTransport.cleanMessage None = None
  /\ (JsonRpcRequest msg = None -> SSEClientTransport.cleanMessage (Some msg) = Some msg)
  /\ exists msg',
      SSEClientTransport.cleanMessage (Some msg) = Some msg'
      /\ CleaningStdioTransport.cleanMessage (Some msg) = Some msg'
      /\ TraditionalSSETransport.cleanMessage (Some msg) = Some msg'
      /\ MessageType msg' = MessageType msg
      /\ JsonRpcNotification msg' = JsonRpcNotification msg
      /\ JsonRpcResponse msg' = JsonRpcResponse msg
      /\ JsonRpcError msg' = JsonRpcError msg
      /\ Request_Id <$> JsonRpcRequest msg' = Request_Id <$> JsonRpcRequest msg
      /\ Request_Jsonrpc <$> JsonRpcRequest msg' = Request_Jsonrpc <$> JsonRpcRequest msg
      /\ Request_Method <$> JsonRpcRequest msg' = Request_Method <$> JsonRpcRequest msg.
Proof.
  split; [done|]. split.
  { intros Hreq. unfold SSEClientTransport.cleanMessage. by rewrite Hreq. }
  destruct (normalizer.cleanMessage_agree (Some msg)) as [-> ->].
  unfold SSEClientTransport.cleanMessage.
  destruct (JsonRpcRequest msg) as [req|] eqn:Hreq.
  2:{ exists msg. by rewrite Hreq. }
  destruct (String.length (Request_Params req) =? 0)%nat.
  { exists msg. by rewrite Hreq. }
  destruct (Unmarshal_map (Request_Params req)) as [params|].
  2:{ exists msg. by rewrite Hreq. }
  destruct (Marshal_map (remove_nulls params)) as [text|].
  2:{ exists msg. by rewrite Hreq. }
  exists (set_Params msg req text). done.
Qed.

End WithFloat.

(** *** Examples *)

Lemma cleanMessage_drops_null_entries_witness :
  exists text,
    @Unmarshal_map Z_Float64 text
    = Some [("filter", @VObject Z_Float64 [("tag", @VNull Z_Float64)]);
            ("limit", @VNumber Z_Float64 10%Z)]
    /\ @CleaningStdioTransport.cleanMessage Z_Float64
         (Some (examples.request_with samples.mixed))
       = Some (examples.request_with text)
    /\ @SSEClientTransport.cleanMessage Z_Float64
         (Some (examples.request_with samples.mixed))
       = Some (examples.request_with text)
    /\ @TraditionalSSETransport.cleanMessage Z_Float64
         (Some (examples.request_with samples.mixed))
       = Some (examples.request_with text).
Proof.
  apply (@cleanMessage_drops_null_entries Z_Float64
           (examples.request_with samples.mixed) samples.mixed_request
           [("cursor", @VNull Z_Float64);
            ("filter", @VObject Z_Float64 [("tag", @VNull Z_Float64)]);
            ("limit", @VNumber Z_Float64 10%Z)]);
    [reflexivity|vm_compute; reflexivity].
Defined.

(** The text of those params after [cleanMessage], and after a second
    pass. *)
Example cleanMessage_mixed_text :
  Request_Params <$>
    (@SSEClientTransport.cleanMessage Z_Float64 (Some (examples.request_with samples.mixed))
       ≫= JsonRpcRequest)
  = Some ("{" +:+ examples.quoted "filter" +:+ ":{" +:+ examples.quoted "tag" +:+ ":null},"
          +:+ examples.quoted "limit" +:+ ":10}")
  /\ @SSEClientTransport.cleanMessage Z_Float64
       (@SSEClientTransport.cleanMessage Z_Float64
          (Some (examples.request_with samples.mixed)))
     = @SSEClientTransport.cleanMessage Z_Float64
         (Some (examples.request_with samples.mixed)).
Proof. split; vm_compute; reflexivity. Qed.

Lemma cleanMessage_keeps_the_rest_witness :
  @SSEClientTransport.cleanMessage Z_Float64 (Some samples.notification_with_nulls)
  = Some samples.notification_with_nulls.
Proof.
  apply (proj1 (proj2 (@cleanMessage_keeps_the_rest Z_Float64
                         samples.notification_with_nulls))).
  reflexivity.
Defined.

End cleaning.

Module exchange.
Import transport.
Section WithLibraries.
Context `{json.Float64} `{Codec}.

Lemma handleJSONResponse_calls (t : SSEClientTransport.state) body :
  Forall (handler_call t) (SSEClientTransport.handleJSONResponse t body).2.
Proof.
  unfold SSEClientTransport.handleJSONResponse.
  destruct (SSEClientTransport.messageHandler t) as [handler|] eqn:Hh; [|constructor].
  repeat (destruct (accepted _ _);
          [repeat constructor; by eexists _, _|]).
  constructor.
Qed.

Lemma handleJSONResponse_error (t : SSEClientTransport.state) body err :
  (SSEClientTransport.handleJSONResponse t body).1 = Some err ->
  err = received_invalid_response body.
Proof.
  unfold SSEClientTransport.handleJSONResponse.
  destruct (SSEClientTransport.messageHandler t); [|done].
  repeat (destruct (accepted _ _); [done|]). by intros [= <-].
Qed.

Lemma loop_calls (t : SSEClientTransport.state) lines dataLines :
  Forall (handler_call t) (SSEClientTransport.parseSSEResponse_loop t lines dataLines).2.
Proof.
  revert dataLines.
  induction lines as [|line lines IH]; intros dataLines;
    cbn [SSEClientTransport.parseSSEResponse_loop]; [constructor|].
  destruct (strings.HasPrefix line "data: "); [apply IH|].
  destruct (String.eqb line EmptyString && (0 <? List.length dataLines)%nat); [|apply IH].
  pose proof (handleJSONResponse_calls t (strings.Join dataLines newline)) as Hc.
  destruct (SSEClientTransport.handleJSONResponse t _) as [[err|] eff]; [done|].
  specialize (IH []).
  destruct (SSEClientTransport.parseSSEResponse_loop t lines []) as [r eff'].
  cbn [snd] in *. by apply Forall_app.
Qed.

Lemma parseSSEResponse_calls (t : SSEClientTransport.state) reader :
  Forall (handler_call t) (SSEClientTransport.parseSSEResponse t reader).2.
Proof.
  unfold SSEClientTransport.parseSSEResponse.
  destruct (bufio.ScanLines reader) as [lines scanner_Err].
  pose proof (loop_calls t lines []) as Hl.
  destruct (SSEClientTransport.parseSSEResponse_loop t lines []) as [[err|left] eff];
    cbn [SSEClientTransport.parseSSEResponse_end]; [done|].
  destruct (0 <? List.length left)%nat; [|done].
  pose proof (handleJSONResponse_calls t (strings.Join left newline)) as Hr.
  destruct (SSEClientTransport.handleJSONResponse t _) as [err eff'].
  cbn [snd] in *. by apply Forall_app.
Qed.

(** X4. One [Send] is at most one exchange. Either nothing leaves the process
    (the message does not marshal, or the URL is refused), or the one
    request, built from the marshalled cleaned message, is issued and fails,
    or it is answered: then the effects are that request, calls of the
    message handler of the transport, and the close of the response body,
    last, on every path. *)
Theorem Send_one_exchange (t : SSEClientTransport.state)
    (message : option BaseJsonRpcMessage) (net : http.Network) :
  let '(_, err, eff) := SSEClientTransport.Send t message net in
  (eff = []
   /\ (err = Some failed_to_marshal_message \/ err = Some failed_to_create_request))
  \/ exists jsonData,
      MarshalMessage (SSEClientTransport.cleanMessage message) = Some jsonData
      /\ match http.Do net (SSEClientTransport.request t jsonData) with
         | inl cause =>
             eff = [client_Do (SSEClientTransport.request t jsonData)]
             /\ err = Some (failed_to_send_request cause)
         | inr _ =>
             exists calls,
               eff = client_Do (SSEClientTransport.request t jsonData)
                       :: calls ++ [Body_Close]
               /\ Forall (handler_call t) calls
         end.
Proof.
  destruct (SSEClientTransport.Send t message net) as [[t' err] eff] eqn:Hsend.
  revert Hsend. unfold SSEClientTransport.Send.
  destruct (MarshalMessage _) as [jsonData|];
    [|intros [= <- <- <-]; left; split; [done|by left]].
  destruct (http.parses net _); cbn [negb];
    [|intros [= <- <- <-]; left; split; [done|by right]].
  intros Hsend. right. exists jsonData. split; [done|].
  destruct (http.Do net _) as [cause|resp]; [by injection Hsend as <- <- <-|].
  revert Hsend.
  set (t1 := if String.eqb _ _ then t else _).
  assert (forall e, handler_call t1 e -> handler_call t e) as Hsame.
  { subst t1. by destruct (String.eqb _ _). }
  clearbody t1.
  destruct (http.StatusCode resp =? http.StatusOK)%nat; cbn [negb].
  2:{ destruct (bufio.ReadAll _). intros [= <- <- <-]. by exists []. }
  destruct (strings.Contains _ _).
  - pose proof (parseSSEResponse_calls t1 (http.Response_Body resp)) as Hc.
    destruct (SSEClientTransport.parseSSEResponse t1 _) as [e eff0].
    intros [= <- <- <-]. exists eff0. split; [done|].
    eapply Forall_impl; [exact Hc|exact Hsame].
  - destruct (bufio.ReadAll _) as [body [cause|]];
      [intros [= <- <- <-]; by exists []|].
    destruct (0 <? String.length body)%nat; [|intros [= <- <- <-]; by exists []].
    pose proof (handleJSONResponse_calls t1 body) as Hc.
    destruct (SSEClientTransport.handleJSONResponse t1 body) as [e eff0].
    intros [= <- <- <-]. exists eff0. split; [done|].
    eapply Forall_impl; [exact Hc|exact Hsame].
Qed.

(** X5. What a [Send] leaves of the transport: the URL, the handlers and the
    headers as they were, and a session ID that is either the one it had or
    the non-empty [Mcp-Session-Id] of the response to the request it issued.
    A session ID is never cleared, whatever the status of the response and
    whatever [Send] returns. *)
Theorem Send_keeps_transport (t : SSEClientTransport.state)
    (message : option BaseJsonRpcMessage) (net : http.Network) t' err eff :
  SSEClientTransport.Send t message net = (t', err, eff) ->
  SSEClientTransport.baseURL t' = SSEClientTransport.baseURL t
  /\ SSEClientTransport.messageHandler t' = SSEClientTransport.messageHandler t
  /\ SSEClientTransport.errorHandler t' = SSEClientTransport.errorHandler t
  /\ SSEClientTransport.closeHandler t' = SSEClientTransport.closeHandler t
  /\ SSEClientTransport.headers t' = SSEClientTransport.headers t
  /\ (SSEClientTransport.sessionID t' = SSEClientTransport.sessionID t
      \/ exists req resp,
          requests eff = [req] /\ http.Do net req = inr resp
          /\ SSEClientTransport.sessionID t'
             = http.Header_Get (http.Response_Header resp) "Mcp-Session-Id")
  /\ (SSEClientTransport.sessionID t <> EmptyString ->
      SSEClientTransport.sessionID t' <> EmptyString).
Proof.
  intros Hsend.
  apply streamable.Send_request in Hsend as [[_ ->]|(jsonData & Hreq & Hdo)].
  { repeat split; try done. by left. }
  destruct (http.Do net _) as [cause|resp] eqn:Hnet.
  { subst t'. repeat split; try done. by left. }
  cbv zeta in Hdo.
  destruct (String.eqb _ EmptyString) eqn:Hsid; subst t'.
  { repeat split; try done. by left. }
  repeat split; try done.
  - right. by exists (SSEClientTransport.request t jsonData), resp.
  - intros _. cbn [SSEClientTransport.set_sessionID SSEClientTransport.sessionID].
    by apply String.eqb_neq in Hsid.
Qed.

(** X6. An answer with any status but 200 (202 and 204 among them) is the
    error of [Send], with the body as its text, as far as it could be read.
    Nothing of that body is handed to the handler, whatever it is. The
    session ID of such an answer is kept all the same. *)
Theorem Send_status_not_OK (t : SSEClientTransport.state) message net jsonData resp :
  MarshalMessage (SSEClientTransport.cleanMessage message) = Some jsonData ->
  http.parses net (SSEClientTransport.baseURL t) = true ->
  http.Do net (SSEClientTransport.request t jsonData) = inr resp ->
  http.StatusCode resp <> http.StatusOK ->
  let sid := http.Header_Get (http.Response_Header resp) "Mcp-Session-Id" in
  SSEClientTransport.Send t message net
  = (if String.eqb sid EmptyString then t else SSEClientTransport.set_sessionID t sid,
     Some (server_returned_error (bufio.content (http.Response_Body resp))
             (http.StatusCode resp)),
     [client_Do (SSEClientTransport.request t jsonData); Body_Close]).
Proof.
  intros Hm Hurl Hdo Hstatus. cbv zeta.
  unfold SSEClientTransport.Send. rewrite Hm, Hurl. cbn [negb]. rewrite Hdo.
  apply Nat.eqb_neq in Hstatus. by rewrite Hstatus.
Qed.

(** *** Bodies *)

(** X7. A response that is no event stream: an empty body is fine and reaches
    nobody; any other body is one payload, handed to the handler when it
    has one of the four shapes and the error of [Send] when it has none. A
    body that cannot be read to its end is the error, and nothing of it is
    handed on. *)
Theorem Send_plain_response (t : SSEClientTransport.state) handler message net
    jsonData resp :
  SSEClientTransport.messageHandler t = Some handler ->
  MarshalMessage (SSEClientTransport.cleanMessage message) = Some jsonData ->
  http.parses net (SSEClientTransport.baseURL t) = true ->
  http.Do net (SSEClientTransport.request t jsonData) = inr resp ->
  http.StatusCode resp = http.StatusOK ->
  strings.Contains (http.Header_Get (http.Response_Header resp) "Content-Type")
    "text/event-stream" = false ->
  let req := SSEClientTransport.request t jsonData in
  let body := bufio.content (http.Response_Body resp) in
  let '(_, err, eff) := SSEClientTransport.Send t message net in
  match bufio.failure (http.Response_Body resp) with
  | Some cause =>
      err = Some (failed_to_read_response cause) /\ eff = [client_Do req; Body_Close]
  | None =>
      if String.eqb body EmptyString then err = None /\ eff = [client_Do req; Body_Close]
      else
        match spec.classify body with
        | Some msg =>
            err = None
            /\ eff = [client_Do req; call_messageHandler handler msg; Body_Close]
        | None =>
            err = Some (received_invalid_response body)
            /\ eff = [client_Do req; Body_Close]
        end
  end.
Proof.
  intros Hh Hm Hurl Hdo Hstatus Hct. cbv zeta.
  destruct (SSEClientTransport.Send t message net) as [[t' err] eff] eqn:Hsend.
  revert Hsend.
  unfold SSEClientTransport.Send. rewrite Hm, Hurl. cbn [negb]. rewrite Hdo, Hstatus.
  rewrite Nat.eqb_refl. cbn [negb]. rewrite Hct.
  set (t1 := if String.eqb _ _ then t else _).
  assert (SSEClientTransport.messageHandler t1 = Some handler) as Hh1.
  { subst t1. by destruct (String.eqb _ _). }
  clearbody t1. unfold bufio.ReadAll.
  destruct (bufio.failure (http.Response_Body resp)) as [cause|];
    [by intros [= <- <- <-]|].
  destruct (bufio.content (http.Response_Body resp)) as [|c body];
    [by intros [= <- <- <-]|].
  cbn [String.length Nat.ltb Nat.leb String.eqb].
  rewrite (classifier.handleJSONResponse_classify _ _ _ Hh1).
  destruct (spec.classify _); by intros [= <- <- <-].
Qed.

Lemma events_data_lines ds rest dataLines :
  Forall (fun d => strings.HasPrefix d " " = true) ds ->
  spec.events (map (fun d => "data:" +:+ d) ds ++ rest) dataLines
  = spec.events rest
      (dataLines ++ map (fun d => strings.TrimPrefix ("data:" +:+ d) "data: ") ds)
  /\ spec.pending (map (fun d => "data:" +:+ d) ds ++ rest) dataLines
     = spec.pending rest
         (dataLines ++ map (fun d => strings.TrimPrefix ("data:" +:+ d) "data: ") ds).
Proof.
  intros Hds. revert dataLines.
  induction Hds as [|d ds Hd _ IH]; intros dataLines.
  - cbn [map app]. by rewrite app_nil_r.
  - cbn [map app]. cbn [spec.events spec.pending].
    assert (strings.HasPrefix ("data:" +:+ d) "data: " = true) as ->.
    { revert Hd. unfold strings.HasPrefix. cbv [String.append]. by cbn. }
    destruct (IH (dataLines ++ [strings.TrimPrefix ("data:" +:+ d) "data: "])) as [-> ->].
    by rewrite <- !app_assoc.
Qed.

Lemma events_of_stream (events : list sse.Event) :
  Forall (fun e => sse.data_fields e <> []
                   /\ Forall (fun d => strings.HasPrefix d " " = true) (sse.data_fields e))
    events ->
  spec.events (sse.stream_lines events) [] = map sse.payload events
  /\ spec.pending (sse.stream_lines events) [] = false.
Proof.
  induction 1 as [|e events [Hne Hds] _ [IHe IHp]]; [done|].
  unfold sse.stream_lines. cbn [map concat]. fold (sse.stream_lines events).
  unfold sse.lines_of, sse.payload.
  assert (forall (lines : list string),
    spec.events ((map (fun d => "data:" +:+ d) (sse.data_fields e) ++ [EmptyString]) ++ lines) []
    = strings.Join
        (map (fun d => strings.TrimPrefix ("data:" +:+ d) "data: ") (sse.data_fields e))
        newline :: spec.events lines []
    /\ spec.pending
         ((map (fun d => "data:" +:+ d) (sse.data_fields e) ++ [EmptyString]) ++ lines) []
       = spec.pending lines []) as Hbody.
  { intros lines. rewrite <- app_assoc.
    destruct (events_data_lines (sse.data_fields e) ([EmptyString] ++ lines) [] Hds)
      as [-> ->].
    cbn [app spec.events spec.pending].
    change (strings.HasPrefix "" "data: ") with false. cbv iota.
    by destruct (sse.data_fields e). }
  destruct (Hbody (sse.stream_lines events)) as [He Hp].
  destruct (sse.event_field e) as [type|]; cbn [app]; [|by rewrite He, Hp, IHe, IHp].
  cbn [spec.events spec.pending].
  assert (strings.HasPrefix ("event:" +:+ type) "data: " = false) as ->.
  { unfold strings.HasPrefix. cbv [String.append]. by cbn. }
  change ("event:" +:+ type) with (String "e" ("vent:" +:+ type)). cbv iota.
  by rewrite He, Hp, IHe, IHp.
Qed.

(** X8. The streamable transport reads an event stream by its data lines
    alone. The type of an event plays no part: every event is a payload to
    classify, one of type [endpoint] or [ping] as much as a message, and the
    first whose payload has none of the four shapes ends [Send] with the
    error. Nothing is trimmed but the blank after the colon. *)
Theorem parseSSEResponse_by_event (t : SSEClientTransport.state) handler
    (body : bufio.Reader) (events : list sse.Event) scanner_Err :
  SSEClientTransport.messageHandler t = Some handler ->
  bufio.ScanLines body = (sse.stream_lines events, scanner_Err) ->
  Forall (fun e => sse.data_fields e <> []
                   /\ Forall (fun d => strings.HasPrefix d " " = true) (sse.data_fields e))
    events ->
  SSEClientTransport.parseSSEResponse t body
  = let '(err, eff) := spec.dispatch handler (map sse.payload events) in
    (match err with
     | Some e => Some e
     | None => scanner_error <$> scanner_Err
     end, eff).
Proof.
  intros Hh Hscan Hevents.
  rewrite (streamable.parseSSEResponse_events t handler body Hh), Hscan.
  destruct (events_of_stream events Hevents) as [-> ->]. done.
Qed.

Lemma loop_unfinished (t : SSEClientTransport.state) lines last dataLines :
  strings.HasPrefix last "data: " = true ->
  match SSEClientTransport.parseSSEResponse_loop t (lines ++ [last]) dataLines with
  | (inl err, _) => exists body, err = received_invalid_response body
  | (inr dataLines', _) => dataLines' <> []
  end.
Proof.
  intros Hlast. revert dataLines.
  induction lines as [|line lines IH]; intros dataLines;
    cbn [app SSEClientTransport.parseSSEResponse_loop].
  - rewrite Hlast. by destruct dataLines.
  - destruct (strings.HasPrefix line "data: "); [apply IH|].
    destruct (String.eqb line EmptyString && (0 <? List.length dataLines)%nat); [|apply IH].
    pose proof (handleJSONResponse_error t (strings.Join dataLines newline)) as He.
    destruct (SSEClientTransport.handleJSONResponse t _) as [[err|] eff].
    + eexists. by apply He.
    + specialize (IH []).
      by destruct (SSEClientTransport.parseSSEResponse_loop t (lines ++ [last]) [])
        as [[e|left] eff'].
Qed.

(** X9. An event stream that stops inside an event, its last line a data line:
    the data lines read so far are handled as an event, and what stopped
    the scanner (a failed read, a line that is too long) is not reported.
    The result is the one of a stream with the same lines and a clean end. *)
Theorem parseSSEResponse_unfinished_event (t : SSEClientTransport.state)
    (reader : bufio.Reader) lines last scanner_Err :
  bufio.ScanLines reader = (lines ++ [last], scanner_Err) ->
  strings.HasPrefix last "data: " = true ->
  (forall cause,
      (SSEClientTransport.parseSSEResponse t reader).1 <> Some (scanner_error cause))
  /\ forall reader',
      bufio.ScanLines reader' = (lines ++ [last], None) ->
      SSEClientTransport.parseSSEResponse t reader
      = SSEClientTransport.parseSSEResponse t reader'.
Proof.
  intros Hscan Hlast.
  assert (forall e,
    SSEClientTransport.parseSSEResponse_end t e
      (SSEClientTransport.parseSSEResponse_loop t (lines ++ [last]) [])
    = SSEClientTransport.parseSSEResponse_end t None
        (SSEClientTransport.parseSSEResponse_loop t (lines ++ [last]) [])) as Hend.
  { intros e. pose proof (loop_unfinished t lines last [] Hlast) as Hl.
    destruct (SSEClientTransport.parseSSEResponse_loop t (lines ++ [last]) [])
      as [[err|left] eff]; [done|].
    cbn [SSEClientTransport.parseSSEResponse_end]. by destruct left. }
  split.
  - intros cause. unfold SSEClientTransport.parseSSEResponse. rewrite Hscan, Hend.
    pose proof (loop_unfinished t lines last [] Hlast) as Hl.
    destruct (SSEClientTransport.parseSSEResponse_loop t (lines ++ [last]) [])
      as [[err|left] eff]; cbn [SSEClientTransport.parseSSEResponse_end fst].
    + by destruct Hl as [body ->].
    + destruct left as [|d left]; [done|]. cbn [List.length Nat.ltb Nat.leb].
      pose proof (handleJSONResponse_error t (strings.Join (d :: left) newline)) as He.
      destruct (SSEClientTransport.handleJSONResponse t _) as [[err|] eff']; [|done].
      cbn [fst] in *. by rewrite (He err eq_refl).
  - intros reader' Hscan'. unfold SSEClientTransport.parseSSEResponse.
    by rewrite Hscan, Hscan', Hend.
Qed.

Lemma loop_no_data (t : SSEClientTransport.state) lines :
  forallb (fun line => negb (strings.HasPrefix line "data: ")) lines = true ->
  SSEClientTransport.parseSSEResponse_loop t lines [] = (inr [], []).
Proof.
  induction lines as [|line lines IH]; [done|].
  cbn [forallb SSEClientTransport.parseSSEResponse_loop].
  intros [Hline Hlines]%andb_true_iff. apply negb_true_iff in Hline. rewrite Hline.
  cbn [List.length Nat.ltb Nat.leb]. rewrite andb_false_r. by apply IH.
Qed.

(** X10. Only lines that start with [data: ], the blank included, carry data
    for this transport. A body without such a line hands nothing to the
    handler and is no error of [Send], whatever else it has: a payload
    written right after the colon is not read. *)
Theorem parseSSEResponse_data_prefix (t : SSEClientTransport.state)
    (reader : bufio.Reader) :
  forallb (fun line => negb (strings.HasPrefix line "data: "))
    (bufio.ScanLines reader).1 = true ->
  SSEClientTransport.parseSSEResponse t reader
  = (scanner_error <$> (bufio.ScanLines reader).2, []).
Proof.
  intros Hlines. unfold SSEClientTransport.parseSSEResponse.
  destruct (bufio.ScanLines reader) as [lines scanner_Err]. cbn [fst snd] in *.
  by rewrite (loop_no_data t lines Hlines).
Qed.

End WithLibraries.

(** *** Examples *)

(** A request that does not get through: one effect, the request, and the
    error; nothing to close. *)
Example Send_unreachable :
  @SSEClientTransport.Send Z_Float64 library.codec examples.listening examples.ping
    samples.unreachable
  = (examples.listening, Some (failed_to_send_request "connection refused"),
     [client_Do (SSEClientTransport.request examples.listening examples.ping_text)]).
Proof. vm_compute. reflexivity. Qed.

Lemma Send_keeps_transport_witness :
  SSEClientTransport.sessionID examples.second_Send.1.1 <> EmptyString
  /\ SSEClientTransport.headers examples.second_Send.1.1
     = SSEClientTransport.headers examples.first_Send.1.1.
Proof.
  destruct (@Send_keeps_transport Z_Float64 library.codec examples.first_Send.1.1
              examples.ping examples.without_session examples.second_Send.1.1
              examples.second_Send.1.2 examples.second_Send.2)
    as (_ & _ & _ & _ & Hheaders & _ & Hsession); [vm_compute; reflexivity|].
  split; [|exact Hheaders]. apply Hsession. vm_compute. discriminate.
Defined.

Lemma Send_status_not_OK_witness :
  @SSEClientTransport.Send Z_Float64 library.codec examples.listening examples.ping
    samples.unavailable
  = (SSEClientTransport.set_sessionID examples.listening "s-7",
     Some (server_returned_error "try later" 503),
     [client_Do (SSEClientTransport.request examples.listening examples.ping_text);
      Body_Close]).
Proof.
  pose proof (@Send_status_not_OK Z_Float64 library.codec examples.listening examples.ping
                samples.unavailable examples.ping_text
                {| http.StatusCode := 503;
                   http.Response_Header := set_headers ∅ [("Mcp-Session-Id", "s-7")];
                   http.Response_Body :=
                     {| bufio.content := "try later"; bufio.failure := None |} |}) as W.
  vm_compute in W. vm_compute. apply W; [reflexivity|reflexivity|reflexivity|discriminate].
Defined.

Lemma Send_plain_response_witness :
  let '(_, err, eff) :=
    @SSEClientTransport.Send Z_Float64 library.codec examples.listening examples.ping
      samples.plain in
  err = None
  /\ eff = [client_Do (SSEClientTransport.request examples.listening examples.ping_text);
            call_messageHandler 1
              (NewBaseMessageResponse
                 {| Response_Id := 1; Response_Jsonrpc := "2.0"; Response_Result := "{}" |});
            Body_Close].
Proof.
  pose proof (@Send_plain_response Z_Float64 library.codec examples.listening 1
                examples.ping samples.plain examples.ping_text
                {| http.StatusCode := 200;
                   http.Response_Header :=
                     set_headers ∅ [("Content-Type", "application/json")];
                   http.Response_Body :=
                     {| bufio.content := examples.response_payload;
                        bufio.failure := None |} |}) as W.
  vm_compute in W. vm_compute.
  apply W; reflexivity.
Defined.

Lemma typed_data :
  Forall (fun e => sse.data_fields e <> []
                   /\ Forall (fun d => strings.HasPrefix d " " = true) (sse.data_fields e))
    samples.typed.
Proof. repeat constructor; discriminate. Qed.

(** A response and then an event of type [ping]: the response is handed
    on, and the data of the ping is the error of [Send]. *)
Lemma parseSSEResponse_by_event_witness :
  (@SSEClientTransport.parseSSEResponse library.codec examples.listening
     samples.typed_body).1
  = Some (received_invalid_response "{}")
  /\ MessageType <$>
       dispatched
         (@SSEClientTransport.parseSSEResponse library.codec examples.listening
            samples.typed_body).2
     = [BaseMessageTypeJSONRPCResponseType].
Proof.
  pose proof (@parseSSEResponse_by_event library.codec examples.listening 1
                samples.typed_body samples.typed None eq_refl
                ltac:(vm_compute; reflexivity) typed_data) as W.
  rewrite W. split; vm_compute; reflexivity.
Defined.

Lemma parseSSEResponse_unfinished_event_witness :
  @SSEClientTransport.parseSSEResponse library.codec examples.listening samples.broken
  = @SSEClientTransport.parseSSEResponse library.codec examples.listening samples.clean.
Proof.
  apply (proj2 (@parseSSEResponse_unfinished_event library.codec examples.listening
                  samples.broken [] ("data: " +:+ examples.response_payload)
                  (Some (bufio.ReadError "connection reset"))
                  ltac:(vm_compute; reflexivity) ltac:(vm_compute; reflexivity))
           samples.clean).
  vm_compute. reflexivity.
Defined.

(** The broken stream: the response is handed on and [Send] has no error. *)
Example parseSSEResponse_broken :
  (@SSEClientTransport.parseSSEResponse library.codec examples.listening samples.broken).1
  = None
  /\ MessageType <$>
       dispatched
         (@SSEClientTransport.parseSSEResponse library.codec examples.listening
            samples.broken).2
     = [BaseMessageTypeJSONRPCResponseType].
Proof. split; vm_compute; reflexivity. Qed.

Lemma parseSSEResponse_data_prefix_witness :
  @SSEClientTransport.parseSSEResponse library.codec examples.listening samples.no_space
  = (None, []).
Proof.
  pose proof (@parseSSEResponse_data_prefix library.codec examples.listening
                samples.no_space) as W.
  vm_compute in W. vm_compute. apply W. reflexivity.
Defined.

End exchange.

Module outgoing.
Import transport.

Lemma set_headers_snoc (h : gmap string string) (headers : list (string * string)) k v :
  set_headers h (headers ++ [(k, v)]) = http.Header_Set (set_headers h headers) k v.
Proof. unfold set_headers. by rewrite fold_left_app. Qed.

(** The value under a name after the loop over the headers of the caller,
    when all the headers that come down to that name agree on it. *)
Lemma set_headers_agreed (h : gmap string string) (headers : list (string * string)) k v :
  (k, v) ∈ headers ->
  (forall k' v', (k', v') ∈ headers ->
     http.CanonicalHeaderKey k' = http.CanonicalHeaderKey k -> v' = v) ->
  set_headers h headers !! http.CanonicalHeaderKey k = Some v.
Proof.
  induction headers as [|[k0 v0] headers IH] using rev_ind; intros Hin Hagree.
  { by apply elem_of_nil in Hin. }
  rewrite set_headers_snoc. unfold http.Header_Set.
  destruct (decide (http.CanonicalHeaderKey k0 = http.CanonicalHeaderKey k)) as [Heq|Hne].
  - rewrite Heq, lookup_insert_eq. f_equal. apply (Hagree k0); [|done].
    apply elem_of_app. right. by apply list_elem_of_singleton.
  - rewrite lookup_insert_ne by done. apply IH.
    + apply elem_of_app in Hin as [Hin|Hin]; [done|].
      apply list_elem_of_singleton in Hin. by injection Hin as -> ->.
    + intros k' v' Hin'. apply Hagree. apply elem_of_app. by left.
Qed.

Lemma set_headers_untouched (h : gmap string string) (headers : list (string * string)) c :
  (forall k', k' ∈ headers.*1 -> http.CanonicalHeaderKey k' <> c) ->
  set_headers h headers !! c = h !! c.
Proof.
  intros Hno. apply streamable.set_headers_other.
  apply forallb_forall. intros [k' v'] Hin. cbn [fst].
  apply negb_true_iff, String.eqb_neq, Hno.
  apply list_elem_of_fmap. exists (k', v'). split; [done|]. by apply list_elem_of_In.
Qed.

Lemma assign_elem (m : list (string * string)) key value :
  (key, value) ∈ assign m key value.
Proof.
  induction m as [|[k v] m IH]; cbn [assign]; [by left|].
  destruct (String.eqb k key); [by left|by right].
Qed.

Lemma assign_others (m : list (string * string)) key value k' v' :
  NoDup m.*1 -> (k', v') ∈ assign m key value ->
  (k' = key /\ v' = value) \/ (k' <> key /\ (k', v') ∈ m).
Proof.
  induction m as [|[k v] m IH]; cbn [assign fmap list_fmap fst].
  - intros _ Hin. apply list_elem_of_singleton in Hin. injection Hin as -> ->. by left.
  - intros [Hk Hm]%NoDup_cons.
    destruct (String.eqb k key) eqn:Heq.
    + apply String.eqb_eq in Heq. subst k.
      intros [Hin|Hin]%elem_of_cons; [injection Hin as -> ->; by left|].
      right. split; [|by right].
      intros ->. apply Hk. apply list_elem_of_fmap. by exists (key, v').
    + apply String.eqb_neq in Heq.
      intros [Hin|Hin]%elem_of_cons.
      * injection Hin as -> ->. right. split; [done|by left].
      * destruct (IH Hm Hin) as [?|[? ?]]; [by left|]. right. split; [done|by right].
Qed.

(** The headers of a transport after [WithHeader key value]: the new one is
    there, and every header that comes down to the same name has its
    value, when no other key of the map differs from [key] only by case. *)
Lemma assign_agreed (m : list (string * string)) key value :
  NoDup m.*1 ->
  (forall k', k' ∈ m.*1 ->
     http.CanonicalHeaderKey k' = http.CanonicalHeaderKey key -> k' = key) ->
  forall k' v', (k', v') ∈ assign m key value ->
    http.CanonicalHeaderKey k' = http.CanonicalHeaderKey key -> v' = value.
Proof.
  intros Hnd Hcase k' v' Hin Hsame.
  destruct (assign_others m key value k' v' Hnd Hin) as [[_ ->]|[Hne Hin']]; [done|].
  destruct Hne. apply Hcase; [|done]. apply list_elem_of_fmap. by exists (k', v').
Qed.

(** X11. A header set with [WithHeader] is on every request of the streamable
    transport, under its canonical name, with the value given: it replaces
    the [Content-Type] and [Accept] the transport sets by itself, which are
    there when the caller names neither. The one header the caller cannot
    set is [Mcp-Session-Id] once the transport holds a session ID: that one
    is written last. (The keys of a Go map are distinct; two keys that
    differ by case only would race for the same name.) *)
Theorem WithHeader_on_request (t : SSEClientTransport.state) (key value jsonData : string) :
  NoDup (SSEClientTransport.headers t).*1 ->
  (forall k', k' ∈ (SSEClientTransport.headers t).*1 ->
     http.CanonicalHeaderKey k' = http.CanonicalHeaderKey key -> k' = key) ->
  http.Header_Get
    (http.Header (SSEClientTransport.request (SSEClientTransport.WithHeader t key value)
                    jsonData)) key
  = (if String.eqb (SSEClientTransport.sessionID t) EmptyString
        || negb (String.eqb (http.CanonicalHeaderKey key) "Mcp-Session-Id")
     then value else SSEClientTransport.sessionID t)
  /\ ((forall k', k' ∈ (SSEClientTransport.headers t).*1 ->
         http.CanonicalHeaderKey k' <> "Content-Type") ->
      http.Header_Get (http.Header (SSEClientTransport.request t jsonData)) "Content-Type"
      = "application/json")
  /\ ((forall k', k' ∈ (SSEClientTransport.headers t).*1 ->
         http.CanonicalHeaderKey k' <> "Accept") ->
      http.Header_Get (http.Header (SSEClientTransport.request t jsonData)) "Accept"
      = "application/json, text/event-stream").
Proof.
  intros Hnd Hcase. split; [|split].
  - unfold SSEClientTransport.request, http.Header_Get.
    cbn [http.Header SSEClientTransport.WithHeader SSEClientTransport.headers
         SSEClientTransport.sessionID].
    pose proof (set_headers_agreed
                  (http.Header_Set (http.Header_Set ∅ "Content-Type" "application/json")
                     "Accept" "application/json, text/event-stream")
                  (assign (SSEClientTransport.headers t) key value) key value
                  (assign_elem _ _ _) (assign_agreed _ _ _ Hnd Hcase)) as Hset.
    destruct (String.eqb (SSEClientTransport.sessionID t) EmptyString); cbn [orb].
    { by rewrite Hset. }
    unfold http.Header_Set at 1.
    change (http.CanonicalHeaderKey "Mcp-Session-Id") with "Mcp-Session-Id".
    destruct (String.eqb (http.CanonicalHeaderKey key) "Mcp-Session-Id") eqn:Hk; cbn [negb].
    + apply String.eqb_eq in Hk. by rewrite Hk, lookup_insert_eq.
    + apply String.eqb_neq in Hk. rewrite lookup_insert_ne by done. by rewrite Hset.
  - intros Hno. unfold SSEClientTransport.request, http.Header_Get. cbn [http.Header].
    change (http.CanonicalHeaderKey "Content-Type") with "Content-Type".
    assert (set_headers
              (http.Header_Set (http.Header_Set ∅ "Content-Type" "application/json")
                 "Accept" "application/json, text/event-stream")
              (SSEClientTransport.headers t) !! "Content-Type" = Some "application/json")
      as Hset.
    { rewrite (set_headers_untouched _ _ _ Hno). reflexivity. }
    destruct (String.eqb (SSEClientTransport.sessionID t) EmptyString);
      [by rewrite Hset|].
    unfold http.Header_Set at 1.
    change (http.CanonicalHeaderKey "Mcp-Session-Id") with "Mcp-Session-Id".
    rewrite lookup_insert_ne by done. by rewrite Hset.
  - intros Hno. unfold SSEClientTransport.request, http.Header_Get. cbn [http.Header].
    change (http.CanonicalHeaderKey "Accept") with "Accept".
    assert (set_headers
              (http.Header_Set (http.Header_Set ∅ "Content-Type" "application/json")
                 "Accept" "application/json, text/event-stream")
              (SSEClientTransport.headers t) !! "Accept"
            = Some "application/json, text/event-stream") as Hset.
    { rewrite (set_headers_untouched _ _ _ Hno). reflexivity. }
    destruct (String.eqb (SSEClientTransport.sessionID t) EmptyString);
      [by rewrite Hset|].
    unfold http.Header_Set at 1.
    change (http.CanonicalHeaderKey "Mcp-Session-Id") with "Mcp-Session-Id".
    rewrite lookup_insert_ne by done. by rewrite Hset.
Qed.

(** X12. The same for the two requests of the traditional transport, the GET of
    [Start] and the POST of [Send]: a header set with [WithHeader] is on
    both, with the value given, and nothing is written after it. *)
Theorem WithHeader_on_stream_requests (t : TraditionalSSETransport.state)
    (key value endpoint jsonData : string) :
  NoDup (TraditionalSSETransport.headers t).*1 ->
  (forall k', k' ∈ (TraditionalSSETransport.headers t).*1 ->
     http.CanonicalHeaderKey k' = http.CanonicalHeaderKey key -> k' = key) ->
  http.Header_Get
    (http.Header (TraditionalSSETransport.get_request
                    (TraditionalSSETransport.WithHeader t key value))) key
  = value
  /\ http.Header_Get
       (http.Header (TraditionalSSETransport.post_request
                       (TraditionalSSETransport.WithHeader t key value) endpoint jsonData))
       key
     = value.
Proof.
  intros Hnd Hcase.
  unfold TraditionalSSETransport.get_request, TraditionalSSETransport.post_request,
    http.Header_Get.
  cbn [http.Header TraditionalSSETransport.WithHeader TraditionalSSETransport.headers].
  split.
  - by rewrite (set_headers_agreed _ _ key value
                  (assign_elem _ _ _) (assign_agreed _ _ _ Hnd Hcase)).
  - by rewrite (set_headers_agreed _ _ key value
                  (assign_elem _ _ _) (assign_agreed _ _ _ Hnd Hcase)).
Qed.

(** *** Examples *)

(** A transport that holds the session ID [s-42]: the caller's own session
    header is overwritten, the caller's content type is not. *)
Lemma WithHeader_on_request_witness :
  http.Header_Get
    (http.Header
       (SSEClientTransport.request
          (SSEClientTransport.WithHeader examples.first_Send.1.1 "mcp-session-id" "mine")
          examples.ping_text))
    "mcp-session-id"
  = "s-42"
  /\ http.Header_Get
       (http.Header
          (SSEClientTransport.request
             (SSEClientTransport.WithHeader examples.first_Send.1.1 "content-type"
                "text/plain")
             examples.ping_text))
       "Content-Type"
     = "text/plain".
Proof.
  assert (NoDup (SSEClientTransport.headers examples.first_Send.1.1).*1) as Hnd
    by (vm_compute; constructor).
  assert (forall key k', k' ∈ (SSEClientTransport.headers examples.first_Send.1.1).*1 ->
            http.CanonicalHeaderKey k' = http.CanonicalHeaderKey key -> k' = key) as Hcase.
  { intros key k' Hin. vm_compute in Hin. inversion Hin. }
  split.
  - pose proof (proj1 (WithHeader_on_request examples.first_Send.1.1 "mcp-session-id" "mine"
                         examples.ping_text Hnd (Hcase _))) as W.
    vm_compute in W. vm_compute. exact W.
  - pose proof (proj1 (WithHeader_on_request examples.first_Send.1.1 "content-type"
                         "text/plain" examples.ping_text Hnd (Hcase _))) as W.
    vm_compute in W. vm_compute. exact W.
Defined.

Lemma WithHeader_on_stream_requests_witness :
  http.Header_Get
    (http.Header
       (TraditionalSSETransport.get_request
          (TraditionalSSETransport.WithHeader examples.unstarted "accept" "*/*")))
    "Accept"
  = "*/*".
Proof.
  assert (NoDup (TraditionalSSETransport.headers examples.unstarted).*1) as Hnd
    by (vm_compute; constructor).
  assert (forall k', k' ∈ (TraditionalSSETransport.headers examples.unstarted).*1 ->
            http.CanonicalHeaderKey k' = http.CanonicalHeaderKey "accept" -> k' = "accept")
    as Hcase.
  { intros k' Hin. vm_compute in Hin. inversion Hin. }
  pose proof (proj1 (WithHeader_on_stream_requests examples.unstarted "accept" "*/*"
                       EmptyString EmptyString Hnd Hcase)) as W.
  vm_compute in W. vm_compute. exact W.
Defined.

End outgoing.

Module event_reader.
Import transport.

Lemma substring_all (s : string) : String.substring 0 (String.length s) s = s.
Proof. induction s as [|c s IH]; [done|]. cbn. by rewrite IH. Qed.

Lemma TrimPrefix_event (s : string) : strings.TrimPrefix ("event:" +:+ s) "event:" = s.
Proof.
  unfold strings.TrimPrefix, strings.HasPrefix. cbv [String.append]. cbn.
  replace (String.prefix "" s) with true by (by destruct s).
  rewrite Nat.sub_0_r. apply substring_all.
Qed.

Lemma TrimPrefix_data (s : string) : strings.TrimPrefix ("data:" +:+ s) "data:" = s.
Proof.
  unfold strings.TrimPrefix, strings.HasPrefix. cbv [String.append]. cbn.
  replace (String.prefix "" s) with true by (by destruct s).
  rewrite Nat.sub_0_r. apply substring_all.
Qed.

Lemma HasPrefix_event (s : string) : strings.HasPrefix ("event:" +:+ s) "event:" = true.
Proof. unfold strings.HasPrefix. cbv [String.append]. cbn. by destruct s. Qed.

Lemma HasPrefix_data (s : string) :
  strings.HasPrefix ("data:" +:+ s) "event:" = false
  /\ strings.HasPrefix ("data:" +:+ s) "data:" = true.
Proof. unfold strings.HasPrefix. cbv [String.append]. cbn. by destruct s. Qed.

(** An open stream has delivered what the ended stream delivers, but for
    the bytes after the last newline. *)
Lemma whole_lines_raw_lines (s : string) :
  bufio.raw_lines s
  = (bufio.whole_lines s).1
    ++ match (bufio.whole_lines s).2 with
       | EmptyString => []
       | rest => [rest]
       end.
Proof.
  induction s as [|c s IH]; [done|].
  cbn [bufio.raw_lines bufio.whole_lines]. rewrite IH.
  destruct (bufio.whole_lines s) as [ls rest]. cbn [fst snd].
  destruct (Ascii.eqb c "010"); [done|].
  destruct ls as [|l ls]; [by destruct rest|done].
Qed.

Lemma ScanOpen_ScanLines (r : bufio.Reader) lines :
  bufio.ScanOpen r = (lines, None) ->
  exists rest, (bufio.ScanLines r).1 = lines ++ rest.
Proof.
  unfold bufio.ScanOpen, bufio.ScanLines. rewrite whole_lines_raw_lines.
  destruct (bufio.whole_lines (bufio.content r)) as [ls rest]. cbn [fst snd].
  match goal with |- context [ls ++ ?t] => generalize t as tail end.
  generalize (bufio.ReadError <$> bufio.failure r) as at_end.
  intros at_end tail.
  destruct (bufio.tokens ls None) as [ts e] eqn:Hts.
  destruct e as [err|]; [done|].
  destruct (String.length rest <? bufio.MaxScanTokenSize)%nat; [|done].
  intros [= <-]. revert ts Hts.
  induction ls as [|l ls IH]; intros ts.
  - cbn. intros [= <-]. by eexists.
  - cbn [bufio.tokens app].
    destruct (String.length l <? bufio.MaxScanTokenSize)%nat; [|done].
    destruct (bufio.tokens ls None) as [ts' e'] eqn:Hts'.
    intros [= <- ->]. destruct (IH ts' eq_refl) as [rest' Hrest].
    destruct (bufio.tokens (ls ++ tail) at_end) as [ts'' e'']. cbn [fst] in *.
    exists rest'. by rewrite Hrest.
Qed.

Section WithLibraries.
Context `{Codec}.

Lemma loop_data_lines ctx (t : TraditionalSSETransport.state) n ds rest eventType
    dataLines sent :
  TraditionalSSETransport.readSSEEvents_loop ctx t n
    (map (fun d => "data:" +:+ d) ds ++ rest) eventType dataLines sent
  = TraditionalSSETransport.readSSEEvents_loop ctx t n rest eventType
      (dataLines ++ map strings.TrimSpace ds) sent.
Proof.
  revert dataLines. induction ds as [|d ds IH]; intros dataLines.
  - cbn [map app]. by rewrite app_nil_r.
  - cbn [map app]. cbn [TraditionalSSETransport.readSSEEvents_loop].
    destruct (HasPrefix_data d) as [-> ->]. rewrite TrimPrefix_data, IH.
    by rewrite <- app_assoc.
Qed.

(** One event of the stream, read from a state between two events. *)
Lemma one_event ctx (t : TraditionalSSETransport.state) n (e : sse.Event) rest sent :
  sse.data_fields e <> [] ->
  TraditionalSSETransport.readSSEEvents_loop ctx t n (sse.lines_of e ++ rest)
    EmptyString [] sent
  = if sse.is_endpoint e && negb (bool_decide (is_Some sent))
    then TraditionalSSETransport.readSSEEvents_loop ctx t n rest EmptyString []
           (Some (sse.data e))
    else if sse.is_message e
    then
      let '(sent', eff) :=
        TraditionalSSETransport.readSSEEvents_loop ctx
          (TraditionalSSETransport.found ctx t n) (S n) rest EmptyString [] sent in
      (sent',
       TraditionalSSETransport.handleMessage (TraditionalSSETransport.found ctx t n)
         (sse.data e) ++ eff)
    else TraditionalSSETransport.readSSEEvents_loop ctx t n rest EmptyString [] sent.
Proof.
  intros Hdata. unfold sse.lines_of, sse.is_endpoint, sse.is_message, sse.eventType, sse.data.
  assert (forall eventType,
    TraditionalSSETransport.readSSEEvents_loop ctx t n
      ((map (fun d => "data:" +:+ d) (sse.data_fields e) ++ [EmptyString]) ++ rest)
      eventType [] sent
    = if String.eqb eventType "endpoint" && negb (bool_decide (is_Some sent))
      then TraditionalSSETransport.readSSEEvents_loop ctx t n rest EmptyString []
             (Some (strings.Join (map strings.TrimSpace (sse.data_fields e)) newline))
      else if String.eqb eventType "message" || String.eqb eventType EmptyString
      then
        let '(sent', eff) :=
          TraditionalSSETransport.readSSEEvents_loop ctx
            (TraditionalSSETransport.found ctx t n) (S n) rest EmptyString [] sent in
        (sent',
         TraditionalSSETransport.handleMessage (TraditionalSSETransport.found ctx t n)
           (strings.Join (map strings.TrimSpace (sse.data_fields e)) newline) ++ eff)
      else TraditionalSSETransport.readSSEEvents_loop ctx t n rest EmptyString [] sent)
    as Hbody.
  { intros eventType. rewrite <- app_assoc, loop_data_lines. cbn [app].
    cbn [TraditionalSSETransport.readSSEEvents_loop].
    change (strings.HasPrefix "" "event:") with false.
    change (strings.HasPrefix "" "data:") with false.
    cbn [String.eqb andb].
    destruct (sse.data_fields e) as [|d ds]; [done|].
    cbn [map List.length Nat.ltb Nat.leb]. done. }
  destruct (sse.event_field e) as [type|]; [|apply Hbody].
  cbn [app]. cbn [TraditionalSSETransport.readSSEEvents_loop].
  rewrite HasPrefix_event, TrimPrefix_event. apply Hbody.
Qed.

Lemma endpoint_no_message (e : sse.Event) :
  sse.is_endpoint e = true -> sse.is_message e = false.
Proof.
  unfold sse.is_endpoint, sse.is_message. intros Heq%String.eqb_eq. by rewrite Heq.
Qed.

Lemma events_then_rest ctx (t : TraditionalSSETransport.state) n
    (events : list sse.Event) rest sent :
  Forall (fun e => sse.data_fields e <> []) events ->
  let messages := map sse.data (List.filter sse.is_message events) in
  TraditionalSSETransport.readSSEEvents_loop ctx t n (sse.stream_lines events ++ rest)
    EmptyString [] sent
  = let '(sent', eff) :=
      TraditionalSSETransport.readSSEEvents_loop ctx
        (TraditionalSSETransport.found_after ctx t n (List.length messages))
        (n + List.length messages) rest EmptyString []
        (match sent with
         | Some endpoint => Some endpoint
         | None => head (map sse.data (List.filter sse.is_endpoint events))
         end) in
    (sent', TraditionalSSETransport.handleMessages ctx t n messages ++ eff).
Proof.
  intros Hdata. cbv zeta. revert t n sent.
  induction Hdata as [|e events He _ IH]; intros t n sent.
  { cbn. rewrite Nat.add_0_r.
    destruct sent; by destruct (TraditionalSSETransport.readSSEEvents_loop ctx t n rest _ _ _). }
  unfold sse.stream_lines. cbn [map concat]. fold (sse.stream_lines events).
  rewrite <- app_assoc, (one_event ctx t n e _ sent He). cbn [List.filter].
  destruct (sse.is_endpoint e) eqn:Hend.
  - rewrite (endpoint_no_message e Hend).
    destruct sent as [endpoint|]; cbn [negb andb bool_decide];
      [rewrite bool_decide_true by (by eexists)|rewrite bool_decide_false by (by intros [? ?])];
      cbn [negb andb]; by rewrite IH.
  - cbn [andb]. destruct (sse.is_message e).
    + rewrite IH. cbn [map List.length TraditionalSSETransport.found_after
                       TraditionalSSETransport.handleMessages].
      rewrite Nat.add_succ_r.
      destruct (TraditionalSSETransport.readSSEEvents_loop ctx _ _ rest _ _ _)
        as [sent' eff].
      by rewrite <- app_assoc.
    + by rewrite IH.
Qed.

(** Lines that do not end an event: an [event:] line or none, then data
    lines, and no blank line. *)
Lemma unfinished_lines ctx (t : TraditionalSSETransport.state) n (e : sse.Event) sent :
  TraditionalSSETransport.readSSEEvents_loop ctx t n
    (match sse.event_field e with
     | Some type => ["event:" +:+ type]
     | None => []
     end ++ map (fun d => "data:" +:+ d) (sse.data_fields e))
    EmptyString [] sent
  = (sent, []).
Proof.
  assert (forall eventType,
    TraditionalSSETransport.readSSEEvents_loop ctx t n
      (map (fun d => "data:" +:+ d) (sse.data_fields e)) eventType [] sent = (sent, []))
    as Hbody.
  { intros eventType.
    rewrite <- (app_nil_r (map _ (sse.data_fields e))), loop_data_lines. done. }
  destruct (sse.event_field e) as [type|]; [|apply Hbody].
  cbn [app]. cbn [TraditionalSSETransport.readSSEEvents_loop].
  rewrite HasPrefix_event. apply Hbody.
Qed.

(** As long as no other goroutine sets a handler, every message goes to
    the handler of [t]. *)
Lemma handleMessages_no_call ctx (t : TraditionalSSETransport.state) n payloads :
  (forall k, TraditionalSSETransport.SetMessageHandler_calls ctx k = None) ->
  TraditionalSSETransport.handleMessages ctx t n payloads
  = concat (map (TraditionalSSETransport.handleMessage t) payloads).
Proof.
  intros Hnone. revert n. induction payloads as [|data payloads IH]; intros n; [done|].
  cbn [TraditionalSSETransport.handleMessages map concat].
  unfold TraditionalSSETransport.found. rewrite Hnone. by rewrite IH.
Qed.

(** X13. How the reader of the traditional transport takes a stream of events,
    each with at least one data line. White space around the type and
    around each data line, as Unicode defines it, is no part of them. The
    data of the first event of type [endpoint] is the endpoint; the events
    of type [message] and the events without type are handed to
    [handleMessage] in the order of the stream, each with the message
    handler the transport has when its turn comes; no other event is: not a
    later [endpoint] event, not an event of any other type. The error of the
    scanner is reported only while no endpoint was found. When the stream
    has ended the close handler the transport has then is called, last; as
    long as the stream stays open it is not. *)
Theorem readSSEEvents_by_event (t : TraditionalSSETransport.state)
    (ctx : TraditionalSSETransport.Context) (body : bufio.Reader)
    (events : list sse.Event) scanner :
  TraditionalSSETransport.Scan ctx body = (sse.stream_lines events, scanner) ->
  Forall (fun e => sse.data_fields e <> []) events ->
  let endpoint := head (map sse.data (List.filter sse.is_endpoint events)) in
  TraditionalSSETransport.readSSEEvents t ctx body
  = (endpoint,
     match endpoint, scanner with
     | None, TraditionalSSETransport.Ended scanner_Err => scanner_Err
     | _, _ => None
     end,
     TraditionalSSETransport.handleMessages ctx t 0
       (map sse.data (List.filter sse.is_message events))
     ++ match scanner with
        | TraditionalSSETransport.Ended _ =>
            match default (TraditionalSSETransport.closeHandler t)
                    (TraditionalSSETransport.SetCloseHandler_call ctx) with
            | Some handler => [call_closeHandler handler]
            | None => []
            end
        | TraditionalSSETransport.Waiting => []
        end).
Proof.
  intros Hscan Hdata. cbv zeta. unfold TraditionalSSETransport.readSSEEvents.
  rewrite Hscan, <- (app_nil_r (sse.stream_lines events)).
  pose proof (events_then_rest ctx t 0 events [] None Hdata) as Hloop.
  cbv zeta in Hloop. rewrite Hloop.
  cbn [TraditionalSSETransport.readSSEEvents_loop]. rewrite !app_nil_r.
  destruct (head _), scanner as [[err|]|]; by rewrite ?app_nil_r.
Qed.

(** X14. An event that the stream does not finish is lost: when the stream ends
    after the data lines of an event, before the blank line, the reader of
    the traditional transport does with the stream what it does with the
    events before, and the last event reaches nobody: it is no endpoint and
    no message. (The streamable transport handles such an event.) *)
Theorem readSSEEvents_unfinished_event (t : TraditionalSSETransport.state)
    (ctx : TraditionalSSETransport.Context)
    (body body' : bufio.Reader) (events : list sse.Event) (last : sse.Event) scanner :
  Forall (fun e => sse.data_fields e <> []) events ->
  TraditionalSSETransport.Scan ctx body
  = (sse.stream_lines events
     ++ match sse.event_field last with
        | Some type => ["event:" +:+ type]
        | None => []
        end ++ map (fun d => "data:" +:+ d) (sse.data_fields last),
     scanner) ->
  TraditionalSSETransport.Scan ctx body' = (sse.stream_lines events, scanner) ->
  TraditionalSSETransport.readSSEEvents t ctx body
  = TraditionalSSETransport.readSSEEvents t ctx body'.
Proof.
  intros Hdata Hscan Hscan'. unfold TraditionalSSETransport.readSSEEvents.
  pose proof (fun rest => events_then_rest ctx t 0 events rest None Hdata) as Hloop.
  cbv zeta in Hloop.
  rewrite Hscan, Hscan', Hloop, unfinished_lines.
  rewrite <- (app_nil_r (sse.stream_lines events)).
  by rewrite Hloop.
Qed.

End WithLibraries.

(** *** Examples *)

Lemma announced_data : Forall (fun e => sse.data_fields e <> []) samples.announced.
Proof. repeat constructor; discriminate. Qed.

(** The stream of five events, still open after them: the endpoint is
    [/rpc]; the response goes to the handler of the transport and the
    notification to the handler that was set after the response; no close
    handler is called. *)
Lemma readSSEEvents_by_event_witness :
  (@TraditionalSSETransport.readSSEEvents library.codec examples.unstarted
     samples.busy samples.announced_body).1
  = (Some "/rpc", None)
  /\ omap (fun e => match e with
                    | call_messageHandler handler msg => Some (handler, MessageType msg)
                    | _ => None
                    end)
       (@TraditionalSSETransport.readSSEEvents library.codec examples.unstarted
          samples.busy samples.announced_body).2
     = [(1, BaseMessageTypeJSONRPCResponseType);
        (2, BaseMessageTypeJSONRPCNotificationType)]
  /\ List.length
       (@TraditionalSSETransport.readSSEEvents library.codec examples.unstarted
          samples.busy samples.announced_body).2
     = 2.
Proof.
  pose proof (@readSSEEvents_by_event library.codec examples.unstarted samples.busy
                samples.announced_body samples.announced TraditionalSSETransport.Waiting
                ltac:(vm_compute; reflexivity) announced_data) as W.
  cbv zeta in W. rewrite W. repeat split; vm_compute; reflexivity.
Defined.

(** White space of Unicode around the fields: an ideographic space (U+3000)
    after the type and no-break spaces (U+00A0) around the data. The
    endpoint is [/rpc]. *)
Example readSSEEvents_Unicode_space :
  (@TraditionalSSETransport.readSSEEvents library.codec examples.unstarted
     examples.patient
     {| bufio.content :=
          samples.text_of
            [ "event: endpoint" +:+ strings.bytes [227; 128; 128];
              "data: " +:+ strings.bytes [194; 160] +:+ "/rpc" +:+ strings.bytes [194; 160];
              EmptyString ];
        bufio.failure := None |}).1
  = (Some "/rpc", None).
Proof. vm_compute. reflexivity. Qed.

(** Bytes that only look like the encoding of a white space are kept: a
    lone continuation byte, and the second half of an encoding whose first
    half belongs to another rune. *)
Example TrimSpace_bytes :
  strings.TrimSpace (" a" +:+ strings.bytes [160]) = "a" +:+ strings.bytes [160]
  /\ strings.TrimSpace (strings.bytes [226; 154; 128]) = strings.bytes [226; 154; 128]
  /\ strings.TrimSpace (strings.bytes [9; 226; 128; 137; 97; 32; 225; 154; 128; 194; 133])
     = "a".
Proof. repeat split; vm_compute; reflexivity. Qed.

Lemma readSSEEvents_unfinished_event_witness :
  @TraditionalSSETransport.readSSEEvents library.codec examples.unstarted
    examples.patient samples.cut_body
  = @TraditionalSSETransport.readSSEEvents library.codec examples.unstarted
      examples.patient samples.announced_body.
Proof.
  apply (@readSSEEvents_unfinished_event library.codec examples.unstarted
           examples.patient samples.cut_body samples.announced_body samples.announced
           samples.late (TraditionalSSETransport.Ended None) announced_data);
    vm_compute; reflexivity.
Defined.

End event_reader.

Module connection.
Import transport.

(** *** [resolveEndpoint] *)

Lemma append_cons (c : ascii) (a s : string) : String c a +:+ s = String c (a +:+ s).
Proof. reflexivity. Qed.

Lemma substring_app (a rest : string) :
  String.substring 0 (String.length a) (a +:+ rest) = a.
Proof.
  induction a as [|c a IH]; [by destruct rest|].
  rewrite append_cons. cbn. by rewrite IH.
Qed.

Lemma substring_tail (c : ascii) (s : string) :
  String.substring 1 (String.length (String c s) - 1) (String c s) = s.
Proof.
  cbn. rewrite Nat.sub_0_r. induction s as [|c' s IH]; [done|]. cbn. by rewrite IH.
Qed.

Lemma LastIndex_not_there (s : string) :
  strings.Contains s "/" = false -> strings.LastIndex s "/" = None.
Proof.
  unfold strings.Contains. induction s as [|c s IH]; [done|].
  cbn [String.index strings.LastIndex].
  destruct (String.prefix "/" (String c s)); [done|].
  destruct (String.index 0 "/" s); [done|]. intros _. by rewrite IH.
Qed.

Lemma LastIndex_app (a s sub : string) i :
  strings.LastIndex s sub = Some i ->
  strings.LastIndex (a +:+ s) sub = Some (String.length a + i).
Proof.
  intros Hs. induction a as [|c a IH]; [done|].
  rewrite append_cons. cbn [strings.LastIndex String.length]. by rewrite IH.
Qed.

Lemma LastIndex_last_slash (dir leaf : string) :
  strings.Contains leaf "/" = false ->
  strings.LastIndex (dir +:+ "/" +:+ leaf) "/" = Some (String.length dir).
Proof.
  intros Hleaf. rewrite (LastIndex_app dir ("/" +:+ leaf) "/" 0); [by rewrite Nat.add_0_r|].
  cbv [String.append]. cbn [strings.LastIndex].
  rewrite (LastIndex_not_there _ Hleaf). cbn. by destruct leaf.
Qed.

Lemma append_not_empty (a b : string) : b <> EmptyString -> a +:+ b <> EmptyString.
Proof. destruct a; [done|]. by rewrite append_cons. Qed.

Lemma resolveEndpoint_not_empty (t : TraditionalSSETransport.state) endpoint :
  TraditionalSSETransport.resolveEndpoint t endpoint <> EmptyString.
Proof.
  unfold TraditionalSSETransport.resolveEndpoint.
  destruct (strings.HasPrefix endpoint "http://" || strings.HasPrefix endpoint "https://")
    eqn:Habs.
  { intros ->. done. }
  destruct (strings.HasPrefix endpoint "/") eqn:Hslash.
  - apply append_not_empty. intros ->. done.
  - apply append_not_empty. done.
Qed.

(** X15. [resolveEndpoint] on an endpoint that is no absolute URL. What comes
    after the last slash of the stream URL is replaced by the endpoint, one
    leading slash of the endpoint or none making no difference: an endpoint
    with a leading slash is taken from the directory of the stream URL too,
    not from the root of the server. When the last slash is one of the
    first nine bytes of the stream URL, the endpoint is put behind the whole
    stream URL instead. *)
Theorem resolveEndpoint_relative (t : TraditionalSSETransport.state)
    (dir leaf endpoint : string) :
  TraditionalSSETransport.sseURL t = dir +:+ "/" +:+ leaf ->
  strings.Contains leaf "/" = false ->
  strings.HasPrefix endpoint "http://" = false ->
  strings.HasPrefix endpoint "https://" = false ->
  TraditionalSSETransport.resolveEndpoint t endpoint
  = (if (8 <? String.length dir)%nat then dir else TraditionalSSETransport.sseURL t)
    +:+ "/" +:+ strings.TrimPrefix endpoint "/".
Proof.
  intros Hurl Hleaf Hhttp Hhttps. unfold TraditionalSSETransport.resolveEndpoint.
  rewrite Hhttp, Hhttps. cbn [orb].
  rewrite Hurl, (LastIndex_last_slash dir leaf Hleaf).
  assert ((if strings.HasPrefix endpoint "/" then endpoint else "/" +:+ endpoint)
          = "/" +:+ strings.TrimPrefix endpoint "/") as Hend.
  { unfold strings.TrimPrefix.
    destruct (strings.HasPrefix endpoint "/") eqn:Hslash; [|done].
    destruct endpoint as [|c endpoint]; [done|].
    unfold strings.HasPrefix in Hslash. cbn [String.prefix] in Hslash.
    destruct (ascii_dec "/" c) as [<-|]; [|done].
    change (String.length "/") with 1. by rewrite substring_tail. }
  rewrite <- Hend.
  destruct (8 <? String.length dir)%nat.
  - rewrite substring_app. by destruct (strings.HasPrefix endpoint "/").
  - by destruct (strings.HasPrefix endpoint "/").
Qed.

Section WithLibraries.
Context `{json.Float64} `{Codec}.

(** *** [Start] *)

(** X16. A [Start] that fails before the stream is accepted (the URL is refused,
    the request fails, the status is not 200, the content type is not an
    event stream) leaves the transport as it was, not started, and leaves
    no reader behind; the body of a response that was received is closed. *)
Theorem Start_refused (t : TraditionalSSETransport.state) ctx net t1 err eff background :
  TraditionalSSETransport.started t = false ->
  TraditionalSSETransport.Start t ctx net
  = (t1, TraditionalSSETransport.Returns (Some err), eff, background) ->
  let req := TraditionalSSETransport.get_request t in
  match err with
  | failed_to_create_SSE_request => t1 = t /\ background = [] /\ eff = []
  | failed_to_connect_to_SSE_endpoint cause =>
      t1 = t /\ background = [] /\ eff = [client_Do req]
      /\ http.Do net req = inl cause
  | SSE_connection_failed body status =>
      t1 = t /\ background = [] /\ eff = [client_Do req; Body_Close]
      /\ status <> http.StatusOK
      /\ exists resp,
          http.Do net req = inr resp /\ status = http.StatusCode resp
          /\ body = bufio.content (http.Response_Body resp)
  | unexpected_content_type contentType =>
      t1 = t /\ background = [] /\ eff = [client_Do req; Body_Close]
      /\ strings.Contains contentType "text/event-stream" = false
      /\ exists resp,
          http.Do net req = inr resp
          /\ contentType = http.Header_Get (http.Response_Header resp) "Content-Type"
  | failed_to_get_endpoint _ | context_error _ =>
      TraditionalSSETransport.started t1 = true
  | _ => False
  end.
Proof.
  intros Hs. unfold TraditionalSSETransport.Start. rewrite Hs. cbv zeta.
  destruct (http.parses net _); cbn [negb]; [|by intros [= <- <- <- <-]].
  destruct (http.Do net _) as [cause|resp] eqn:Hdo; [by intros [= <- <- <- <-]|].
  destruct (http.StatusCode resp =? http.StatusOK)%nat eqn:Hstatus; cbn [negb].
  2:{ unfold bufio.ReadAll. intros [= <- <- <- <-].
      apply Nat.eqb_neq in Hstatus. repeat split; try done. by exists resp. }
  destruct (strings.Contains _ _) eqn:Hct; cbn [negb].
  2:{ intros [= <- <- <- <-]. repeat split; try done. by exists resp. }
  destruct (TraditionalSSETransport.readSSEEvents _ _ _) as [[endpointCh errCh] bg].
  destruct (TraditionalSSETransport.ctx_Err ctx) as [cause|],
    (TraditionalSSETransport.ctx_Done_first ctx), endpointCh, errCh;
    try done; by intros [= <- <- <- <-].
Qed.

(** X17. A [Start] that fails once the stream is accepted (the stream breaks
    before it names an endpoint, or the context ends first), or that never
    returns, leaves the transport marked as started, with the stream it
    opened, not closed, and with the endpoint it had. From then on [Start]
    returns success without a request, so the transport cannot be started
    again; and when it had no endpoint, every [Send] fails. *)
Theorem Start_fails_started (t : TraditionalSSETransport.state) ctx net t1 r eff background :
  TraditionalSSETransport.started t = false ->
  TraditionalSSETransport.Start t ctx net = (t1, r, eff, background) ->
  match r with
  | TraditionalSSETransport.Blocks
  | TraditionalSSETransport.Returns (Some (failed_to_get_endpoint _))
  | TraditionalSSETransport.Returns (Some (context_error _)) => True
  | _ => False
  end ->
  (exists resp,
      http.Do net (TraditionalSSETransport.get_request t) = inr resp
      /\ t1 = TraditionalSSETransport.set_started t resp)
  /\ eff = [client_Do (TraditionalSSETransport.get_request t)]
  /\ (forall ctx' net',
        TraditionalSSETransport.Start t1 ctx' net'
        = (t1, TraditionalSSETransport.Returns None, [], []))
  /\ (TraditionalSSETransport.postEndpoint t = EmptyString ->
      forall message net',
        TraditionalSSETransport.Send t1 message net'
        = (Some transport_not_started_or_endpoint_not_received, [])).
Proof.
  intros Hs. unfold TraditionalSSETransport.Start at 1. rewrite Hs. cbv zeta.
  destruct (http.parses net _); cbn [negb]; [|by intros [= <- <- <- <-]].
  destruct (http.Do net _) as [cause|resp] eqn:Hdo; [by intros [= <- <- <- <-]|].
  destruct (http.StatusCode resp =? http.StatusOK)%nat eqn:Hstatus; cbn [negb].
  2:{ unfold bufio.ReadAll. by intros [= <- <- <- <-]. }
  destruct (strings.Contains _ _) eqn:Hct; cbn [negb]; [|by intros [= <- <- <- <-]].
  destruct (TraditionalSSETransport.readSSEEvents _ _ _) as [[endpointCh errCh] bg].
  assert (forall t2 r2,
    (t2, r2, [client_Do (TraditionalSSETransport.get_request t)], bg)
    = (t1, r, eff, background) ->
    t2 = TraditionalSSETransport.set_started t resp ->
    (exists resp0, (inr resp : string + http.Response) = inr resp0
                   /\ t1 = TraditionalSSETransport.set_started t resp0)
    /\ eff = [client_Do (TraditionalSSETransport.get_request t)]
    /\ (forall ctx' net',
          TraditionalSSETransport.Start t1 ctx' net'
          = (t1, TraditionalSSETransport.Returns None, [], []))
    /\ (TraditionalSSETransport.postEndpoint t = EmptyString ->
        forall message net',
          TraditionalSSETransport.Send t1 message net'
          = (Some transport_not_started_or_endpoint_not_received, []))) as Hdone.
  { intros t2 r2 [= <- <- <- <-] ->. split; [by exists resp|]. split; [done|]. split.
    - intros ctx' net'. by unfold TraditionalSSETransport.Start.
    - intros Hp message net'. unfold TraditionalSSETransport.Send.
      cbn [TraditionalSSETransport.set_started TraditionalSSETransport.postEndpoint].
      by rewrite Hp. }
  destruct (TraditionalSSETransport.ctx_Err ctx) as [cause|],
    (TraditionalSSETransport.ctx_Done_first ctx), endpointCh, errCh;
    intros Hstart Hr;
    try (by eapply Hdone);
    by injection Hstart as <- <- <- <-.
Qed.



(** X19. After a [Start] that returned success on a transport that was not
    started, the transport has an endpoint: the data of the endpoint event,
    resolved against the stream URL, which is never the empty string. No
    [Send] fails then for want of an endpoint. *)
Theorem Start_gives_endpoint (t : TraditionalSSETransport.state) ctx net t1 eff background :
  TraditionalSSETransport.started t = false ->
  TraditionalSSETransport.Start t ctx net
  = (t1, TraditionalSSETransport.Returns None, eff, background) ->
  (exists resp endpoint,
      http.Do net (TraditionalSSETransport.get_request t) = inr resp
      /\ (TraditionalSSETransport.readSSEEvents
            (TraditionalSSETransport.set_started t resp) ctx (http.Response_Body resp)).1.1
         = Some endpoint
      /\ t1 = TraditionalSSETransport.set_postEndpoint
                (TraditionalSSETransport.set_started t resp)
                (TraditionalSSETransport.resolveEndpoint t endpoint))
  /\ TraditionalSSETransport.postEndpoint t1 <> EmptyString
  /\ forall message net',
      (TraditionalSSETransport.Send t1 message net').1
      <> Some transport_not_started_or_endpoint_not_received.
Proof.
  intros Hs Hstart.
  assert (exists resp endpoint,
      http.Do net (TraditionalSSETransport.get_request t) = inr resp
      /\ (TraditionalSSETransport.readSSEEvents
            (TraditionalSSETransport.set_started t resp) ctx (http.Response_Body resp)).1.1
         = Some endpoint
      /\ t1 = TraditionalSSETransport.set_postEndpoint
                (TraditionalSSETransport.set_started t resp)
                (TraditionalSSETransport.resolveEndpoint t endpoint))
    as (resp & endpoint & Hdo & Hread & ->).
  { revert Hstart. unfold TraditionalSSETransport.Start. rewrite Hs. cbv zeta.
    destruct (http.parses net _); cbn [negb]; [|done].
    destruct (http.Do net _) as [cause|resp] eqn:Hdo; [done|].
    destruct (http.StatusCode resp =? http.StatusOK)%nat; cbn [negb].
    2:{ unfold bufio.ReadAll. done. }
    destruct (strings.Contains _ _); cbn [negb]; [|done].
    destruct (TraditionalSSETransport.readSSEEvents _ _ _) as [[endpointCh errCh] bg]
      eqn:Hread.
    destruct (TraditionalSSETransport.ctx_Err ctx) as [cause|],
      (TraditionalSSETransport.ctx_Done_first ctx), endpointCh as [endpoint|], errCh;
      try done; intros [= <- <- <-]; exists resp, endpoint; by rewrite Hread. }
  assert (TraditionalSSETransport.postEndpoint
            (TraditionalSSETransport.set_postEndpoint
               (TraditionalSSETransport.set_started t resp)
               (TraditionalSSETransport.resolveEndpoint t endpoint)) <> EmptyString) as Hp.
  { cbn [TraditionalSSETransport.set_postEndpoint TraditionalSSETransport.postEndpoint].
    apply resolveEndpoint_not_empty. }
  split; [by exists resp, endpoint|]. split; [done|].
  intros message net'. unfold TraditionalSSETransport.Send.
  apply String.eqb_neq in Hp. rewrite Hp.
  destruct (MarshalMessage _); [|done].
  destruct (http.parses net' _); cbn [negb]; [|done].
  destruct (http.Do net' _) as [cause|resp']; [done|].
  destruct (_ && _); [|done]. by destruct (bufio.ReadAll _).
Qed.

(** *** [Send] and [Close] *)

(** X20. The POST of the traditional transport. Its answer counts by its status
    alone: 200 and 202 are success, every other status is the error, with
    the body as its text. The body of the answer is never decoded: whatever
    the server writes there, no message reaches the handler through [Send].
    The body is closed on every path on which there is one. *)
Theorem Send_posts (t : TraditionalSSETransport.state)
    (message : option BaseJsonRpcMessage) (net : http.Network) :
  dispatched (TraditionalSSETransport.Send t message net).2 = []
  /\ forall jsonData resp,
      TraditionalSSETransport.postEndpoint t <> EmptyString ->
      MarshalMessage (TraditionalSSETransport.cleanMessage message) = Some jsonData ->
      http.parses net (TraditionalSSETransport.postEndpoint t) = true ->
      let req := TraditionalSSETransport.post_request t
                   (TraditionalSSETransport.postEndpoint t) jsonData in
      http.Do net req = inr resp ->
      TraditionalSSETransport.Send t message net
      = (if (http.StatusCode resp =? 200)%nat || (http.StatusCode resp =? 202)%nat
         then None
         else Some (server_returned_error (bufio.content (http.Response_Body resp))
                      (http.StatusCode resp)),
         [client_Do req; Body_Close]).
Proof.
  split.
  - unfold TraditionalSSETransport.Send.
    destruct (String.eqb _ _); [done|].
    destruct (MarshalMessage _); [|done].
    destruct (http.parses net _); cbn [negb]; [|done].
    destruct (http.Do net _) as [cause|resp]; [done|].
    destruct (_ && _); [|done]. by destruct (bufio.ReadAll _).
  - intros jsonData resp Hp Hm Hurl req Hdo. subst req.
    unfold TraditionalSSETransport.Send.
    apply String.eqb_neq in Hp. rewrite Hp, Hm, Hurl. cbn [negb]. rewrite Hdo.
    unfold http.StatusOK, http.StatusAccepted, bufio.ReadAll.
    by destruct (http.StatusCode resp =? 200)%nat, (http.StatusCode resp =? 202)%nat.
Qed.

(** X21. [Close] closes the stream once: a second [Close] finds no stream, and
    calls the close handler again. [Close] does not take back what [Start]
    did: the transport stays started and keeps its endpoint, so a [Start]
    after [Close] opens no new stream and returns success. *)
Theorem Close_keeps_started (t : TraditionalSSETransport.state) :
  let closing :=
    match TraditionalSSETransport.closeHandler t with
    | Some handler => [call_closeHandler handler]
    | None => []
    end in
  let '(t1, err, eff) := TraditionalSSETransport.Close t in
  err = None
  /\ eff = match TraditionalSSETransport.sseResp t with
           | Some _ => Body_Close :: closing
           | None => closing
           end
  /\ TraditionalSSETransport.sseResp t1 = None
  /\ TraditionalSSETransport.started t1 = TraditionalSSETransport.started t
  /\ TraditionalSSETransport.postEndpoint t1 = TraditionalSSETransport.postEndpoint t
  /\ TraditionalSSETransport.Close t1 = (t1, None, closing)
  /\ (TraditionalSSETransport.started t = true ->
      forall ctx net,
        TraditionalSSETransport.Start t1 ctx net
        = (t1, TraditionalSSETransport.Returns None, [], [])).
Proof.
  cbv zeta. unfold TraditionalSSETransport.Close at 1.
  destruct (TraditionalSSETransport.sseResp t) as [resp|] eqn:Hresp.
  - repeat split; try done. intros Hs ctx net.
    unfold TraditionalSSETransport.Start. cbn [TraditionalSSETransport.started].
    by rewrite Hs.
  - repeat split; try done.
    + unfold TraditionalSSETransport.Close. by rewrite Hresp.
    + intros Hs ctx net. unfold TraditionalSSETransport.Start. by rewrite Hs.
Qed.

End WithLibraries.

(** *** Examples *)

(** The endpoint [/msg] against a stream in a directory, and against a
    stream whose last slash is the ninth byte of its URL. *)
Lemma resolveEndpoint_relative_witness :
  TraditionalSSETransport.resolveEndpoint
    (TraditionalSSETransport.NewTraditionalSSETransport "https://h/a/sse") "/msg"
  = "https://h/a/msg"
  /\ TraditionalSSETransport.resolveEndpoint
       (TraditionalSSETransport.NewTraditionalSSETransport "http://h/sse") "/msg"
     = "http://h/sse/msg".
Proof.
  split.
  - pose proof (resolveEndpoint_relative
                  (TraditionalSSETransport.NewTraditionalSSETransport "https://h/a/sse")
                  "https://h/a" "sse" "/msg") as W.
    vm_compute in W. vm_compute. apply W; reflexivity.
  - pose proof (resolveEndpoint_relative
                  (TraditionalSSETransport.NewTraditionalSSETransport "http://h/sse")
                  "http://h" "sse" "/msg") as W.
    vm_compute in W. vm_compute. apply W; reflexivity.
Defined.

Lemma Start_refused_witness :
  @TraditionalSSETransport.Start library.codec examples.unstarted examples.patient
    samples.refusing
  = (examples.unstarted,
     TraditionalSSETransport.Returns (Some (SSE_connection_failed "no such stream" 404)),
     [client_Do (TraditionalSSETransport.get_request examples.unstarted); Body_Close], [])
  /\ 404 <> http.StatusOK.
Proof.
  assert (@TraditionalSSETransport.Start library.codec examples.unstarted examples.patient
            samples.refusing
          = (examples.unstarted,
             TraditionalSSETransport.Returns
               (Some (SSE_connection_failed "no such stream" 404)),
             [client_Do (TraditionalSSETransport.get_request examples.unstarted);
              Body_Close], [])) as Hstart by (vm_compute; reflexivity).
  split; [exact Hstart|].
  pose proof (@Start_refused library.codec examples.unstarted examples.patient
                samples.refusing _ _ _ _ eq_refl Hstart) as W.
  cbv zeta iota beta in W. apply W.
Defined.

Lemma Start_fails_started_witness :
  samples.cut_Start.1.1.2
  = TraditionalSSETransport.Returns
      (Some (failed_to_get_endpoint (bufio.ReadError "unexpected EOF")))
  /\ @TraditionalSSETransport.Start library.codec samples.cut_Start.1.1.1 examples.patient
       examples.stream
     = (samples.cut_Start.1.1.1, TraditionalSSETransport.Returns None, [], [])
  /\ @TraditionalSSETransport.Send Z_Float64 library.codec samples.cut_Start.1.1.1
       examples.ping examples.stream
     = (Some transport_not_started_or_endpoint_not_received, []).
Proof.
  destruct (@Start_fails_started Z_Float64 library.codec examples.unstarted examples.patient
              samples.cut_stream samples.cut_Start.1.1.1 samples.cut_Start.1.1.2
              samples.cut_Start.1.2 samples.cut_Start.2)
    as (_ & _ & Hagain & Hsend);
    [reflexivity|vm_compute; reflexivity|vm_compute; exact I|].
  split; [vm_compute; reflexivity|]. split; [apply Hagain|apply Hsend; reflexivity].
Defined.


(** The same stream, ended by the server in good order: [Start] does not
    return either, and the reader has called the close handler. *)
Example Start_ended_stream :
  (@TraditionalSSETransport.Start library.codec samples.closing examples.patient
     samples.quiet_stream).1.1.2
  = TraditionalSSETransport.Blocks
  /\ last (@TraditionalSSETransport.Start library.codec samples.closing examples.patient
             samples.quiet_stream).2
     = Some (call_closeHandler 7).
Proof. split; vm_compute; reflexivity. Qed.

(** With a context that has a deadline [Start] returns, with the error of
    the context. *)
Example Start_deadline :
  (@TraditionalSSETransport.Start library.codec examples.unstarted samples.deadline
     samples.silent_stream).1.1.2
  = TraditionalSSETransport.Returns (Some (context_error "context deadline exceeded")).
Proof. vm_compute. reflexivity. Qed.

(** A line that has not got its newline yet is no line for the scanner of
    a stream that is open: the endpoint event below is not complete, and
    [Start] waits. On the stream that has ended the line counts. *)
Example Start_unfinished_line :
  (@TraditionalSSETransport.Start library.codec examples.unstarted samples.waiting
     samples.slow_stream).1.1.2
  = TraditionalSSETransport.Blocks
  /\ (@TraditionalSSETransport.Start library.codec examples.unstarted examples.patient
        samples.slow_stream).1.1.2
     = TraditionalSSETransport.Returns None.
Proof. split; vm_compute; reflexivity. Qed.

Lemma Start_gives_endpoint_witness :
  TraditionalSSETransport.postEndpoint examples.first_Start.1.1.1 <> EmptyString.
Proof.
  apply (@Start_gives_endpoint Z_Float64 library.codec examples.unstarted examples.patient
           examples.stream examples.first_Start.1.1.1 examples.first_Start.1.2
           examples.first_Start.2);
    [reflexivity|vm_compute; reflexivity].
Defined.

(** A POST that is answered with status 202 and a response in the body: no
    error, and the response reaches nobody. *)
Lemma Send_posts_witness :
  @TraditionalSSETransport.Send Z_Float64 library.codec examples.first_Start.1.1.1
    examples.ping samples.accepting
  = (None,
     [client_Do (TraditionalSSETransport.post_request examples.first_Start.1.1.1
                   "https://h/rpc" examples.ping_text);
      Body_Close]).
Proof.
  pose proof (proj2 (@Send_posts Z_Float64 library.codec examples.first_Start.1.1.1
                       examples.ping samples.accepting)
                examples.ping_text
                {| http.StatusCode := 202;
                   http.Response_Header :=
                     set_headers ∅ [("Content-Type", "application/json")];
                   http.Response_Body :=
                     {| bufio.content := examples.response_payload;
                        bufio.failure := None |} |}) as W.
  vm_compute in W. vm_compute. apply W; [discriminate|reflexivity..].
Defined.

Lemma Close_keeps_started_witness :
  (@TraditionalSSETransport.Close examples.first_Start.1.1.1).2 = [Body_Close]
  /\ @TraditionalSSETransport.Start library.codec
       (@TraditionalSSETransport.Close examples.first_Start.1.1.1).1.1
       examples.patient examples.stream
     = ((@TraditionalSSETransport.Close examples.first_Start.1.1.1).1.1,
        TraditionalSSETransport.Returns None, [], []).
Proof.
  pose proof (@Close_keeps_started library.codec examples.first_Start.1.1.1) as W.
  vm_compute in W. destruct W as (_ & Heff & _ & _ & _ & _ & Hstart).
  split; [vm_compute; exact Heff|].
  vm_compute. apply (Hstart eq_refl examples.patient examples.stream).
Defined.

End connection.

Module keychain.
Import auth.

Lemma first_match_some entries serverName serverURL token :
  first_match entries serverName serverURL = Some token ->
  exists key entry,
    (key, entry) ∈ entries /\ matching key entry serverName serverURL = true
    /\ token = AccessToken entry.
Proof.
  induction entries as [|[key entry] entries IH]; [done|]. cbn [first_match].
  destruct (matching key entry serverName serverURL) eqn:Hm.
  - intros [= <-]. exists key, entry. split; [by left|done].
  - intros (key' & entry' & Hin & Hm' & ->)%IH. exists key', entry'. split; [by right|done].
Qed.

Lemma first_match_none entries serverName serverURL :
  first_match entries serverName serverURL = None <->
  forall key entry, (key, entry) ∈ entries -> matching key entry serverName serverURL = false.
Proof.
  induction entries as [|[key entry] entries IH]; cbn [first_match].
  - split; [|done]. intros _ key entry Hin. by apply elem_of_nil in Hin.
  - destruct (matching key entry serverName serverURL) eqn:Hm.
    + split; [done|]. intros Hall. rewrite (Hall key entry) in Hm; [done|by left].
    + rewrite IH. split.
      * intros Hall key' entry' [[= -> ->]|Hin]%elem_of_cons; [done|by apply Hall].
      * intros Hall key' entry' Hin. apply Hall. by right.
Qed.

(** X22. The token [getMCPOAuthToken] returns is the access token of an entry
    of the keychain that matches the server, and it fails with [no token
    found] exactly when the keychain could be read and no entry matches.
    When the entries that match all carry the same token, the order in
    which the map is visited makes no difference. *)
Theorem getMCPOAuthToken_matching (k : Keychain) (serverName serverURL : string) :
  (forall token,
      getMCPOAuthToken k serverName serverURL = inr token ->
      exists output creds key entry,
        Output k = inr output /\ Unmarshal k output = Some creds
        /\ (key, entry) ∈ MCPOAuth creds
        /\ matching key entry serverName serverURL = true
        /\ token = AccessToken entry)
  /\ (forall output creds,
        Output k = inr output -> Unmarshal k output = Some creds ->
        (getMCPOAuthToken k serverName serverURL
         = inl (no_token_found_for_server serverName)
         <-> forall key entry,
              (key, entry) ∈ MCPOAuth creds ->
              matching key entry serverName serverURL = false))
  /\ (forall entries entries' token,
        entries ≡ₚ entries' ->
        (forall key entry,
            (key, entry) ∈ entries -> matching key entry serverName serverURL = true ->
            AccessToken entry = token) ->
        first_match entries serverName serverURL
        = first_match entries' serverName serverURL).
Proof.
  split; [|split].
  - intros token. unfold getMCPOAuthToken.
    destruct (Output k) as [cause|output]; [done|].
    destruct (Unmarshal k output) as [creds|] eqn:Hcreds; [|done].
    destruct (first_match _ _ _) as [token'|] eqn:Hfirst; [|done].
    intros [= <-]. apply first_match_some in Hfirst as (key & entry & ? & ? & ?).
    by exists output, creds, key, entry.
  - intros output creds Hout Hcreds. unfold getMCPOAuthToken. rewrite Hout, Hcreds.
    destruct (first_match _ _ _) as [token|] eqn:Hfirst.
    + split; [done|]. intros Hall%first_match_none. by rewrite Hall in Hfirst.
    + split; [|done]. intros _. by apply first_match_none.
  - intros entries entries' token Hperm Hsame.
    destruct (first_match entries serverName serverURL) as [tok|] eqn:Hfirst;
      destruct (first_match entries' serverName serverURL) as [tok'|] eqn:Hfirst';
      [| | |done].
    + apply first_match_some in Hfirst as (key & entry & Hin & Hm & ->).
      apply first_match_some in Hfirst' as (key' & entry' & Hin' & Hm' & ->).
      rewrite <- Hperm in Hin'.
      by rewrite (Hsame _ _ Hin Hm), (Hsame _ _ Hin' Hm').
    + apply first_match_some in Hfirst as (key & entry & Hin & Hm & ->).
      rewrite Hperm in Hin.
      by rewrite (proj1 (first_match_none _ _ _) Hfirst' _ _ Hin) in Hm.
    + apply first_match_some in Hfirst' as (key & entry & Hin & Hm & ->).
      rewrite <- Hperm in Hin.
      by rewrite (proj1 (first_match_none _ _ _) Hfirst _ _ Hin) in Hm.
Qed.

Lemma substring_prefix (a rest : string) :
  String.substring 0 (String.length a) (a +:+ rest) = a.
Proof.
  induction a as [|c a IH]; [by destruct rest|].
  change (String c a +:+ rest) with (String c (a +:+ rest)). cbn. by rewrite IH.
Qed.

Lemma length_append (a b : string) :
  String.length (a +:+ b) = String.length a + String.length b.
Proof.
  induction a as [|c a IH]; [done|].
  change (String c a +:+ b) with (String c (a +:+ b)). cbn. by rewrite IH.
Qed.

(** X23. The third way to match is by the key alone: an entry whose key starts
    with the server name and goes on matches, whatever server it was stored
    for. With an empty server name that is every entry with a key. A key
    that is the server name itself does not match that way: then the entry
    has to name the server or its URL. *)
Theorem matching_by_key (entry : MCPOAuthEntry) (serverName serverURL : string) :
  (forall rest, rest <> EmptyString ->
      matching (serverName +:+ rest) entry serverName serverURL = true)
  /\ matching serverName entry serverName serverURL
     = String.eqb (ServerName entry) serverName || String.eqb (ServerURL entry) serverURL.
Proof.
  unfold matching. split.
  - intros rest Hrest. rewrite substring_prefix, String.eqb_refl, length_append.
    assert ((String.length serverName <? String.length serverName + String.length rest)%nat
            = true) as ->; [|by rewrite !orb_true_r].
    apply Nat.ltb_lt. destruct rest; [done|]. cbn. lia.
  - by rewrite Nat.ltb_irrefl, orb_false_r.
Qed.

(** *** Examples *)

(** The server [github] finds the token stored for [github-enterprise]
    under the key [github|1]. *)
Lemma getMCPOAuthToken_matching_witness :
  getMCPOAuthToken samples.one_entry "github" "https://api.github.com/mcp" = inr "tok-1"
  /\ exists key entry,
      matching key entry "github" "https://api.github.com/mcp" = true
      /\ "tok-1" = AccessToken entry.
Proof.
  assert (getMCPOAuthToken samples.one_entry "github" "https://api.github.com/mcp"
          = inr "tok-1") as Htoken by reflexivity.
  split; [exact Htoken|].
  destruct (proj1 (getMCPOAuthToken_matching samples.one_entry "github"
                     "https://api.github.com/mcp") "tok-1" Htoken)
    as (_ & _ & key & entry & _ & _ & _ & Hmatch & Hentry).
  by exists key, entry.
Defined.

Lemma matching_by_key_witness :
  matching "github|1" samples.github "github" "https://api.github.com/mcp" = true.
Proof.
  apply (proj1 (matching_by_key samples.github "github" "https://api.github.com/mcp") "|1").
  discriminate.
Defined.

End keychain.

Module command.
Import main.

Section WithLibraries.
Context `{json.Float64} `{transport.Codec}.

Lemma Start_headers (t : TraditionalSSETransport.state) ctx net t1 r eff background :
  TraditionalSSETransport.Start t ctx net = (t1, r, eff, background) ->
  TraditionalSSETransport.headers t1 = TraditionalSSETransport.headers t.
Proof.
  unfold TraditionalSSETransport.Start.
  destruct (TraditionalSSETransport.started t); [by intros [= <- <- <- <-]|].
  destruct (http.parses net _); cbn [negb]; [|by intros [= <- <- <- <-]].
  destruct (http.Do net _) as [cause|resp]; [by intros [= <- <- <- <-]|].
  destruct (http.StatusCode resp =? http.StatusOK)%nat; cbn [negb].
  2:{ unfold bufio.ReadAll. by intros [= <- <- <- <-]. }
  destruct (strings.Contains _ _); cbn [negb]; [|by intros [= <- <- <- <-]].
  destruct (TraditionalSSETransport.readSSEEvents _ _ _) as [[endpointCh errCh] bg].
  destruct (TraditionalSSETransport.ctx_Err ctx) as [cause|],
    (TraditionalSSETransport.ctx_Done_first ctx), endpointCh, errCh;
    by intros [= <- <- <- <-].
Qed.

(** X24. The token of the keychain on the wire. When [getMCPOAuthToken] gives a
    token that is not empty, every request of the transport that
    [connectHTTP] builds, the GET with which [connectSSE] opens the stream
    and every POST of the client [connectSSE] returns carry
    [Authorization: Bearer] and the token. When it gives an error or an
    empty token, they carry no [Authorization] header at all. *)
Theorem token_on_requests (k : auth.Keychain) (server : MCPServer) (serverName : string) :
  let expected :=
    match auth.getMCPOAuthToken k serverName (Server_URL server) with
    | inr token => if String.eqb token EmptyString then None else Some ("Bearer " +:+ token)
    | inl _ => None
    end in
  (forall jsonData,
      http.Header (SSEClientTransport.request (connectHTTP k server serverName) jsonData)
        !! "Authorization" = expected)
  /\ http.Header (TraditionalSSETransport.get_request (sse_transport k server serverName))
       !! "Authorization" = expected
  /\ (forall ctx net t eff background endpoint jsonData,
        connectSSE k server serverName ctx net = (Client t, eff, background) ->
        http.Header (TraditionalSSETransport.post_request t endpoint jsonData)
          !! "Authorization" = expected).
Proof.
  cbv zeta.
  assert (forall t,
    TraditionalSSETransport.headers t
    = TraditionalSSETransport.headers (sse_transport k server serverName) ->
    forall endpoint jsonData,
      http.Header (TraditionalSSETransport.post_request t endpoint jsonData)
        !! "Authorization"
      = match auth.getMCPOAuthToken k serverName (Server_URL server) with
        | inr token =>
            if String.eqb token EmptyString then None else Some ("Bearer " +:+ token)
        | inl _ => None
        end) as Hpost.
  { intros t Hh endpoint jsonData. unfold TraditionalSSETransport.post_request.
    cbn [http.Header]. rewrite Hh. unfold sse_transport.
    destruct (auth.getMCPOAuthToken _ _ _) as [e|token]; [done|].
    by destruct (String.eqb token EmptyString). }
  split; [|split].
  - intros jsonData. unfold connectHTTP.
    destruct (auth.getMCPOAuthToken _ _ _) as [e|token]; [done|].
    by destruct (String.eqb token EmptyString).
  - unfold sse_transport.
    destruct (auth.getMCPOAuthToken _ _ _) as [e|token]; [done|].
    by destruct (String.eqb token EmptyString).
  - intros ctx net t eff background endpoint jsonData. unfold connectSSE.
    destruct (TraditionalSSETransport.Start _ ctx net) as [[[t1 r] eff1] bg] eqn:Hstart.
    apply Start_headers in Hstart.
    destruct r as [[err|]|]; [done| |done].
    intros [= <- <- <-]. by apply Hpost.
Qed.

End WithLibraries.

(** *** Examples *)

Lemma token_on_requests_witness :
  samples.sse_client.1.1 = Client (samples.transport_of samples.sse_client.1.1)
  /\ http.Header
       (TraditionalSSETransport.post_request (samples.transport_of samples.sse_client.1.1)
          "https://h/rpc" examples.ping_text)
       !! "Authorization"
     = Some "Bearer tok-1".
Proof.
  assert (@connectSSE library.codec samples.one_entry samples.sse_server "github"
            examples.patient examples.stream
          = (Client (samples.transport_of samples.sse_client.1.1),
             samples.sse_client.1.2, samples.sse_client.2)) as Hclient
    by (vm_compute; reflexivity).
  split; [vm_compute; reflexivity|].
  apply (proj2 (proj2 (@token_on_requests library.codec samples.one_entry
                         samples.sse_server "github"))
           examples.patient examples.stream _ _ _ "https://h/rpc" examples.ping_text
           Hclient).
Defined.

End command.

Module listing.
Import main.

(** *** The order of [sort.Strings] *)

Lemma leb_compare (a b : string) : String.leb a b = true <-> String.compare a b <> Gt.
Proof. unfold String.leb. by destruct (String.compare a b). Qed.

#[local] Instance leb_total : Total (fun a b => Is_true (String.leb a b)).
Proof.
  intros a b. destruct (String.leb a b) eqn:Hab; [by left|]. right.
  apply Is_true_true, leb_compare. intros Hba.
  apply json_facts.compare_gt_lt in Hba. apply not_true_iff_false in Hab.
  apply Hab, leb_compare. by rewrite Hba.
Qed.

#[local] Instance leb_transitive : Transitive (fun a b => Is_true (String.leb a b)).
Proof.
  intros a b c Hab%Is_true_true%leb_compare Hbc%Is_true_true%leb_compare.
  apply Is_true_true, leb_compare.
  destruct (String.compare a b) eqn:Cab; [| |done].
  { apply String.compare_eq_iff in Cab. by subst b. }
  destruct (String.compare b c) eqn:Cbc; [| |done].
  { apply String.compare_eq_iff in Cbc. subst c. by rewrite Cab. }
  by rewrite (json_facts.compare_lt_trans _ _ _ Cab Cbc).
Qed.

#[local] Instance leb_antisymm : AntiSymm (=) (fun a b => Is_true (String.leb a b)).
Proof.
  intros a b Hab%Is_true_true%leb_compare Hba%Is_true_true%leb_compare.
  destruct (String.compare a b) eqn:Cab; [| |done].
  - by apply String.compare_eq_iff.
  - by apply json_facts.compare_lt_gt in Cab.
Qed.

Lemma Strings_Permutation (names : list string) : Strings names ≡ₚ names.
Proof. apply merge_sort_Permutation. Qed.

(** The order in which the names come does not matter to [sort.Strings]. *)
Lemma Strings_unique (names names' : list string) :
  names ≡ₚ names' -> Strings names = Strings names'.
Proof.
  intros Hperm. apply (Sorted_unique (fun a b => Is_true (String.leb a b))).
  - apply Sorted_merge_sort; apply _.
  - apply Sorted_merge_sort; apply _.
  - by rewrite !Strings_Permutation.
Qed.

Lemma Strings_ascending (names : list string) :
  NoDup names ->
  StronglySorted (fun a b => String.ltb a b = true) (Strings names).
Proof.
  intros Hnd.
  pose proof (StronglySorted_merge_sort (fun a b => Is_true (String.leb a b)) names) as Hs.
  fold (Strings names) in Hs.
  assert (NoDup (Strings names)) as Hnd' by (by rewrite Strings_Permutation).
  induction Hs as [|a l Hl IH Ha]; [constructor|].
  apply NoDup_cons in Hnd' as [Hni Hnd']. constructor; [by apply IH|].
  rewrite List.Forall_forall in Ha |- *. intros b Hb.
  apply Ha in Hb as Hab. apply Is_true_true, leb_compare in Hab.
  apply json_facts.ltb_lt. destruct (String.compare a b) eqn:Cab; [|done|done].
  apply String.compare_eq_iff in Cab. subst b. destruct Hni. by apply list_elem_of_In.
Qed.

(** *** The map of the servers *)

Lemma keys_map {A : Type} (m : list (string * A)) : map fst m = m.*1.
Proof. induction m as [|[k v] m IH]; [done|]. cbn. by rewrite IH. Qed.

Lemma index_store {A : Type} (m : list (string * A)) key value key' :
  index (store m key value) key'
  = if String.eqb key key' then Some value else index m key'.
Proof.
  induction m as [|[k v] m IH]; cbn [store index]; [done|].
  destruct (String.eqb k key) eqn:Hk; cbn [index].
  - apply String.eqb_eq in Hk. subst k. by destruct (String.eqb key key').
  - rewrite IH. destruct (String.eqb k key') eqn:Hk'; [|done].
    apply String.eqb_eq in Hk'. subst key'.
    rewrite String.eqb_sym in Hk. by rewrite Hk.
Qed.

Lemma index_keys {A : Type} (m : list (string * A)) key :
  is_Some (index m key) <-> key ∈ m.*1.
Proof.
  induction m as [|[k v] m IH]; cbn [index fmap list_fmap fst].
  - split; [by intros [? ?]|by intros ?%elem_of_nil].
  - destruct (String.eqb k key) eqn:Hk.
    + apply String.eqb_eq in Hk. subst k. split; [by left|by eexists].
    + apply String.eqb_neq in Hk. rewrite IH. split; [by right|].
      by intros [?|?]%elem_of_cons.
Qed.

Lemma store_keys {A : Type} (m : list (string * A)) key value :
  (store m key value).*1
  = match index m key with Some _ => m.*1 | None => m.*1 ++ [key] end.
Proof.
  induction m as [|[k v] m IH]; cbn [store index fmap list_fmap fst app]; [done|].
  destruct (String.eqb k key) eqn:Hk; cbn [fmap list_fmap fst].
  - apply String.eqb_eq in Hk. by subst k.
  - rewrite IH. by destruct (index m key).
Qed.

(** The servers in the order in which the two loops come to them, each
    with the path of its project. *)
Lemma aggregate_flat (config : ClaudeConfig) :
  aggregate config
  = fold_left (fun servers pe => add_server pe.1 servers pe.2)
      (flat_map (fun project => map (fun e => (project.1, e)) (MCPServers project.2))
         (Projects config)) [].
Proof.
  unfold aggregate. generalize (@nil (string * ServerInfo)).
  induction (Projects config) as [|[path project] projects IH]; intros servers; [done|].
  cbn [fold_left flat_map fst snd]. rewrite fold_left_app, IH. f_equal.
  generalize servers. induction (MCPServers project) as [|e es IHe]; intros s; [done|].
  cbn [map fold_left fst snd]. apply IHe.
Qed.

Lemma flat_entries (config : ClaudeConfig) name server :
  (name, server)
    ∈ (flat_map (fun project => map (fun e => (project.1, e)) (MCPServers project.2))
         (Projects config)).*2
  <-> exists project, project ∈ Projects config /\ (name, server) ∈ MCPServers project.2.
Proof.
  rewrite list_elem_of_fmap. split.
  - intros ([path e] & -> & Hin). apply list_elem_of_In, in_flat_map in Hin as (project & Hp & He).
    apply in_map_iff in He as (e' & [= <- <-] & He'). exists project.
    split; by apply list_elem_of_In.
  - intros (project & Hp & He). exists (project.1, (name, server)). split; [done|].
    apply list_elem_of_In, in_flat_map. exists project. split; [by apply list_elem_of_In|].
    apply in_map_iff. exists (name, server). split; [done|by apply list_elem_of_In].
Qed.

Lemma fold_add_server (entries : list (string * (string * MCPServer))) :
  let servers := fold_left (fun servers pe => add_server pe.1 servers pe.2) entries [] in
  NoDup servers.*1
  /\ (forall name, name ∈ servers.*1 <-> name ∈ (entries.*2).*1)
  /\ (forall name info,
        index servers name = Some info ->
        exists server, (name, server) ∈ entries.*2 /\ configured name server info).
Proof.
  cbv zeta. induction entries as [|[path [name server]] entries IH] using rev_ind.
  { cbn. split; [constructor|]. split; [done|done]. }
  destruct IH as (Hnd & Hkeys & Hinfo).
  rewrite fold_left_app. cbn [fold_left fst snd].
  set (servers := fold_left _ entries []) in *.
  rewrite !fmap_app. cbn [fmap list_fmap fst snd].
  unfold add_server.
  destruct (index servers name) as [existing|] eqn:Hidx.
  - split; [|split].
    + rewrite store_keys, Hidx. done.
    + intros name'. rewrite store_keys, Hidx, Hkeys, elem_of_app, list_elem_of_singleton.
      split; [by left|]. intros [?| ->]; [done|].
      apply Hkeys, index_keys. by eexists.
    + intros name' info. rewrite index_store.
      destruct (String.eqb name name') eqn:Hn.
      * apply String.eqb_eq in Hn. subst name'. intros [= <-].
        destruct (Hinfo _ _ Hidx) as (server' & Hin & Hc). exists server'.
        split; [apply elem_of_app; by left|done].
      * intros (server' & Hin & Hc)%Hinfo. exists server'.
        split; [apply elem_of_app; by left|done].
  - split; [|split].
    + rewrite store_keys, Hidx. apply NoDup_app. split; [done|].
      split; [|apply NoDup_singleton].
      intros name' Hin Heq%list_elem_of_singleton. subst name'.
      apply index_keys in Hin as [? Hin]. by rewrite Hin in Hidx.
    + intros name'. rewrite store_keys, Hidx, !elem_of_app, Hkeys. done.
    + intros name' info. rewrite index_store.
      destruct (String.eqb name name') eqn:Hn.
      * apply String.eqb_eq in Hn. subst name'. intros [= <-]. exists server.
        split; [apply elem_of_app; right; by apply list_elem_of_singleton|done].
      * intros (server' & Hin & Hc)%Hinfo. exists server'.
        split; [apply elem_of_app; by left|done].
Qed.

Lemma aggregate_servers (config : ClaudeConfig) :
  NoDup (aggregate config).*1
  /\ (forall name,
        name ∈ (aggregate config).*1
        <-> exists project server,
             project ∈ Projects config /\ (name, server) ∈ MCPServers project.2)
  /\ (forall name info,
        index (aggregate config) name = Some info ->
        exists project server,
          project ∈ Projects config /\ (name, server) ∈ MCPServers project.2
          /\ configured name server info).
Proof.
  rewrite aggregate_flat.
  destruct (fold_add_server
              (flat_map (fun project => map (fun e => (project.1, e)) (MCPServers project.2))
                 (Projects config))) as (Hnd & Hkeys & Hinfo).
  split; [done|]. split.
  - intros name. rewrite Hkeys, list_elem_of_fmap. split.
    + intros ([name' server] & -> & Hin). apply flat_entries in Hin as (project & ? & ?).
      by exists project, server.
    + intros (project & server & Hp & He). exists (name, server). split; [done|].
      apply flat_entries. by exists project.
  - intros name info (server & Hin & Hc)%Hinfo.
    apply flat_entries in Hin as (project & ? & ?). by exists project, server.
Qed.

Lemma rows_of_names (servers : list (string * ServerInfo)) (names : list string) :
  (forall name, name ∈ names ->
     exists info, index servers name = Some info /\ Info_Name info = name) ->
  map Info_Name (omap (index servers) names) = names
  /\ map (fun name => match index servers name with
                      | Some info => row info
                      | None => EmptyString
                      end) names
     = map row (omap (index servers) names).
Proof.
  induction names as [|name names IH]; intros Hall; [done|].
  destruct (Hall name) as (info & Hidx & Hname); [by left|].
  destruct IH as [IHn IHr]; [intros name' Hin; apply Hall; by right|].
  cbn [omap list_omap map]. rewrite Hidx. cbn [map]. by rewrite IHn, IHr, Hname.
Qed.

(** X25. The table of [listServers] has one row for each name under which a
    server is configured in some project, the rows in strictly ascending
    order of the names, whatever the order in which the maps are visited;
    the cells of a row are those of a server configured under its name. And
    [No MCP servers configured.] is printed exactly when no project has a
    server. *)
Theorem listServers_rows (config : ClaudeConfig) :
  let names := sorted_names (aggregate config) in
  let rows := omap (index (aggregate config)) names in
  StronglySorted (fun a b => String.ltb a b = true) names
  /\ (forall name,
        name ∈ names
        <-> exists project server,
             project ∈ Projects config /\ (name, server) ∈ MCPServers project.2)
  /\ (forall name,
        name ∈ names ->
        exists info project server,
          index (aggregate config) name = Some info
          /\ project ∈ Projects config /\ (name, server) ∈ MCPServers project.2
          /\ Info_Name info = name /\ Info_Type info = Server_Type server
          /\ Info_URL info = Server_URL server
          /\ Info_Command info = Server_Command server
          /\ Info_Args info = Server_Args server)
  /\ map Info_Name rows = names
  /\ listServers config
     = (if decide (names = []) then [Println "No MCP servers configured."]
        else [Flush (header +:+ String.concat EmptyString (map row rows))])
  /\ (listServers config = [Println "No MCP servers configured."]
      <-> forall project, project ∈ Projects config -> MCPServers project.2 = []).
Proof.
  cbv zeta. destruct (aggregate_servers config) as (Hnd & Hkeys & Hinfo).
  assert (forall name, name ∈ sorted_names (aggregate config)
                       <-> name ∈ (aggregate config).*1) as Hnames.
  { intros name. unfold sorted_names. by rewrite keys_map, Strings_Permutation. }
  assert (forall name, name ∈ sorted_names (aggregate config) ->
            exists info, index (aggregate config) name = Some info
                         /\ Info_Name info = name) as Hrows.
  { intros name Hin%Hnames. apply index_keys in Hin as [info Hidx].
    destruct (Hinfo _ _ Hidx) as (project & server & _ & _ & Hname & _).
    by exists info. }
  destruct (rows_of_names _ _ Hrows) as [Hrn Hrr].
  split; [unfold sorted_names; rewrite keys_map; by apply Strings_ascending|].
  split; [|split; [|split; [|split]]].
  - intros name. by rewrite Hnames, Hkeys.
  - intros name Hin%Hnames. apply index_keys in Hin as [info Hidx].
    destruct (Hinfo _ _ Hidx) as (project & server & Hp & He & Hc).
    exists info, project, server. by destruct Hc as (? & ? & ? & ? & ?).
  - exact Hrn.
  - unfold listServers. rewrite Hrr.
    assert (List.length (aggregate config) = List.length (sorted_names (aggregate config)))
      as Hlen.
    { unfold sorted_names. rewrite (Permutation_length (Strings_Permutation _)).
      by rewrite length_map. }
    rewrite Hlen.
    destruct (sorted_names (aggregate config)) as [|name names]; [done|].
    cbn [List.length Nat.eqb]. by rewrite decide_False.
  - unfold listServers.
    destruct (aggregate config) as [|[name info] servers] eqn:Hagg.
    + cbn. split; [|done]. intros _ project Hp.
      destruct (MCPServers project.2) as [|[name server] es] eqn:Hes; [done|].
      assert (name ∈ @nil string) as Hin; [|by apply elem_of_nil in Hin].
      apply (Hkeys name). exists project, server. split; [done|]. rewrite Hes. by left.
    + cbn [List.length Nat.eqb]. split; [done|]. intros Hnone.
      assert (name ∈ ((name, info) :: servers).*1) as Hin by (by left).
      apply Hkeys in Hin as (project & server & Hp & He).
      rewrite (Hnone project Hp) in He. by apply elem_of_nil in He.
Qed.

Lemma row_configured name server info info' :
  configured name server info -> configured name server info' -> row info = row info'.
Proof.
  intros (Hn & Ht & Hu & Hc & Ha) (Hn' & Ht' & Hu' & Hc' & Ha'). unfold row.
  by rewrite Hn, Ht, Hu, Hc, Ha, Hn', Ht', Hu', Hc', Ha'.
Qed.

(** X26. What [listServers] prints does not depend on the order in which the
    maps are visited, nor on the projects a server is configured in, as
    long as a name stands for one configuration: two configurations with
    the same servers under the same names, each name configured the same
    way wherever it occurs, give the same output. *)
Theorem listServers_any_order (config config' : ClaudeConfig) :
  (forall name server server' project project',
      project ∈ Projects config -> project' ∈ Projects config ->
      (name, server) ∈ MCPServers project.2 -> (name, server') ∈ MCPServers project'.2 ->
      server = server') ->
  (forall name server,
      (exists project, project ∈ Projects config /\ (name, server) ∈ MCPServers project.2)
      <-> (exists project,
             project ∈ Projects config' /\ (name, server) ∈ MCPServers project.2)) ->
  listServers config = listServers config'.
Proof.
  intros Hcons Hsame.
  destruct (aggregate_servers config) as (Hnd & Hkeys & Hinfo).
  destruct (aggregate_servers config') as (Hnd' & Hkeys' & Hinfo').
  assert ((aggregate config).*1 ≡ₚ (aggregate config').*1) as Hperm.
  { apply NoDup_Permutation; [done|done|]. intros name. rewrite Hkeys, Hkeys'. split.
    - intros (project & server & Hp & He).
      destruct (proj1 (Hsame name server)) as (project' & ? & ?); [by exists project|].
      by exists project', server.
    - intros (project & server & Hp & He).
      destruct (proj2 (Hsame name server)) as (project' & ? & ?); [by exists project|].
      by exists project', server. }
  assert (List.length (aggregate config) = List.length (aggregate config')) as Hlen.
  { rewrite <- (length_fmap fst (aggregate config)), <- (length_fmap fst (aggregate config')).
    by apply Permutation_length. }
  unfold listServers. rewrite Hlen.
  destruct (List.length (aggregate config') =? 0)%nat; [done|].
  unfold sorted_names. rewrite !keys_map, (Strings_unique _ _ Hperm). do 4 f_equal.
  apply map_ext_in. intros name Hin.
  apply list_elem_of_In in Hin. rewrite Strings_Permutation in Hin.
  assert (name ∈ (aggregate config).*1) as Hin0 by (by rewrite Hperm).
  apply index_keys in Hin as [info' Hidx']. apply index_keys in Hin0 as [info Hidx].
  rewrite Hidx, Hidx'.
  destruct (Hinfo _ _ Hidx) as (project & server & Hp & He & Hc).
  destruct (Hinfo' _ _ Hidx') as (project' & server' & Hp' & He' & Hc').
  destruct (proj2 (Hsame name server')) as (project0 & Hp0 & He0); [by exists project'|].
  rewrite <- (Hcons _ _ _ _ _ Hp Hp0 He He0) in Hc'.
  by apply (row_configured name server).
Qed.

(** *** The server to inspect *)

Lemma foundServer_some projects serverName server :
  foundServer projects serverName = Some server ->
  exists project,
    project ∈ projects /\ index (MCPServers project.2) serverName = Some server.
Proof.
  induction projects as [|[path project] projects IH]; [done|]. cbn [foundServer].
  destruct (index (MCPServers project) serverName) as [server'|] eqn:Hidx.
  - intros [= <-]. exists (path, project). split; [by left|done].
  - intros (project' & Hin & Hidx')%IH. exists project'. split; [by right|done].
Qed.

Lemma foundServer_none projects serverName :
  foundServer projects serverName = None <->
  forall project, project ∈ projects -> index (MCPServers project.2) serverName = None.
Proof.
  induction projects as [|[path project] projects IH]; cbn [foundServer].
  - split; [|done]. intros _ project Hin. by apply elem_of_nil in Hin.
  - destruct (index (MCPServers project) serverName) as [server|] eqn:Hidx.
    + split; [done|]. intros Hall.
      pose proof (Hall (path, project) ltac:(by left)) as Hnone. cbn [snd] in Hnone.
      by rewrite Hnone in Hidx.
    + rewrite IH. split.
      * intros Hall project' [->|Hin]%elem_of_cons; [done|by apply Hall].
      * intros Hall project' Hin. apply Hall. by right.
Qed.

(** X27. The server [inspectServer] goes on with is one that a project
    has under the name given, and there is none, which is the error [server
    not found], exactly when no project has a server of that name. When the
    projects that have the name all configure it the same way, the order in
    which the projects are visited makes no difference. *)
Theorem inspectServer_lookup (config : ClaudeConfig) (serverName : string) :
  (forall server,
      foundServer (Projects config) serverName = Some server ->
      exists project,
        project ∈ Projects config
        /\ index (MCPServers project.2) serverName = Some server)
  /\ (foundServer (Projects config) serverName = None
      <-> forall project,
           project ∈ Projects config -> index (MCPServers project.2) serverName = None)
  /\ (forall projects',
        Projects config ≡ₚ projects' ->
        (forall project project' server server',
            project ∈ Projects config -> project' ∈ Projects config ->
            index (MCPServers project.2) serverName = Some server ->
            index (MCPServers project'.2) serverName = Some server' ->
            server = server') ->
        foundServer (Projects config) serverName = foundServer projects' serverName).
Proof.
  split; [apply foundServer_some|]. split; [apply foundServer_none|].
  intros projects' Hperm Hsame.
  destruct (foundServer (Projects config) serverName) as [server|] eqn:Hfound;
    destruct (foundServer projects' serverName) as [server'|] eqn:Hfound'; [| | |done].
  - apply foundServer_some in Hfound as (project & Hin & Hidx).
    apply foundServer_some in Hfound' as (project' & Hin' & Hidx').
    rewrite <- Hperm in Hin'. f_equal. by apply (Hsame project project').
  - apply foundServer_some in Hfound as (project & Hin & Hidx).
    rewrite Hperm in Hin.
    by rewrite (proj1 (foundServer_none _ _) Hfound' _ Hin) in Hidx.
  - apply foundServer_some in Hfound' as (project & Hin & Hidx).
    rewrite <- Hperm in Hin.
    by rewrite (proj1 (foundServer_none _ _) Hfound _ Hin) in Hidx.
Qed.

(** *** Examples *)

(** The server [files] is in both projects, the same in each: it is found
    whichever project comes first; and no project has a server [mail]. *)
Lemma inspectServer_lookup_witness :
  foundServer samples.two_projects "files" = foundServer (rev samples.two_projects) "files"
  /\ foundServer samples.two_projects "mail" = None.
Proof.
  pose proof (inspectServer_lookup {| Projects := samples.two_projects |} "files")
    as (_ & _ & Horder).
  pose proof (inspectServer_lookup {| Projects := samples.two_projects |} "mail")
    as (_ & Hnone & _).
  split.
  - apply (Horder (rev samples.two_projects)).
    + apply Permutation_rev.
    + intros project project' server server' Hin Hin' Hidx Hidx'.
      apply elem_of_cons in Hin as [->|Hin]; [|apply list_elem_of_singleton in Hin; subst];
        (apply elem_of_cons in Hin' as [->|Hin'];
         [|apply list_elem_of_singleton in Hin'; subst]);
        vm_compute in Hidx, Hidx'; congruence.
  - apply (proj2 Hnone). intros project Hin.
    apply elem_of_cons in Hin as [->|Hin]; [|apply list_elem_of_singleton in Hin; subst];
      reflexivity.
Defined.

Lemma listServers_rows_witness :
  "git" ∈ sorted_names (aggregate samples.config).
Proof.
  pose proof (listServers_rows samples.config) as W. cbv zeta in W.
  destruct W as (_ & Hnames & _).
  apply (proj2 (Hnames "git")).
  exists ("/work/a",
          {| MCPServers := [("git", samples.git_server); ("files", samples.files_server)] |}),
    samples.git_server.
  split; apply list_elem_of_here.
Defined.

(** The table of that configuration, as it is written to the tab writer. *)
Example listServers_table :
  listServers samples.config
  = [Flush ("NAME" +:+ tab +:+ "TYPE" +:+ tab +:+ "URL" +:+ tab +:+ "COMMAND" +:+ tab
            +:+ "ARGS" +:+ newline
            +:+ "files" +:+ tab +:+ "stdio" +:+ tab +:+ "[N/A]" +:+ tab +:+ "mcp-files"
            +:+ tab +:+ "--root /tmp" +:+ newline
            +:+ "git" +:+ tab +:+ "http" +:+ tab +:+ "https://git.example/mcp" +:+ tab
            +:+ "[N/A]" +:+ tab +:+ "[N/A]" +:+ newline)].
Proof. vm_compute. reflexivity. Qed.

Lemma listServers_any_order_witness :
  listServers samples.config = listServers samples.config'.
Proof.
  apply listServers_any_order.
  - intros name server server' project project' Hp Hp' He He'.
    apply list_elem_of_singleton in Hp, Hp'. subst project project'.
    cbn [snd MCPServers] in He, He'.
    apply elem_of_cons in He as [He|He]; [|apply list_elem_of_singleton in He];
      (apply elem_of_cons in He' as [He'|He']; [|apply list_elem_of_singleton in He']);
      congruence.
  - intros name server. split.
    + intros (project & Hp & He). apply list_elem_of_singleton in Hp. subst project.
      exists ("/work/a",
              {| MCPServers := [("files", samples.files_server);
                                ("git", samples.git_server)] |}).
      split; [apply list_elem_of_here|].
      apply elem_of_cons in He as [He|He];
        [rewrite He; apply list_elem_of_further, list_elem_of_here|].
      apply list_elem_of_singleton in He. rewrite He. apply list_elem_of_here.
    + intros (project & Hp & He). apply list_elem_of_singleton in Hp. subst project.
      exists ("/work/a",
              {| MCPServers := [("git", samples.git_server);
                                ("files", samples.files_server)] |}).
      split; [apply list_elem_of_here|].
      apply elem_of_cons in He as [He|He];
        [rewrite He; apply list_elem_of_further, list_elem_of_here|].
      apply list_elem_of_singleton in He. rewrite He. apply list_elem_of_here.
Defined.

End listing.
